(** * Self-verifying generation pipeline: validator, extractor, prompts, retry loop

    A shallow embedding of the Python sources
    [pipeline/modules/code_validator.py], [pipeline/modules/output_parser.py],
    [pipeline/modules/prompt_builder.py], [pipeline/modules/llm_generator.py],
    [pipeline/modules/file_writer.py], [pipeline/modules/task_manager.py],
    [pipeline/modules/progress_tracker.py] and [run_pipeline.py].

    Conventions.
    - A Python [str] is a Rocq [string] that holds its UTF-8 bytes; [len]
      counts its code points.  The classes of characters that [str.strip]
      and the regular expressions use are modelled on ASCII text:
      [Text.is_space] is the ASCII part of Python's whitespace (code points
      9-13, 28-31 and 32) and [Paths.is_digit] the digits 0-9.  On a text
      with other whitespace (U+00A0, ...) or other digits (U+0663, ...)
      Python strips or matches more than the model; the statements that
      depend on it are made for ASCII texts ([isascii]).
    - Python values that reach the comparison in the validator are
      integers, Booleans, floats, [None], nested lists or tuples, arrays
      taken with the integer array that numpy converts them to, and other
      objects taken with what [int] gives for them ([pyval]).  numpy
      converts each scalar with [int], so floats are cut towards zero.
      numpy's limit on the number of dimensions of an array is not
      modelled.
    - What the Python interpreter, the parser and the generation service do
      is not part of the repository: they enter as Section variables
      ([python_exec], [ast_parse], [llm], [json_dumps]); the module [Demo]
      gives them on a few concrete sources.
    - A call into candidate code may return, raise an instance of
      [Exception], raise an exception outside [Exception] such as
      [SystemExit], which no [except Exception] catches, or never return
      ([outcome]).  A call of the validator that does not return to its
      caller, for either of the last two reasons, is [None] in the [option]
      returned by the model.
    - The module of a candidate keeps its globals between the calls of one
      validation, so the entry point is a function of its argument and of
      the arguments of the calls made before ([entry]); it is loaded anew
      for every validation.  Candidates are deterministic.
    - File and log writes always succeed, and [time.sleep] and [print] are
      left out.
    - Paths are joined as [posixpath] joins them; a file system is a map
      from paths to the contents of regular files, and [os.path.exists]
      for task files is a Boolean function of the path.
    - The progress log is read back as the rows that [csv.DictReader]
      yields after the header that [ProgressTracker.__init__] wrote.

    The model comes first, then the vocabulary of the properties, then the
    lemmas and theorems. *)

From Stdlib Require Import ZArith Ascii String List Bool Lia.
From stdpp Require Import base option strings gmap list pretty.

#[local] Set Warnings "-register-all,-abstract-large-number".

Open Scope string_scope.
Open Scope list_scope.

(** ** Python values and the part of numpy the validator calls *)

(** [len(s)]: the number of code points of [s], that is of its bytes
    other than the continuation bytes [10xxxxxx] of UTF-8. *)
Definition is_continuation (c : ascii) : bool :=
  let n := nat_of_ascii c in
  Nat.leb 128 n && Nat.ltb n 192.

Fixpoint len (s : string) : nat :=
  match s with
  | "" => 0
  | String c s' => (if is_continuation c then 0 else 1) + len s'
  end.

(** A Python [float]: a finite float is [m * 2 ^ e]. *)
Inductive pyfloat : Type :=
| Finite (m e : Z)
| Infinite (negative : bool)
| NaN.

(** The values that candidates return and task files hold.
    - [PList]: a list, or a tuple, of values;
    - [PArray]: an object that numpy takes as an array and converts
      without raising, such as an [ndarray] or a [range]; [shape] and
      [data] are those of [np.array(obj, dtype=int)];
    - [POther]: any other object: a [str], a [dict], a numpy scalar, ...,
      which numpy takes as a scalar, or an array whose conversion raises;
      [as_int] is the integer that the conversion, [int(obj)] for a
      scalar, returns, and [None] when it raises. *)
#[local] Unset Elimination Schemes.
Inductive pyval : Type :=
| PInt (z : Z)
| PBool (b : bool)
| PFloat (f : pyfloat)
| PNone
| PList (l : list pyval)
| PArray (shape : list nat) (data : list Z)
| POther (as_int : option Z).
#[local] Set Elimination Schemes.

Definition is_list (v : pyval) : bool :=
  match v with
  | PList _ => true
  | _ => false
  end.

(** Induction principle that reaches inside the nested lists. *)
Fixpoint pyval_rect' (P : pyval -> Type) (Q : list pyval -> Type)
    (HScalar : forall v, is_list v = false -> P v)
    (HList : forall l, Q l -> P (PList l))
    (HNil : Q [])
    (HCons : forall v l, P v -> Q l -> Q (v :: l))
    (v : pyval) : P v :=
  match v with
  | PList l =>
      HList l
        ((fix go (l : list pyval) : Q l :=
            match l with
            | [] => HNil
            | x :: l' =>
                HCons x l' (pyval_rect' P Q HScalar HList HNil HCons x) (go l')
            end) l)
  | PInt z => HScalar (PInt z) eq_refl
  | PBool b => HScalar (PBool b) eq_refl
  | PFloat f => HScalar (PFloat f) eq_refl
  | PNone => HScalar PNone eq_refl
  | PArray s d => HScalar (PArray s d) eq_refl
  | POther o => HScalar (POther o) eq_refl
  end.

Module Numpy.

(** An [ndarray] of dtype [int]: its shape and its elements in row-major
    order. *)
Record ndarray : Type := mk_ndarray { shape : list nat; data : list Z }.

(** dtype [int] is a 64-bit signed integer: a Python integer outside that
    range makes [np.array] raise [OverflowError]. *)
Definition int64_ok (z : Z) : bool :=
  (Z.leb (- 2 ^ 63) z) && (Z.ltb z (2 ^ 63)).

Definition shape_eqb (s t : list nat) : bool :=
  bool_decide (s = t).

(** [int(f)] for a float: the integer part, towards zero; it raises for
    an infinity and for NaN. *)
Definition float_to_int (f : pyfloat) : option Z :=
  match f with
  | Finite m e =>
      Some (if Z.leb 0 e then m * 2 ^ e else Z.quot m (2 ^ (- e)))%Z
  | Infinite _ => None
  | NaN => None
  end.

(** The integer that numpy stores for a scalar: the conversion calls
    [int] on it.  [None] when the conversion raises, and for a list or
    an array, which is no scalar. *)
Definition to_int (v : pyval) : option Z :=
  match v with
  | PInt z => Some z
  | PBool b => Some (if b then 1 else 0)%Z
  | PFloat f => float_to_int f
  | PNone => None
  | PList _ => None
  | PArray _ _ => None
  | POther as_int => as_int
  end.

Definition scalar_array (v : pyval) : option ndarray :=
  match to_int v with
  | Some z => if int64_ok z then Some (mk_ndarray [] [z]) else None
  | None => None
  end.

(** The conversion of a value that is no list. *)
Definition leaf_array (v : pyval) : option ndarray :=
  match v with
  | PArray s d => Some (mk_ndarray s d)
  | scalar => scalar_array scalar
  end.

(** Stacks the converted items of a list: all items must have one shape
    (otherwise numpy raises [ValueError], inhomogeneous shape). *)
Definition stack (items : list ndarray) : option ndarray :=
  match items with
  | [] => Some (mk_ndarray [0%nat] [])
  | a :: _ =>
      if forallb (fun b => shape_eqb (shape b) (shape a)) items
      then Some (mk_ndarray (length items :: shape a) (concat (map data items)))
      else None
  end.

(** [np.array(v, dtype=int)]; [None] when the call raises. *)
Fixpoint np_array (v : pyval) : option ndarray :=
  match v with
  | PList l =>
      match
        (fix go (l : list pyval) : option (list ndarray) :=
           match l with
           | [] => Some []
           | x :: l' =>
               match np_array x, go l' with
               | Some a, Some r => Some (a :: r)
               | _, _ => None
               end
           end) l
      with
      | Some items => stack items
      | None => None
      end
  | leaf => leaf_array leaf
  end.

(** The conversion of the items of a list, as [np_array] does it. *)
Definition np_items : list pyval -> option (list ndarray) :=
  fix go (l : list pyval) : option (list ndarray) :=
    match l with
    | [] => Some []
    | x :: l' =>
        match np_array x, go l' with
        | Some a, Some r => Some (a :: r)
        | _, _ => None
        end
    end.

(** [np.array_equal(a, b)]: same shape and all elements equal. *)
Definition array_equal (a b : ndarray) : bool :=
  shape_eqb (shape a) (shape b) && bool_decide (data a = data b).

End Numpy.

(** ** Candidate code as the validator sees it *)

(** One call of the entry point: it returns a value, raises an instance of
    [Exception] (with its message), raises an exception outside
    [Exception] ([SystemExit], [KeyboardInterrupt], [GeneratorExit]:
    [except Exception] does not catch these), or never returns. *)
Inductive outcome : Type :=
| Returns (v : pyval)
| Raises (msg : string)
| Escapes (msg : string)
| Hangs.

(** The entry point of a loaded module.  The module keeps its globals
    between calls, so what a call does depends on the calls made before
    it: [program earlier input] is the outcome of the call on [input]
    when [earlier] lists the inputs of the calls made since the module
    was loaded, oldest first. *)
Definition entry : Type := list pyval -> pyval -> outcome.

(** The next call, and the entry point once that call is made. *)
Definition call (program : entry) (input_grid : pyval) : outcome :=
  program [] input_grid.

Definition advance (program : entry) (input_grid : pyval) : entry :=
  fun earlier => program (input_grid :: earlier).

(** The attribute [p] of the loaded module. *)
Inductive attr : Type :=
| NotCallable
| Callable (program : entry).

(** Loading the temporary module ([spec_from_file_location],
    [module_from_spec], [exec_module]): no spec, an [Exception], an
    exception outside [Exception], no return, or the module with its
    attribute [p], if it has one. *)
Inductive load_result : Type :=
| SpecNone
| ExecRaises (msg : string)
| ExecEscapes (msg : string)
| ExecHangs
| Loaded (p : option attr).

(** Result of [ast.parse]. *)
Inductive parse_result : Type :=
| ParseOk
| ParseSyntaxError (msg : string)
| ParseOtherError (msg : string).

(** A value or a propagating exception. *)
Inductive res (A : Type) : Type :=
| Ret (a : A)
| Exc (msg : string).
Arguments Ret {A} a.
Arguments Exc {A} msg.

(** One training or test example: a dict with keys [input] and [output]. *)
Abbreviation example := (gmap string pyval).
(** Task data: a dict with keys [train] and [test]. *)
Abbreviation task_data := (gmap string (list (gmap string pyval))).

Module CodeValidator.

(** What one pass through the body of the loop over the training examples
    does. *)
Inductive example_result : Type :=
| ExPass
| ExMismatch
| ExCaught (msg : string)
| ExEscape (msg : string)
| ExHang.

Definition run_example (program : entry) (ex : example) : example_result :=
  match ex !! "input" with
  | None => ExCaught "'input'"
  | Some input_grid =>
      match ex !! "output" with
      | None => ExCaught "'output'"
      | Some expected =>
          match call program input_grid with
          | Hangs => ExHang
          | Escapes msg => ExEscape msg
          | Raises msg => ExCaught msg
          | Returns result =>
              match Numpy.np_array result with
              | None => ExCaught "np.array(result, dtype=int) raised"
              | Some result_np =>
                  match Numpy.np_array expected with
                  | None => ExCaught "np.array(expected, dtype=int) raised"
                  | Some expected_np =>
                      if Numpy.array_equal result_np expected_np
                      then ExPass else ExMismatch
                  end
              end
          end
      end
  end.

(** The entry point once the example is scored: the call is made when
    the example has both keys. *)
Definition after_example (program : entry) (ex : example) : entry :=
  match ex !! "input", ex !! "output" with
  | Some input_grid, Some _ => advance program input_grid
  | _, _ => program
  end.

(** The [for example in train_examples] loop, threading [num_correct];
    [None] when the loop is not left normally: a call never returns, or
    raises an exception outside [Exception]. *)
Fixpoint score_examples (program : entry)
    (train_examples : list example) (num_correct : nat) : option nat :=
  match train_examples with
  | [] => Some num_correct
  | ex :: rest =>
      let program' := after_example program ex in
      match run_example program ex with
      | ExPass => score_examples program' rest (S num_correct)
      | ExMismatch => score_examples program' rest num_correct
      | ExCaught _ => score_examples program' rest num_correct
      | ExEscape _ => None
      | ExHang => None
      end
  end.

Definition tally_message (num_correct total : nat) : string :=
  "Passed " +:+ pretty num_correct +:+ "/" +:+ pretty total
    +:+ " train examples".

(** [validate_code_length(code, max_length=10000)] *)
Definition validate_code_length (code : string) (max_length : nat) : bool :=
  Nat.leb (len code) max_length.

Definition default_max_length : nat := 100 * 100.

Section Validator.

Variable ast_parse : string -> parse_result.
Variable python_exec : string -> load_result.

(** [is_syntax_valid]: only [SyntaxError] is caught. *)
Definition is_syntax_valid (code : string) : res bool :=
  match ast_parse code with
  | ParseOk => Ret true
  | ParseSyntaxError _ => Ret false
  | ParseOtherError msg => Exc msg
  end.

(** [passes_training_examples(task_data, code)]: [(passed, message)], or
    [None] when the call does not return to its caller: it never returns,
    or an exception outside [Exception] passes through its
    [except Exception]. *)
Definition passes_training_examples (task : task_data) (code : string)
  : option (bool * string) :=
  match python_exec code with
  | SpecNone => Some (false, "Could not create module spec")
  | ExecRaises msg => Some (false, msg)
  | ExecEscapes _ => None
  | ExecHangs => None
  | Loaded None => Some (false, "Function p() not found")
  | Loaded (Some NotCallable) => Some (false, "p is not callable")
  | Loaded (Some (Callable program)) =>
      let train_examples := default [] (task !! "train") in
      let total := length train_examples in
      match score_examples program train_examples 0 with
      | None => None
      | Some num_correct =>
          let passed := Nat.eqb num_correct total in
          Some (passed, tally_message num_correct total)
      end
  end.

End Validator.

End CodeValidator.

(** ** Text operations of Python's [str] and [re] used by the extractor *)

Module Text.

(** [str.isspace], and the class [\s], on ASCII: tab, line feed, vertical
    tab, form feed, carriage return, the four separators 28-31 and the
    space.  Whitespace outside ASCII is not recognised. *)
Definition is_space (c : ascii) : bool :=
  let n := nat_of_ascii c in
  (Nat.leb 9 n && Nat.leb n 13) || (Nat.leb 28 n && Nat.leb n 32).

Definition is_newline (c : ascii) : bool :=
  Nat.eqb (nat_of_ascii c) 10.

Definition line_feed : string := String (ascii_of_nat 10) "".

Fixpoint lstrip (s : string) : string :=
  match s with
  | "" => ""
  | String c s' => if is_space c then lstrip s' else s
  end.

Fixpoint rstrip (s : string) : string :=
  match s with
  | "" => ""
  | String c s' =>
      match rstrip s' with
      | "" => if is_space c then "" else String c ""
      | r => String c r
      end
  end.

(** [s.strip()] *)
Definition strip (s : string) : string := rstrip (lstrip s).

(** [s.startswith(pat)] *)
Fixpoint starts_with (pat s : string) : bool :=
  match pat, s with
  | "", _ => true
  | String a pat', String b s' => Ascii.eqb a b && starts_with pat' s'
  | String _ _, "" => false
  end.

(** [s[n:]] *)
Fixpoint skip (n : nat) (s : string) : string :=
  match n, s with
  | O, _ => s
  | S n', String _ s' => skip n' s'
  | S _, "" => ""
  end.

(** Leftmost occurrence of [pat] in [s]: the text before it and the text
    after it. *)
Fixpoint split_at_first (pat s : string) : option (string * string) :=
  if starts_with pat s then Some ("", skip (String.length pat) s)
  else
    match s with
    | "" => None
    | String c s' =>
        match split_at_first pat s' with
        | Some (before, after) => Some (String c before, after)
        | None => None
        end
    end.

(** [pat in s] *)
Definition contains (pat s : string) : bool :=
  match split_at_first pat s with
  | Some _ => true
  | None => false
  end.

Definition fence : string := "```".

(** First match of the regular expression [opening(.*?)```] with
    [re.DOTALL], as [re.findall(...)[0]] returns it: the search tries the
    start positions from left to right; at a start position the literal
    [opening] must match and the lazy group then extends to the nearest
    closing fence.  [None] when [re.findall] returns the empty list. *)
Fixpoint first_group (opening s : string) : option string :=
  let here :=
    if starts_with opening s
    then split_at_first fence (skip (String.length opening) s)
    else None in
  match here with
  | Some (body, _) => Some body
  | None =>
      match s with
      | "" => None
      | String _ s' => first_group opening s'
      end
  end.

(** Scanner states of [re.sub(r'^python\s*', '', code, flags=re.MULTILINE)]:
    - [Plain bol]: no match in progress; [bol] says whether the current
      position is the start of the string or follows a line feed, which is
      where [^] matches under [re.MULTILINE];
    - [Word k]: inside a match, [k] characters of the word [python] are
      still to be consumed;
    - [Spaces nl]: inside the greedy [\s*] of a match; [nl] says whether the
      character consumed last was a line feed. *)
Inductive scan : Type :=
| Plain (bol : bool)
| Word (k : nat)
| Spaces (nl : bool).

Fixpoint re_sub (m : scan) (s : string) : string :=
  match s with
  | "" => ""
  | String c s' =>
      let at_position (bol : bool) :=
        if bol && starts_with "python" s
        then re_sub (Word 5) s'
        else String c (re_sub (Plain (is_newline c)) s') in
      let in_spaces (nl : bool) :=
        if is_space c
        then re_sub (Spaces (is_newline c)) s'
        else at_position nl in
      match m with
      | Plain bol => at_position bol
      | Word (S k) => re_sub (Word k) s'
      | Word O => in_spaces false
      | Spaces nl => in_spaces nl
      end
  end.

Definition re_sub_python (code : string) : string := re_sub (Plain true) code.

End Text.

Module OutputParser.

Import Text.

(** [extract_code(raw_output)] *)
Definition extract_code (raw_output : string) : string :=
  let code :=
    match first_group "```python" raw_output with
    | Some body => strip body
    | None =>
        match first_group "```" raw_output with
        | Some body => re_sub_python (strip body)
        | None => strip raw_output
        end
    end in
  let code :=
    if negb (contains "def p(g)" code) && negb (contains "def p(g:)" code)
    then strip code
    else code in
  strip code.

(** The header [def\s+p\s*\([^)]*\):] of the pattern of
    [extract_function_body], tried at the start of [s].  Every repetition
    of the pattern is followed by a character it cannot match itself, so
    the greedy match is the only one: all the whitespace after [def], then
    [p], all the whitespace after it, then [(], everything up to the next
    [)], then [:]. *)
Definition def_header_at (s : string) : bool :=
  if starts_with "def" s then
    let after_def := skip 3 s in
    let at_name := lstrip after_def in
    if Nat.ltb (String.length at_name) (String.length after_def)
       && starts_with "p" at_name
    then
      let at_paren := lstrip (skip 1 at_name) in
      if starts_with "(" at_paren then
        match split_at_first ")" (skip 1 at_paren) with
        | Some (_, rest) => starts_with ":" rest
        | None => false
        end
      else false
    else false
  else false.

(** [re.search] of the header followed by [.*], as one group, with
    [re.DOTALL]: the leftmost position where the header matches; the group
    runs from there to the end of the text. *)
Fixpoint search_def (s : string) : option string :=
  if def_header_at s then Some s
  else
    match s with
    | "" => None
    | String _ s' => search_def s'
    end.

(** [extract_function_body(code)] *)
Definition extract_function_body (code : string) : option string :=
  match search_def code with
  | Some group => Some (strip group)
  | None => None
  end.

End OutputParser.

(** ** Prompts *)

Module PromptBuilder.

(** The two templates, cut at their placeholders. *)
Definition initial_head : string :=
"You are an expert at solving abstract reasoning challenges (ARC tasks) using pattern recognition.

CRITICAL: First analyze the examples carefully before coding:

1. **Dimension Analysis**: 
   - What are input dimensions? What are output dimensions?
   - Is output = input × N? Is it a tiling/replication pattern?
   - Example: 3×3 input → 9×9 output means 3× scaling

2. **Pattern Discovery**:
   - Compare ALL training examples - what's consistent across them?
   - Look at zeros vs non-zeros - different behaviors?
   - Is the input used as: (a) data to copy, (b) a mask/template, (c) coordinates?

3. **Tiling Patterns**:
   - If output is M×N times larger, each input cell might control an M×N block
   - CRITICAL: Does each block contain: (a) the input cell value REPEATED, or (b) the ENTIRE INPUT GRID COPIED?
   - Check: Do zero cells behave differently than non-zero cells?
   - Example: If input cell[i][j]=0 → block might be all zeros. If input cell[i][j]!=0 → block might be THE FULL INPUT replicated!

TRAIN EXAMPLES:
".

Definition initial_between : string :=
"

TEST EXAMPLES (for validation):
".

Definition initial_tail : string :=
"

Now write a Python function `def p(g):` that implements the discovered pattern.

Requirements:
- Input `g`: list of lists of integers (0-9)
- Return: transformed grid (same format)
- Use ONLY Python standard library (no imports unless critical: collections, itertools, copy)
- Must work for ALL examples

Write ONLY Python code - no markdown, no explanations.".

Definition refinement_head : string :=
"You are an expert at solving abstract reasoning challenges (ARC tasks). Your previous solution FAILED validation.

PREVIOUS ATTEMPT (FAILED):
```python
".

Definition refinement_after_code : string :=
"
```

VALIDATION ERROR:
".

Definition refinement_after_error : string :=
"

TRAIN EXAMPLES (Your solution must pass ALL of these):
".

Definition refinement_between : string :=
"

TEST EXAMPLES (for pattern understanding):
".

Definition refinement_tail : string :=
"

ANALYSIS OF FAILURE:
Your previous code didn't match the expected outputs. Carefully analyze:
1. What pattern did you miss? Compare your output vs expected output
2. Are you handling ALL cases correctly (zeros, non-zeros, edge cases)?
3. Is the transformation applied correctly to EVERY training example?
4. Did you misunderstand the grid transformation rule?

THINK STEP-BY-STEP:
- Re-examine the input→output transformation in each example
- Identify what's different between your approach and the actual pattern
- Consider: tiling, replication, masking, conditional logic, spatial relationships

Now write a CORRECTED Python function `def p(g):` that fixes the errors.

Requirements:
- Must pass ALL training examples
- Input `g`: list of lists of integers (0-9)
- Return: transformed grid (same format)
- Use ONLY Python standard library

Write ONLY Python code - no markdown, no explanations.".

(** Truth value of an optional string argument: [None] and the empty string
    are false. *)
Definition truthy (o : option string) : bool :=
  match o with
  | Some (String _ _) => true
  | _ => false
  end.

Definition refinement_prompt (previous_code error_message
    train_formatted test_formatted : string) : string :=
  refinement_head +:+ previous_code +:+ refinement_after_code
    +:+ error_message +:+ refinement_after_error
    +:+ train_formatted +:+ refinement_between
    +:+ test_formatted +:+ refinement_tail.

Definition initial_prompt (train_formatted test_formatted : string)
  : string :=
  initial_head +:+ train_formatted +:+ initial_between
    +:+ test_formatted +:+ initial_tail.

Section Builder.

(** [json.dumps(examples, indent=2)] *)
Variable json_dumps : list example -> string.

(** The local [test_formatted]: at most three test examples, and the
    literal [[]] when there is none. *)
Definition format_tests (test_examples : list example) : string :=
  match test_examples with
  | [] => "[]"
  | _ => json_dumps (take 3 test_examples)
  end.

(** [build_prompt(task_id, train_examples, test_examples, previous_code,
    error_message)] *)
Definition build_prompt (task_id : nat)
    (train_examples test_examples : list example)
    (previous_code error_message : option string) : string :=
  let train_formatted := json_dumps train_examples in
  let test_formatted := format_tests test_examples in
  if truthy previous_code && truthy error_message
  then refinement_prompt (default "" previous_code) (default "" error_message)
         train_formatted test_formatted
  else initial_prompt train_formatted test_formatted.

End Builder.

End PromptBuilder.

(** ** The generation client, the sinks and the orchestrator *)

Module Pipeline.

Import CodeValidator OutputParser PromptBuilder.

(** A row appended to the progress log (the timestamp column is left out). *)
Record log_row : Type := mk_row {
  row_task_id : nat;
  row_status : string;
  row_code_length : nat;
  row_validation_passed : bool;
  row_details : string
}.

(** The [stats] dict of [run_pipeline]. *)
Record stats : Type := mk_stats {
  success : nat;
  syntax_error : nat;
  validation_failed : nat;
  exception : nat;
  skipped : nat
}.

(** Everything the run reads and writes.
    - [api_calls]: the counter of [LLMCodeGenerator];
    - [requests]: the prompts passed to [generate], oldest first (one entry
      per call, whether the service answered or failed);
    - [solutions]: the files [taskNNN.py] of the output directory, by task id;
    - [failed_files]: the files [failed/taskNNN_attemptK.py];
    - [progress]: the rows of the progress log, oldest first;
    - [counters]: the [stats] dict. *)
Record world : Type := mk_world {
  api_calls : nat;
  requests : list string;
  solutions : gmap nat string;
  failed_files : gmap (nat * nat) string;
  progress : list log_row;
  counters : stats
}.

Definition set_api_calls (n : nat) (w : world) : world :=
  mk_world n (requests w) (solutions w) (failed_files w) (progress w)
    (counters w).
Definition set_requests (r : list string) (w : world) : world :=
  mk_world (api_calls w) r (solutions w) (failed_files w) (progress w)
    (counters w).
Definition set_solutions (s : gmap nat string) (w : world) : world :=
  mk_world (api_calls w) (requests w) s (failed_files w) (progress w)
    (counters w).
Definition set_failed_files (f : gmap (nat * nat) string) (w : world)
  : world :=
  mk_world (api_calls w) (requests w) (solutions w) f (progress w)
    (counters w).
Definition set_progress (p : list log_row) (w : world) : world :=
  mk_world (api_calls w) (requests w) (solutions w) (failed_files w) p
    (counters w).
Definition set_counters (c : stats) (w : world) : world :=
  mk_world (api_calls w) (requests w) (solutions w) (failed_files w)
    (progress w) c.

Definition incr_success (c : stats) : stats :=
  mk_stats (S (success c)) (syntax_error c) (validation_failed c)
    (exception c) (skipped c).
Definition incr_syntax_error (c : stats) : stats :=
  mk_stats (success c) (S (syntax_error c)) (validation_failed c)
    (exception c) (skipped c).
Definition incr_validation_failed (c : stats) : stats :=
  mk_stats (success c) (syntax_error c) (S (validation_failed c))
    (exception c) (skipped c).
Definition incr_exception (c : stats) : stats :=
  mk_stats (success c) (syntax_error c) (validation_failed c)
    (S (exception c)) (skipped c).
Definition incr_skipped (c : stats) : stats :=
  mk_stats (success c) (syntax_error c) (validation_failed c)
    (exception c) (S (skipped c)).

Definition bump (f : stats -> stats) (w : world) : world :=
  set_counters (f (counters w)) w.

(** [ProgressTracker.log] *)
Definition log (task_id : nat) (status : string) (code_length : nat)
    (validation_passed : bool) (details : string) (w : world) : world :=
  set_progress
    (progress w ++ [mk_row task_id status code_length validation_passed details])
    w.

(** [FileWriter.save_code] and [FileWriter.file_exists] *)
Definition save_code (task_id : nat) (code : string) (w : world) : world :=
  set_solutions (<[task_id := code]> (solutions w)) w.

Definition file_exists (task_id : nat) (w : world) : bool :=
  bool_decide (is_Some (solutions w !! task_id)).

(** A task file of the data directory: the number in its name and what
    [load_task] gives for it (an exception when it cannot be read). *)
Record task_file : Type := mk_task_file {
  file_task_id : nat;
  file_contents : res task_data
}.

(** The two ways the body of a [for] loop hands control back. *)
Inductive control : Type :=
| Continue
| Break.

Section Orchestrator.

Variable ast_parse : string -> parse_result.
Variable python_exec : string -> load_result.
Variable json_dumps : list example -> string.
(** The generation service: its answer to the [k]-th request (counting from
    0) carrying the given prompt, or the exception it raises. *)
Variable llm : nat -> string -> res string.

Variable max_api_calls : nat.
Variable retry_on_failure : bool.
Variable max_retries : nat.

(** [LLMCodeGenerator.generate] *)
Definition generate (prompt : string) (w : world) : world * res string :=
  let w1 := set_requests (requests w ++ [prompt]) w in
  match llm (length (requests w)) prompt with
  | Ret raw_output => (set_api_calls (S (api_calls w1)) w1, Ret raw_output)
  | Exc msg => (w1, Exc msg)
  end.

(** The locals [previous_code], [previous_error] and [success] of the
    attempt loop. *)
Record locals : Type := mk_locals {
  previous_code : option string;
  previous_error : option string;
  succeeded : bool
}.

Definition retry_or_break (attempt : nat) : control :=
  if retry_on_failure && Nat.ltb attempt max_retries then Continue else Break.

(** The [except Exception as e] arm of the attempt. *)
Definition on_exception (task_id attempt : nat) (msg : string)
    (v : locals) (w : world) : world * locals * control :=
  let w := bump incr_exception w in
  let v := mk_locals (previous_code v) (Some ("Exception: " +:+ msg))
             (succeeded v) in
  let w := log task_id "exception" 0 false msg w in
  (w, v, retry_or_break attempt).

(** The prompt of an attempt. *)
Definition attempt_prompt (task_id attempt : nat)
    (train_examples test_examples : list example) (v : locals) : string :=
  match attempt with
  | O => build_prompt json_dumps task_id train_examples test_examples
           None None
  | S _ => build_prompt json_dumps task_id train_examples test_examples
             (previous_code v) (previous_error v)
  end.

(** One pass through the body of [for attempt in range(max_retries + 1)];
    [None] when validation does not return to it. *)
Definition attempt_body (task_id : nat) (task : task_data)
    (train_examples test_examples : list example)
    (attempt : nat) (v : locals) (w : world)
  : option (world * locals * control) :=
  let prompt := attempt_prompt task_id attempt train_examples test_examples v in
  match generate prompt w with
  | (w, Exc msg) => Some (on_exception task_id attempt msg v w)
  | (w, Ret raw_output) =>
      let code := extract_code raw_output in
      match is_syntax_valid ast_parse code with
      | Exc msg => Some (on_exception task_id attempt msg v w)
      | Ret false =>
          let w := bump incr_syntax_error w in
          let w := log task_id "syntax_error" (len code) false "" w in
          let v := mk_locals (Some code)
                     (Some "Syntax error: Code has invalid Python syntax")
                     (succeeded v) in
          Some (w, v, retry_or_break attempt)
      | Ret true =>
          match passes_training_examples python_exec task code with
          | None => None
          | Some (true, message) =>
              let w := save_code task_id code w in
              let w := log task_id "validated_success" (len code)
                         true
                         ("api_calls=" +:+ pretty (api_calls w)
                            +:+ ",attempt=" +:+ pretty (attempt + 1)) w in
              let w := bump incr_success w in
              let v := mk_locals (previous_code v) (previous_error v) true in
              Some (w, v, Break)
          | Some (false, message) =>
              let w := bump incr_validation_failed w in
              let w := set_failed_files
                         (<[(task_id, attempt + 1) := code]> (failed_files w))
                         w in
              let v := mk_locals (Some code) (Some message) (succeeded v) in
              let w := log task_id "failed_validation" (len code)
                         false message w in
              Some (w, v, retry_or_break attempt)
          end
      end
  end.

(** The attempt loop over the values [attempts] of [range]. *)
Fixpoint attempt_loop (task_id : nat) (task : task_data)
    (train_examples test_examples : list example)
    (attempts : list nat) (v : locals) (w : world)
  : option (world * locals) :=
  match attempts with
  | [] => Some (w, v)
  | attempt :: later =>
      match attempt_body task_id task train_examples test_examples
              attempt v w with
      | None => None
      | Some (w, v, Break) => Some (w, v)
      | Some (w, v, Continue) =>
          attempt_loop task_id task train_examples test_examples later v w
      end
  end.

(** Everything [run_pipeline] does for one task once it is loaded. *)
Definition solve_task (task_id : nat) (task : task_data) (w : world)
  : option (world * locals) :=
  let train_examples := default [] (task !! "train") in
  let test_examples := default [] (task !! "test") in
  attempt_loop task_id task train_examples test_examples
    (seq 0 (max_retries + 1)) (mk_locals None None false) w.

(** The body of the loop over the task files. *)
Definition process_task (t : task_file) (w : world)
  : option (world * control) :=
  if Nat.leb max_api_calls (api_calls w) then Some (w, Break)
  else
    let task_id := file_task_id t in
    if file_exists task_id w then Some (bump incr_skipped w, Continue)
    else
      match file_contents t with
      | Exc _ => Some (bump incr_exception w, Continue)
      | Ret task =>
          match solve_task task_id task w with
          | None => None
          | Some (w, _) => Some (w, Continue)
          end
      end.

Fixpoint run_tasks (tasks : list task_file) (w : world) : option world :=
  match tasks with
  | [] => Some w
  | t :: later =>
      match process_task t w with
      | None => None
      | Some (w, Break) => Some w
      | Some (w, Continue) => run_tasks later w
      end
  end.

Definition empty_stats : stats := mk_stats 0 0 0 0 0.

(** [run_pipeline]: [existing] are the solution files found in the output
    directory when the run starts. *)
Definition run_pipeline (task_paths : list task_file)
    (existing : gmap nat string) : option world :=
  run_tasks (take max_api_calls task_paths)
    (mk_world 0 [] existing ∅ [] empty_stats).

End Orchestrator.

End Pipeline.

(** ** The progress log read back *)

Module ProgressTracker.

Import Text Pipeline.

(** The header row that [__init__] writes when it creates the log file. *)
Definition header : list string :=
  ["timestamp"; "task_id"; "status"; "code_length"; "validation_passed";
   "api_calls"; "details"].

(** [str(b)] for a Boolean *)
Definition py_bool (b : bool) : string := if b then "True" else "False".

(** The fields that [log] writes for one row; [timestamp] is what
    [datetime.now().isoformat()] returns at that moment. *)
Definition fields (timestamp : string) (row : log_row) : list string :=
  [timestamp; pretty (row_task_id row); row_status row;
   pretty (row_code_length row); py_bool (row_validation_passed row);
   row_details row].

(** The rows of a log written at the times [clock k], [clock (k + 1)],
    ... *)
Fixpoint csv_rows (clock : nat -> string) (k : nat) (rows : list log_row)
  : list (list string) :=
  match rows with
  | [] => []
  | row :: later => fields (clock k) row :: csv_rows clock (S k) later
  end.

(** One row as [csv.DictReader] gives it: the names of the header paired
    with the fields in order, a later pair overriding an earlier one of the
    same name, and [None] for the names that are left without a field.
    (Fields beyond the last name go under the key [None] and are left
    out.) *)
Definition dict_reader (names values : list string)
  : gmap string (option string) :=
  let padded :=
    map Some values ++ replicate (length names - length values) None in
  foldl (fun d kv => <[fst kv := snd kv]> d) ∅ (zip names padded).

(** [s.lower()] on ASCII letters *)
Definition lower_char (c : ascii) : ascii :=
  let n := nat_of_ascii c in
  if Nat.leb 65 n && Nat.leb n 90 then ascii_of_nat (n + 32) else c.

Fixpoint lower (s : string) : string :=
  match s with
  | "" => ""
  | String c s' => String (lower_char c) (lower s')
  end.

(** The [stats] dict of [get_stats]. *)
Record log_stats : Type := mk_log_stats {
  total : nat;
  success : nat;
  failed_syntax : nat;
  failed_validation : nat;
  failed_exception : nat
}.

(** The body of the loop over the rows, given the status of the row. *)
Definition count_status (st : log_stats) (status : string) : log_stats :=
  let st := mk_log_stats (S (total st)) (success st) (failed_syntax st)
              (failed_validation st) (failed_exception st) in
  if contains "success" (lower status) then
    mk_log_stats (total st) (S (success st)) (failed_syntax st)
      (failed_validation st) (failed_exception st)
  else if contains "syntax_error" (lower status) then
    mk_log_stats (total st) (success st) (S (failed_syntax st))
      (failed_validation st) (failed_exception st)
  else if contains "validation" (lower status)
          && contains "fail" (lower status) then
    mk_log_stats (total st) (success st) (failed_syntax st)
      (S (failed_validation st)) (failed_exception st)
  else if contains "exception" (lower status) then
    mk_log_stats (total st) (success st) (failed_syntax st)
      (failed_validation st) (S (failed_exception st))
  else st.

(** The loop over the rows that the reader yields: it skips empty rows,
    and [row['status'].lower()] raises when the row has no third field. *)
Fixpoint count_rows (rows : list (list string)) (st : log_stats)
  : res log_stats :=
  match rows with
  | [] => Ret st
  | [] :: later => count_rows later st
  | row :: later =>
      match dict_reader header row !! "status" with
      | Some (Some status) => count_rows later (count_status st status)
      | _ => Exc "'NoneType' object has no attribute 'lower'"
      end
  end.

(** [get_stats()]: [log_file] is [None] when the log file does not exist,
    and otherwise holds the rows after the header; the result is [None]
    for the empty dict. *)
Definition get_stats (log_file : option (list (list string)))
  : res (option log_stats) :=
  match log_file with
  | None => Ret None
  | Some rows =>
      match count_rows rows (mk_log_stats 0 0 0 0 0) with
      | Ret st => Ret (Some st)
      | Exc msg => Exc msg
      end
  end.

End ProgressTracker.

(** ** File names and paths *)

Module Paths.

Import Text.

(** [sys.get_int_max_str_digits()], by default: converting between [int]
    and [str] raises [ValueError] beyond this number of digits. *)
Definition max_str_digits : nat := 4300.

Fixpoint zeros (k : nat) : string :=
  match k with
  | O => ""
  | S k' => String "0" (zeros k')
  end.

(** [f"{n:03d}"]: the sign, then the decimal digits padded with zeros to
    three characters in all. *)
Definition format_03d (n : Z) : res string :=
  let digits := pretty (Z.abs_N n) in
  let sign := if Z.ltb n 0 then "-" else "" in
  if Nat.ltb max_str_digits (String.length digits) then
    Exc "Exceeds the limit (4300 digits) for integer string conversion; use sys.set_int_max_str_digits() to increase the limit"
  else
    Ret (sign +:+ zeros (3 - String.length sign - String.length digits)
         +:+ digits).

Fixpoint ends_with_slash (s : string) : bool :=
  match s with
  | "" => false
  | String c "" => Ascii.eqb c "/"
  | String _ s' => ends_with_slash s'
  end.

(** [os.path.join(a, b)] of [posixpath] *)
Definition path_join (a b : string) : string :=
  if starts_with "/" b then b
  else if Nat.eqb (String.length a) 0 || ends_with_slash a then a +:+ b
  else a +:+ "/" +:+ b.

(** [\d] on ASCII: the digits 0-9.  Digits outside ASCII are not
    recognised. *)
Definition is_digit (c : ascii) : bool :=
  let n := nat_of_ascii c in
  Nat.leb 48 n && Nat.leb n 57.

(** The longest prefix of digits, and what follows it. *)
Fixpoint digits_prefix (s : string) : string * string :=
  match s with
  | "" => ("", "")
  | String c s' =>
      if is_digit c
      then let (digits, rest) := digits_prefix s' in (String c digits, rest)
      else ("", s)
  end.

(** [int(s)] for a string of decimal digits *)
Fixpoint parse_from (acc : N) (s : string) : N :=
  match s with
  | "" => acc
  | String c s' =>
      parse_from (10 * acc + (N.of_nat (nat_of_ascii c) - 48))%N s'
  end.

Definition parse_int (s : string) : nat := N.to_nat (parse_from 0 s).

End Paths.

Module TaskManager.

Import Text Paths.

(** The path that [get_task_paths] builds for the task [tid]. *)
Definition task_path (data_dir : string) (tid : Z) : res string :=
  match format_03d tid with
  | Ret number => Ret (path_join data_dir ("task" +:+ number +:+ ".json"))
  | Exc msg => Exc msg
  end.

(** The loop of [get_task_paths] over the task numbers [tids]; [exists_]
    is [os.path.exists]. *)
Fixpoint collect_paths (data_dir : string) (exists_ : string -> bool)
    (tids : list Z) (paths : list string) : res (list string) :=
  match tids with
  | [] => Ret paths
  | tid :: later =>
      match task_path data_dir tid with
      | Ret task_path =>
          collect_paths data_dir exists_ later
            (if exists_ task_path then paths ++ [task_path] else paths)
      | Exc msg => Exc msg
      end
  end.

(** [range(start, stop)] *)
Definition range (start stop : Z) : list Z :=
  map (fun k => (start + Z.of_nat k)%Z) (seq 0 (Z.to_nat (stop - start))).

Definition get_task_paths (data_dir : string) (start end_ : Z)
    (exists_ : string -> bool) : res (list string) :=
  collect_paths data_dir exists_ (range start (end_ + 1)) [].

(** A match of [task(\d+)\.json] at the start of [s]: the group.  The
    greedy [\d+] takes all the digits there are; giving some back cannot
    help, since a digit would then face the dot. *)
Definition task_number_at (s : string) : option string :=
  if starts_with "task" s then
    match digits_prefix (skip 4 s) with
    | ("", _) => None
    | (digits, rest) =>
        if starts_with ".json" rest then Some digits else None
    end
  else None.

(** [re.search(r'task(\d+)\.json', path)]: the group of the leftmost
    match. *)
Fixpoint search_task (path : string) : option string :=
  match task_number_at path with
  | Some digits => Some digits
  | None =>
      match path with
      | "" => None
      | String _ path' => search_task path'
      end
  end.

Definition get_task_num_from_path (path : string) : res nat :=
  match search_task path with
  | Some digits =>
      if Nat.ltb max_str_digits (String.length digits) then
        Exc ("Exceeds the limit (4300 digits) for integer string conversion: value has "
             +:+ pretty (String.length digits)
             +:+ " digits; use sys.set_int_max_str_digits() to increase the limit")
      else Ret (parse_int digits)
  | None => Exc ("Could not extract task number from path: " +:+ path)
  end.

End TaskManager.

Module FileWriter.

Import Text Paths.

(** The files of the file system, by path. *)
Definition files : Type := gmap string string.

Definition solution_path (output_dir : string) (task_id : nat)
  : res string :=
  match format_03d (Z.of_nat task_id) with
  | Ret number => Ret (path_join output_dir ("task" +:+ number +:+ ".py"))
  | Exc msg => Exc msg
  end.

(** [save_code]: the file system afterwards and the path returned. *)
Definition save_code (output_dir : string) (task_id : nat) (code : string)
    (fs : files) : res (files * string) :=
  match solution_path output_dir task_id with
  | Ret file_path => Ret (<[file_path := code]> fs, file_path)
  | Exc msg => Exc msg
  end.

Definition file_exists (output_dir : string) (task_id : nat) (fs : files)
  : res bool :=
  match solution_path output_dir task_id with
  | Ret file_path => Ret (bool_decide (is_Some (fs !! file_path)))
  | Exc msg => Exc msg
  end.

End FileWriter.

(** ** Vocabulary of the properties *)

(** The integers that the scalars and arrays of a value convert to, left
    to right. *)
Fixpoint elements (v : pyval) : list Z :=
  match v with
  | PList l =>
      (fix go (l : list pyval) : list Z :=
         match l with
         | [] => []
         | x :: l' => elements x ++ go l'
         end) l
  | PArray _ d => d
  | scalar =>
      match Numpy.to_int scalar with
      | Some z => [z]
      | None => []
      end
  end.

(** [int_array s v]: [v] converts to an integer array of shape [s]: it is
    a rectangular nesting of lists whose leaves are scalars that convert
    to 64-bit integers, or arrays of one shape (the empty shape is a
    single scalar, and the empty list has shape [0]). *)
Inductive int_array : list nat -> pyval -> Prop :=
| int_array_scalar v z :
    Numpy.to_int v = Some z -> Numpy.int64_ok z = true -> int_array [] v
| int_array_object s d :
    int_array s (PArray s d)
| int_array_empty :
    int_array [0%nat] (PList [])
| int_array_rows s x l :
    int_array s x -> Forall (int_array s) l ->
    int_array (S (length l) :: s) (PList (x :: l)).

(** Shape-sensitive elementwise integer equality: both values convert to
    integer arrays of one shape, and the integers agree position by
    position. *)
Definition grid_equal (result expected : pyval) : Prop :=
  exists s, int_array s result /\ int_array s expected /\
            elements result = elements expected.

(** The next call of the entry point, made on the input of the example,
    yields a grid equal to the expected output of the example. *)
Definition example_passes (program : entry) (ex : example) : Prop :=
  exists input_grid expected result,
    ex !! "input" = Some input_grid /\
    ex !! "output" = Some expected /\
    call program input_grid = Returns result /\
    grid_equal result expected.

(** An instance of [Exception] is raised (and caught) while the example is
    scored: a key of the example is missing, the entry point raises, or
    numpy cannot convert the returned or the expected value to an integer
    array. *)
Inductive scoring_raises (program : entry) (ex : example) : Prop :=
| raises_no_input :
    ex !! "input" = None -> scoring_raises program ex
| raises_no_output input_grid :
    ex !! "input" = Some input_grid -> ex !! "output" = None ->
    scoring_raises program ex
| raises_in_program input_grid expected msg :
    ex !! "input" = Some input_grid -> ex !! "output" = Some expected ->
    call program input_grid = Raises msg ->
    scoring_raises program ex
| raises_in_result input_grid expected result :
    ex !! "input" = Some input_grid -> ex !! "output" = Some expected ->
    call program input_grid = Returns result ->
    (forall s, ~ int_array s result) ->
    scoring_raises program ex
| raises_in_expected input_grid expected result :
    ex !! "input" = Some input_grid -> ex !! "output" = Some expected ->
    call program input_grid = Returns result ->
    (forall s, ~ int_array s expected) ->
    scoring_raises program ex.

(** The entry point is called on the example and never returns. *)
Definition example_hangs (program : entry) (ex : example) : Prop :=
  exists input_grid,
    ex !! "input" = Some input_grid /\
    is_Some (ex !! "output") /\
    call program input_grid = Hangs.

(** The entry point is called on the example and raises an exception
    outside [Exception]. *)
Definition example_escapes (program : entry) (ex : example) : Prop :=
  exists input_grid msg,
    ex !! "input" = Some input_grid /\
    is_Some (ex !! "output") /\
    call program input_grid = Escapes msg.

(** The entry point once the validator has scored [examples]. *)
Definition entry_after (program : entry) (examples : list example) : entry :=
  foldl CodeValidator.after_example program examples.

(** In a validation of [examples], the example at position [i], scored in
    its turn, has the property [P]. *)
Definition in_turn (P : entry -> example -> Prop) (program : entry)
    (examples : list example) (i : nat) : Prop :=
  exists ex,
    examples !! i = Some ex /\ P (entry_after program (take i examples)) ex.

(** Every training example passes in its turn. *)
Definition all_pass (program : entry) (examples : list example) : Prop :=
  forall i, i < length examples -> in_turn example_passes program examples i.

(** Every call of the entry point made in a validation of [examples]
    returns or raises an instance of [Exception]. *)
Definition calls_finish (program : entry) (examples : list example) : Prop :=
  forall i,
    ~ in_turn example_hangs program examples i
    /\ ~ in_turn example_escapes program examples i.

(** [count_passing program l k]: exactly [k] examples of [l] pass, each
    scored in its turn. *)
Inductive count_passing (program : entry) : list example -> nat -> Prop :=
| count_nil : count_passing program [] 0
| count_pass ex l k :
    example_passes program ex ->
    count_passing (CodeValidator.after_example program ex) l k ->
    count_passing program (ex :: l) (S k)
| count_fail ex l k :
    ~ example_passes program ex ->
    count_passing (CodeValidator.after_example program ex) l k ->
    count_passing program (ex :: l) k.

(** An entry point whose calls do not depend on the calls made before. *)
Definition stateless (program : entry) : Prop :=
  forall earlier input_grid,
    program earlier input_grid = program [] input_grid.

(** The trimmed content of a generic block with the word [python] at its
    start, and the whitespace after it, removed. *)
Definition without_python_tag (content : string) : string :=
  if Text.starts_with "python" content
  then Text.lstrip (Text.skip 6 content)
  else content.

(** No line of [s] other than the first begins with the word [python]. *)
Definition later_lines_quiet (s : string) : Prop :=
  forall before after,
    s = before +:+ Text.line_feed +:+ after ->
    Text.starts_with "python" after = false.

(** [quiet bol s]: no line of [s] begins with the word [python], the first
    line being exempt when [bol] is false. *)
Fixpoint quiet (bol : bool) (s : string) : bool :=
  match s with
  | "" => true
  | String c s' =>
      negb (bol && Text.starts_with "python" s) && quiet (Text.is_newline c) s'
  end.

(** What the extractor returns is the trimmed content of the block, or
    that content without some leading part. *)
Definition loses_only_a_prefix (content result : string) : Prop :=
  exists lead, Text.strip content = lead +:+ result.

(** The next call of the entry point returns a value on the example, both
    values convert to integer arrays, and they are not equal. *)
Definition example_fails (program : entry) (ex : example) : Prop :=
  exists input_grid expected result,
    ex !! "input" = Some input_grid /\
    ex !! "output" = Some expected /\
    call program input_grid = Returns result /\
    (exists s, int_array s result) /\ (exists s, int_array s expected) /\
    ~ grid_equal result expected.

(** [s.isascii()] *)
Fixpoint isascii (s : string) : bool :=
  match s with
  | "" => true
  | String c s' => Nat.ltb (nat_of_ascii c) 128 && isascii s'
  end.

(** A text with no whitespace at either end. *)
Definition trimmed (s : string) : Prop :=
  Text.lstrip s = s /\ Text.rstrip s = s.

(** ** Statements about the validator, the extractor and the orchestrator *)

Module Statements.

Import Text CodeValidator OutputParser PromptBuilder Pipeline.

(** The returned message carries the message of every exception that the
    entry point raised on a training example. *)
Definition message_preserves_fault (python_exec : string -> load_result)
    (task : task_data) (code : string) : Prop :=
  forall program i ex input_grid msg passed message,
    python_exec code = Loaded (Some (Callable program)) ->
    default [] (task !! "train") !! i = Some ex ->
    ex !! "input" = Some input_grid ->
    is_Some (ex !! "output") ->
    call (entry_after program (take i (default [] (task !! "train"))))
      input_grid = Raises msg ->
    passes_training_examples python_exec task code = Some (passed, message) ->
    Text.contains msg message = true.

(** Validation produces a verdict. *)
Definition validation_returns (python_exec : string -> load_result)
    (task : task_data) (code : string) : Prop :=
  is_Some (passes_training_examples python_exec task code).

(** Whatever exception a call of the entry point raises, the validator
    goes on to score the other examples and returns its verdict: only a
    call that never returns can keep it from doing so. *)
Definition every_exception_is_survived (python_exec : string -> load_result)
    (task : task_data) (code : string) : Prop :=
  forall program,
    python_exec code = Loaded (Some (Callable program)) ->
    (forall i, ~ in_turn example_hangs program
                   (default [] (task !! "train")) i) ->
    validation_returns python_exec task code.

(** Of the first generic block only a leading part is lost. *)
Definition generic_block_keeps_lines (raw_output : string) : Prop :=
  forall body,
    first_group "```python" raw_output = None ->
    first_group "```" raw_output = Some body ->
    loses_only_a_prefix body (extract_code raw_output).

(** The status logged for an accepted attempt. *)
Definition accepted_status : string := "validated_success".

(** A prompt built from the refinement template. *)
Definition is_refinement (prompt : string) : Prop :=
  exists code feedback train test,
    prompt = refinement_prompt code feedback train test.

Section Orchestrator.

Variable ast_parse : string -> parse_result.
Variable python_exec : string -> load_result.
Variable json_dumps : list example -> string.
Variable llm : nat -> string -> res string.
Variable retry_on_failure : bool.
Variable max_retries : nat.

Abbreviation solve_task :=
  (solve_task ast_parse python_exec json_dumps llm retry_on_failure
     max_retries).

(** How a failed attempt leaves the locals: either an exception was caught
    (the generation call failed, or the parser raised something other than
    a syntax error) and only the feedback changes, or a candidate was
    extracted and is recorded together with its feedback. *)
Inductive failed_attempt (task : task_data) (prompt : string) (w : world)
    (v v' : locals) : Prop :=
| failed_generation msg :
    llm (length (requests w)) prompt = Exc msg ->
    previous_code v' = previous_code v ->
    previous_error v' = Some ("Exception: " +:+ msg) ->
    failed_attempt task prompt w v v'
| failed_parser raw msg :
    llm (length (requests w)) prompt = Ret raw ->
    ast_parse (extract_code raw) = ParseOtherError msg ->
    previous_code v' = previous_code v ->
    previous_error v' = Some ("Exception: " +:+ msg) ->
    failed_attempt task prompt w v v'
| failed_syntax raw msg :
    llm (length (requests w)) prompt = Ret raw ->
    ast_parse (extract_code raw) = ParseSyntaxError msg ->
    previous_code v' = Some (extract_code raw) ->
    previous_error v' = Some "Syntax error: Code has invalid Python syntax" ->
    failed_attempt task prompt w v v'
| failed_examples raw message :
    llm (length (requests w)) prompt = Ret raw ->
    ast_parse (extract_code raw) = ParseOk ->
    passes_training_examples python_exec task (extract_code raw)
    = Some (false, message) ->
    previous_code v' = Some (extract_code raw) ->
    previous_error v' = Some message ->
    failed_attempt task prompt w v v'.

(** Every prompt sent for the task after the first one is a refinement
    prompt. *)
Definition later_prompts_are_refinements (task_id : nat) (task : task_data)
    (w : world) : Prop :=
  forall w' v' k prompt,
    solve_task task_id task w = Some (w', v') ->
    requests w' !! (length (requests w) + S k) = Some prompt ->
    is_refinement prompt.

(** No source longer than [max_length] is saved as the solution. *)
Definition long_sources_are_rejected (max_length : nat) (task_id : nat)
    (task : task_data) (w : world) : Prop :=
  forall w' v' code,
    solve_task task_id task w = Some (w', v') ->
    solutions w !! task_id = None ->
    solutions w' !! task_id = Some code ->
    len code <= max_length.

(** The answer of the service to the request number [k], carrying
    [prompt], is a candidate that parses and that the validator accepts
    for the task. *)
Definition accepted_at (task : task_data) (k : nat) (prompt : string)
  : Prop :=
  exists raw message,
    llm k prompt = Ret raw /\
    ast_parse (extract_code raw) = ParseOk /\
    passes_training_examples python_exec task (extract_code raw)
    = Some (true, message).

(** Validation returns a verdict for every candidate that the service can
    answer with and that parses. *)
Definition candidates_get_verdicts (task : task_data) : Prop :=
  forall k prompt raw,
    llm k prompt = Ret raw ->
    ast_parse (extract_code raw) = ParseOk ->
    is_Some (passes_training_examples python_exec task (extract_code raw)).

(** The attempt loop of the task terminates, after at most
    [max_retries + 1] generation calls. *)
Definition attempt_loop_terminates (task_id : nat) (task : task_data)
    (w : world) : Prop :=
  exists w' v' prompts,
    solve_task task_id task w = Some (w', v') /\
    requests w' = requests w ++ prompts /\
    length prompts <= max_retries + 1.

End Orchestrator.

End Statements.

(** ** Vocabulary of the further properties *)

Module MoreStatements.

Import Pipeline.

(** How many of the requests [prompts], sent as requests number [k],
    [k + 1], ..., the service answered. *)
Fixpoint answered (llm : nat -> string -> res string) (k : nat)
    (prompts : list string) : nat :=
  match prompts with
  | [] => 0
  | prompt :: later =>
      (match llm k prompt with Ret _ => 1 | Exc _ => 0 end)
      + answered llm (S k) later
  end.

(** The four ways an attempt ends, with the status it logs and the counter
    it increments. *)
Inductive attempt_end : Type :=
| EndSuccess
| EndSyntaxError
| EndFailedValidation
| EndException.

Definition status_of (e : attempt_end) : string :=
  match e with
  | EndSuccess => "validated_success"
  | EndSyntaxError => "syntax_error"
  | EndFailedValidation => "failed_validation"
  | EndException => "exception"
  end.

Definition counter_of (e : attempt_end) : stats -> stats :=
  match e with
  | EndSuccess => incr_success
  | EndSyntaxError => incr_syntax_error
  | EndFailedValidation => incr_validation_failed
  | EndException => incr_exception
  end.

End MoreStatements.

Module LogStatements.

Import Pipeline ProgressTracker.

(** The rows that [get_stats] puts in one of its four classes. *)
Definition classified (st : log_stats) : nat :=
  success st + failed_syntax st + failed_validation st + failed_exception st.

(** The statistics of a list of statuses, as the loop of [get_stats]
    computes them. *)
Definition count_statuses (statuses : list string) (st : log_stats)
  : log_stats :=
  foldl count_status st statuses.

(** The rows of the log are read back with their statuses. *)
Definition read_with_status (read : list string) (row : log_row) : Prop :=
  read !! 2 = Some (row_status row).

End LogStatements.

Module PathStatements.

Import Text Paths TaskManager FileWriter.

(** Strings of decimal digits, and strings in which a character occurs. *)
Fixpoint all_digits (s : string) : bool :=
  match s with
  | "" => true
  | String c s' => is_digit c && all_digits s'
  end.

Fixpoint has_char (c : ascii) (s : string) : bool :=
  match s with
  | "" => false
  | String d s' => Ascii.eqb c d || has_char c s'
  end.

(** Whether the file of the task [tid] is found by [get_task_paths]. *)
Definition task_found (data_dir : string) (exists_ : string -> bool)
    (tid : Z) : bool :=
  match task_path data_dir tid with
  | Ret path => exists_ path
  | Exc _ => false
  end.

(** Path-level view of the solutions: the file system holds, under the
    solution path of each task, what the map holds for the task. *)
Definition holds_solutions (output_dir : string) (fs : files)
    (solutions : gmap nat string) : Prop :=
  forall task_id path,
    solution_path output_dir task_id = Ret path ->
    fs !! path = solutions !! task_id.

End PathStatements.

(** ** Concrete candidates and tasks *)

Module Demo.

Definition nl : string := Text.line_feed.

Definition grid (rows : list (list Z)) : pyval :=
  PList (map (fun row => PList (map PInt row)) rows).

Definition make_example (input_grid expected : pyval) : example :=
  <["input" := input_grid]> (<["output" := expected]> ∅).

Definition make_task (train : list example) : task_data :=
  <["train" := train]> (<["test" := []]> ∅).

(** The task of the example scenario: one training pair. *)
Definition flip_task : task_data :=
  make_task [make_example (grid [[0; 1]; [1; 0]]) (grid [[1; 0]; [0; 1]])]%Z.

(** Two training pairs, both solved by reversing the rows. *)
Definition two_pair_task : task_data :=
  make_task [make_example (grid [[0; 1]; [1; 0]]) (grid [[1; 0]; [0; 1]]);
             make_example (grid [[2; 2]; [3; 3]]) (grid [[3; 3]; [2; 2]])]%Z.

Definition empty_task : task_data := make_task [].

(** One training pair whose output is its input. *)
Definition copy_task : task_data :=
  make_task [make_example (grid [[1; 2]]) (grid [[1; 2]])]%Z.

(** [def p(g): return g[::-1]] *)
Definition flip_source : string :=
  "def p(g):" +:+ nl +:+ "    return g[::-1]".
Definition flip_program : entry := fun _ g =>
  match g with
  | PList rows => Returns (PList (rev rows))
  | _ => Raises "object is not subscriptable"
  end.

(** [def p(g): return g] *)
Definition identity_source : string := "def p(g):return g".
Definition identity_program : entry := fun _ g => Returns g.

(** A candidate that raises on every input. *)
Definition boom_source : string :=
  "def p(g):" +:+ nl +:+ "    raise ValueError('boom')".
Definition boom_program : entry := fun _ g => Raises "boom".

(** A candidate that raises on grids whose first row starts with 0 and
    reverses the rows of every other grid (read at grids of integers). *)
Definition picky_source : string :=
  "def p(g):" +:+ nl +:+ "    assert g[0][0], 'boom'" +:+ nl
    +:+ "    return g[::-1]".
Definition picky_program : entry := fun earlier g =>
  match g with
  | PList (PList (cell :: _) :: _) =>
      match cell with
      | PInt 0 | PBool false | PList [] | PNone => Raises "boom"
      | _ => flip_program earlier g
      end
  | _ => Raises "object is not subscriptable or index out of range"
  end.

(** A candidate that never returns. *)
Definition loop_source : string :=
  "def p(g):" +:+ nl +:+ "    while True: pass".
Definition loop_program : entry := fun _ g => Hangs.

(** A candidate that leaves the interpreter. *)
Definition exit_source : string :=
  "def p(g):" +:+ nl +:+ "    raise SystemExit".
Definition exit_program : entry := fun _ g => Escapes "".

(** The floats of the candidate below: [x_1_9] is the double nearest to
    1.9, and [x_0_2] the double nearest to 0.2. *)
Definition x_1_9 : pyfloat := Finite 8556839292003942 (-52).
Definition x_0_2 : pyfloat := Finite 7205759403792794 (-55).
Definition x_0_0 : pyfloat := Finite 0 0.
Definition x_1_0 : pyfloat := Finite 1 0.

(** [def p(g):return[[1.9,.2],[0.,1.]]]: a candidate that returns floats. *)
Definition float_source : string := "def p(g):return[[1.9,.2],[0.,1.]]".
Definition float_program : entry := fun _ g =>
  Returns (PList [PList [PFloat x_1_9; PFloat x_0_2];
                  PList [PFloat x_0_0; PFloat x_1_0]]).

(** [import numpy as np] and [p=lambda g:np.eye(2)]: a candidate that
    returns an array of floats. *)
Definition eye_source : string :=
  "import numpy as np" +:+ nl +:+ "p=lambda g:np.eye(2)".
Definition eye_program : entry := fun _ g =>
  Returns (PArray [2; 2] [1; 0; 0; 1]%Z).

(** A candidate that keeps a counter in a global of its module: its first
    call reverses the rows, and every later call returns its argument. *)
Definition once_source : string :=
  "n=0" +:+ nl +:+ "def p(g):" +:+ nl +:+ "    global n" +:+ nl
    +:+ "    n+=1" +:+ nl +:+ "    return g[::-1] if n<2 else g".
Definition once_program : entry := fun earlier g =>
  match earlier with
  | [] => flip_program [] g
  | _ :: _ => Returns g
  end.

(** [def p(g):return g] followed by a comment that makes the source longer
    than the default maximum length. *)
Fixpoint repeat_char (c : ascii) (n : nat) : string :=
  match n with
  | O => ""
  | S n' => String c (repeat_char c n')
  end.
Definition long_source : string :=
  identity_source +:+ "#" +:+ repeat_char "x"%char (100 * 100).

(** What the Python interpreter does with the sources above.  The table
    is read only at these sources. *)
Definition demo_exec (code : string) : load_result :=
  if String.eqb code flip_source then Loaded (Some (Callable flip_program))
  else if String.eqb code identity_source
  then Loaded (Some (Callable identity_program))
  else if String.eqb code long_source
  then Loaded (Some (Callable identity_program))
  else if String.eqb code boom_source
  then Loaded (Some (Callable boom_program))
  else if String.eqb code picky_source
  then Loaded (Some (Callable picky_program))
  else if String.eqb code float_source
  then Loaded (Some (Callable float_program))
  else if String.eqb code once_source
  then Loaded (Some (Callable once_program))
  else Loaded None.

(** The same table with the candidate that never returns, and with the
    candidate that leaves the interpreter. *)
Definition hanging_exec (code : string) : load_result :=
  if String.eqb code loop_source then Loaded (Some (Callable loop_program))
  else demo_exec code.

Definition exiting_exec (code : string) : load_result :=
  if String.eqb code exit_source then Loaded (Some (Callable exit_program))
  else demo_exec code.

(** The parser on the sources above and on the empty source, which all
    parse.  The table is read only at these sources. *)
Definition demo_parse (code : string) : parse_result := ParseOk.

(** A stand-in for [json.dumps]: the prompts below do not depend on how
    the examples are rendered. *)
Definition demo_json (examples : list example) : string :=
  "<" +:+ pretty (length examples) +:+ " examples>".

(** A generation service that gives the listed answers in turn. *)
Definition scripted (answers : list (res string)) (k : nat) (prompt : string)
  : res string :=
  default (Exc "no more answers") (answers !! k).

Definition fresh_world : Pipeline.world :=
  Pipeline.mk_world 0 [] ∅ ∅ [] Pipeline.empty_stats.

(** The two training pairs of [two_pair_task]. *)
Definition pair_0 : example :=
  (make_example (grid [[0; 1]; [1; 0]]) (grid [[1; 0]; [0; 1]]))%Z.
Definition pair_1 : example :=
  (make_example (grid [[2; 2]; [3; 3]]) (grid [[3; 3]; [2; 2]]))%Z.

(** Three training pairs: the second pair of [two_pair_task], the first,
    and the second again. *)
Definition three_pair_task : task_data := make_task [pair_1; pair_0; pair_1].

(** A generic block whose second line begins with the word [python]. *)
Definition inner_line_raw : string :=
  Text.fence +:+ nl +:+ "x = 1" +:+ nl +:+ "python_ok = 2" +:+ nl +:+ Text.fence.

(** A generic block whose language tag is separated from the fence. *)
Definition spaced_tag_raw : string :=
  Text.fence +:+ " python" +:+ nl +:+ "def p(g):return g" +:+ nl +:+ Text.fence.

(** The service answers the first request with the row-reversing
    candidate of the example scenario. *)
Definition flip_llm : nat -> string -> res string :=
  scripted [Ret flip_source].

(** The first call fails, the second answer is empty, the third is the
    row-reversing candidate. *)
Definition flaky_llm : nat -> string -> res string :=
  scripted [Exc "rate limit"; Ret ""; Ret flip_source].

(** The first answer raises on the training example, the second is the
    row-reversing candidate. *)
Definition boom_llm : nat -> string -> res string :=
  scripted [Ret boom_source; Ret flip_source].

(** The service answers with the overlong candidate. *)
Definition long_llm : nat -> string -> res string :=
  scripted [Ret long_source].

(** The service answers with the candidate that never returns. *)
Definition loop_llm : nat -> string -> res string :=
  scripted [Ret loop_source].

Definition flip_train : list example := default [] (flip_task !! "train").
Definition copy_train : list example := default [] (copy_task !! "train").

Definition first_prompt : string :=
  PromptBuilder.initial_prompt (demo_json flip_train) "[]".

(** A world in which task 1 is already solved. *)
Definition solved_world : Pipeline.world :=
  Pipeline.mk_world 0 [] (<[1 := flip_source]> ∅) ∅ [] Pipeline.empty_stats.

End Demo.

(** ** Further concrete tasks, texts and files *)

Module MoreDemo.

Import Demo.

(** The training pairs of [two_pair_task] in the other order. *)
Definition swapped_task : task_data := make_task [pair_1; pair_0].

(** A reply with prose around a block tagged [python]. *)
Definition prose_before : string := "Here is the function:" +:+ nl.
Definition prose_after : string := nl +:+ "It reverses the rows.".

(** A reply with prose before the function and blank space after it. *)
Definition prose_def : string :=
  "Sure:" +:+ nl +:+ identity_source +:+ nl +:+ "  ".

(** One task file on disk, and the same with a second one. *)
Definition one_file : list Pipeline.task_file :=
  [Pipeline.mk_task_file 1 (Ret flip_task)].
Definition two_files : list Pipeline.task_file :=
  [Pipeline.mk_task_file 1 (Ret flip_task);
   Pipeline.mk_task_file 2 (Ret flip_task)].

(** The times at which the rows of a log are written. *)
Definition demo_clock (k : nat) : string :=
  "2025-10-01T12:00:0" +:+ pretty k.

(** Three rows as the reader yields them, the second from a blank line. *)
Definition demo_rows : list (list string) :=
  [["2025-10-01T12:00:00"; "1"; "validated_success"; "17"; "True";
    "api_calls=1,attempt=1"];
   [];
   ["2025-10-01T12:00:03"; "2"; "exception"; "0"; "False"; "rate limit"]].

(** A data directory in which the files of tasks 2 and 3 exist. *)
Definition demo_exists (path : string) : bool :=
  String.eqb path "data/task002.json" || String.eqb path "data/task003.json".

(** A data directory whose name looks like a task file. *)
Definition misleading_dir : string := "runs/task12.json.d".

End MoreDemo.

(** ** Facts about the numpy model *)

Module NumpyFacts.

Import Numpy.

Lemma pyval_ind' (P : pyval -> Prop)
    (HScalar : forall v, is_list v = false -> P v)
    (HList : forall l, Forall P l -> P (PList l)) :
  forall v, P v.
Proof.
  apply (pyval_rect' P (Forall P)); auto.
Qed.

Lemma np_array_list l :
  np_array (PList l) =
  match np_items l with Some items => stack items | None => None end.
Proof. reflexivity. Qed.

Lemma np_array_leaf v : is_list v = false -> np_array v = leaf_array v.
Proof. destruct v; (reflexivity || discriminate). Qed.

Lemma elements_list l : elements (PList l) = concat (map elements l).
Proof.
  induction l as [|x l IH]; [reflexivity|].
  change (elements (PList (x :: l))) with (elements x ++ elements (PList l)).
  now rewrite IH.
Qed.

Lemma elements_scalar v z : to_int v = Some z -> elements v = [z].
Proof.
  intros H. destruct v; try discriminate; cbn [elements]; now rewrite H.
Qed.

Lemma leaf_array_scalar v z :
  to_int v = Some z -> leaf_array v = scalar_array v.
Proof. destruct v; (reflexivity || discriminate). Qed.

Lemma leaf_array_sound v a :
  is_list v = false ->
  leaf_array v = Some a ->
  (exists z, to_int v = Some z /\ int64_ok z = true /\ a = mk_ndarray [] [z])
  \/ v = PArray (shape a) (data a).
Proof.
  intros Hv Ha. destruct v as [z|b|f| |l|s d|o]; try discriminate Hv;
    [left|left|left|left|right|left].
  all: try (unfold leaf_array, scalar_array in Ha;
            match type of Ha with
            | match ?t with _ => _ end = _ => destruct t as [z'|] eqn:Hz
            end; [|discriminate];
            destruct (int64_ok z') eqn:Hok; [|discriminate];
            injection Ha as <-; now exists z').
  injection Ha as <-. reflexivity.
Qed.

Lemma shape_eqb_eq s t : shape_eqb s t = true <-> s = t.
Proof. unfold shape_eqb. apply bool_decide_eq_true. Qed.

Lemma np_items_Forall2 (R : pyval -> ndarray -> Prop) l :
  Forall (fun v => forall a, np_array v = Some a -> R v a) l ->
  forall items, np_items l = Some items -> Forall2 R l items.
Proof.
  induction 1 as [|x l Hx _ IH]; intros items Hit; simpl in Hit.
  - injection Hit as <-. constructor.
  - destruct (np_array x) as [a|] eqn:Ha; [|discriminate].
    destruct (np_items l) as [r|] eqn:Hr; [|discriminate].
    injection Hit as <-. constructor; auto.
Qed.

(** What a successful conversion returns. *)
Lemma np_array_sound v :
  forall a, np_array v = Some a ->
            int_array (shape a) v /\ data a = elements v.
Proof.
  induction v as [v Hv|l IH] using pyval_ind'; intros a Ha.
  - rewrite np_array_leaf in Ha by assumption.
    destruct (leaf_array_sound v a Hv Ha) as [(z & Hz & Hok & ->)| ->].
    + rewrite (elements_scalar v z Hz).
      split; [now apply int_array_scalar with z|reflexivity].
    + split; [constructor|reflexivity].
  - rewrite np_array_list in Ha.
    destruct (np_items l) as [items|] eqn:Hit; [|discriminate].
    pose proof (np_items_Forall2 _ l IH items Hit) as HF.
    destruct HF as [|x b l items' [Hxs Hxd] HF]; simpl in Ha.
    + injection Ha as <-. split; constructor.
    + destruct (shape_eqb (shape b) (shape b)
                && forallb (fun c => shape_eqb (shape c) (shape b)) items')
        eqn:Hall; [|discriminate].
      injection Ha as <-. cbn [shape data].
      apply andb_true_iff in Hall as [_ Hall].
      rewrite forallb_forall in Hall.
      assert (Hrows : Forall (int_array (shape b)) l /\
                      concat (map data items') = concat (map elements l)).
      { clear -HF Hall. induction HF as [|y c l items' [Hys Hyd] _ IH'].
        - split; constructor.
        - destruct IH' as [IH1 IH2].
          { intros d Hd. apply Hall. now right. }
          split.
          + constructor; [|exact IH1].
            rewrite <- (proj1 (shape_eqb_eq _ _) (Hall c (or_introl eq_refl))).
            exact Hys.
          + simpl. now rewrite Hyd, IH2. }
      destruct Hrows as [Hrows Hdata]. split.
      * rewrite <- (Forall2_length _ _ _ HF). now constructor.
      * rewrite elements_list. simpl. now rewrite Hxd, Hdata.
Qed.

(** Every value that converts to an integer array is converted, to its
    shape and its integers. *)
Lemma np_array_complete v :
  forall s, int_array s v -> np_array v = Some (mk_ndarray s (elements v)).
Proof.
  induction v as [v Hv|l IH] using pyval_ind'; intros s Hs.
  - inversion Hs as [v' z Hz Hok | s' d | | s' x l' Hx Hl]; subst;
      try discriminate; [|reflexivity].
    rewrite np_array_leaf, (leaf_array_scalar v z Hz),
      (elements_scalar v z Hz) by assumption.
    unfold scalar_array. now rewrite Hz, Hok.
  - inversion Hs as [v' z Hz Hok | s' d | | s' x l' Hx Hl]; subst.
    + discriminate.
    + reflexivity.
    + assert (Hit : forall m, Forall (fun v => forall s, int_array s v ->
                      np_array v = Some (mk_ndarray s (elements v))) m ->
                  Forall (int_array s') m ->
                  np_items m =
                  Some (map (fun v => mk_ndarray s' (elements v)) m)).
      { induction m as [|y m IHm]; intros HA HB; [reflexivity|].
        inversion HA as [|? ? Hy HA']; subst.
        inversion HB as [|? ? Hys HB']; subst.
        cbn [np_items map]. fold np_items.
        rewrite (Hy s' Hys), (IHm HA' HB'). reflexivity. }
      rewrite np_array_list, (Hit (x :: l') IH); [|now constructor].
      cbn [map stack forallb shape].
      rewrite (proj2 (shape_eqb_eq s' s') eq_refl).
      assert (Hall : forallb (fun c => shape_eqb (shape c) s')
                       (map (fun v => mk_ndarray s' (elements v)) l') = true).
      { apply forallb_forall. intros c Hc.
        apply in_map_iff in Hc as [v [<- _]]. now apply shape_eqb_eq. }
      rewrite Hall. cbn [andb length]. rewrite length_map, elements_list.
      do 2 f_equal. cbn [map concat data]. f_equal.
      rewrite map_map. reflexivity.
Qed.

(** The comparison of the validator decides [grid_equal]. *)
Lemma array_equal_grid_equal result expected :
  (exists a b, np_array result = Some a /\ np_array expected = Some b /\
               array_equal a b = true)
  <-> grid_equal result expected.
Proof.
  split.
  - intros (a & b & Ha & Hb & Heq).
    apply np_array_sound in Ha as [Has Had], Hb as [Hbs Hbd].
    unfold array_equal in Heq. apply andb_true_iff in Heq as [Hs Hd].
    apply shape_eqb_eq in Hs. apply bool_decide_eq_true in Hd.
    exists (shape a). rewrite Hs at 2. repeat split; auto. congruence.
  - intros (s & Hr & He & Hel).
    exists (mk_ndarray s (elements result)), (mk_ndarray s (elements expected)).
    repeat split; try now apply np_array_complete.
    unfold array_equal. simpl. apply andb_true_iff. split.
    + now apply shape_eqb_eq.
    + now apply bool_decide_eq_true.
Qed.

End NumpyFacts.

(** ** Facts about the validator *)

Module ValidatorFacts.

Import CodeValidator NumpyFacts.

Lemma np_array_None v :
  Numpy.np_array v = None <-> forall s, ~ int_array s v.
Proof.
  split.
  - intros Hn s Hs. apply np_array_complete in Hs. congruence.
  - intros Hn. destruct (Numpy.np_array v) as [a|] eqn:Ha; [|reflexivity].
    apply np_array_sound in Ha as [Ha _]. now apply Hn in Ha.
Qed.

Lemma run_example_pass program ex :
  run_example program ex = ExPass <-> example_passes program ex.
Proof.
  unfold run_example, example_passes. split.
  - destruct (ex !! "input") as [i|]; [|discriminate].
    destruct (ex !! "output") as [e|]; [|discriminate].
    destruct (call program i) as [r|msg|msg|] eqn:Hp; try discriminate.
    destruct (Numpy.np_array r) as [a|] eqn:Ha; [|discriminate].
    destruct (Numpy.np_array e) as [b|] eqn:Hb; [|discriminate].
    destruct (Numpy.array_equal a b) eqn:Hab; [|discriminate].
    intros _. exists i, e, r. do 2 (split; [reflexivity|]).
    split; [exact Hp|].
    apply array_equal_grid_equal. eauto.
  - intros (i & e & r & -> & -> & -> & Hg).
    apply array_equal_grid_equal in Hg as (a & b & -> & -> & ->).
    reflexivity.
Qed.

Lemma run_example_caught program ex :
  (exists msg, run_example program ex = ExCaught msg)
  <-> scoring_raises program ex.
Proof.
  unfold run_example. split.
  - intros [m Hm].
    destruct (ex !! "input") as [i|] eqn:Hi; [|now apply raises_no_input].
    destruct (ex !! "output") as [e|] eqn:He;
      [|now apply raises_no_output with i].
    destruct (call program i) as [r|msg|msg|] eqn:Hp; try discriminate;
      [|now apply raises_in_program with i e msg].
    destruct (Numpy.np_array r) as [a|] eqn:Ha.
    + destruct (Numpy.np_array e) as [b|] eqn:Hb.
      * destruct (Numpy.array_equal a b); discriminate.
      * apply raises_in_expected with i e r; auto. now apply np_array_None.
    + apply raises_in_result with i e r; auto. now apply np_array_None.
  - intros [Hi|i Hi He|i e msg Hi He Hp|i e r Hi He Hp Hr|i e r Hi He Hp Hr].
    + rewrite Hi. eauto.
    + rewrite Hi, He. eauto.
    + rewrite Hi, He, Hp. eauto.
    + rewrite Hi, He, Hp. apply np_array_None in Hr. rewrite Hr. eauto.
    + rewrite Hi, He, Hp. apply np_array_None in Hr. rewrite Hr.
      destruct (Numpy.np_array r); eauto.
Qed.

Lemma run_example_mismatch program ex :
  run_example program ex = ExMismatch <-> example_fails program ex.
Proof.
  unfold run_example, example_fails. split.
  - destruct (ex !! "input") as [i|]; [|discriminate].
    destruct (ex !! "output") as [e|]; [|discriminate].
    destruct (call program i) as [r|msg|msg|] eqn:Hp; try discriminate.
    destruct (Numpy.np_array r) as [a|] eqn:Ha; [|discriminate].
    destruct (Numpy.np_array e) as [b|] eqn:Hb; [|discriminate].
    destruct (Numpy.array_equal a b) eqn:Hab; [discriminate|].
    intros _. exists i, e, r. do 2 (split; [reflexivity|]).
    split; [exact Hp|].
    split; [exists (Numpy.shape a); now apply np_array_sound in Ha|].
    split; [exists (Numpy.shape b); now apply np_array_sound in Hb|].
    intros Hg. apply array_equal_grid_equal in Hg as (a' & b' & Ha' & Hb' & He).
    congruence.
  - intros (i & e & r & -> & -> & -> & [sr Hr] & [se He] & Hne).
    rewrite (np_array_complete _ _ Hr), (np_array_complete _ _ He).
    destruct (Numpy.array_equal _ _) eqn:Hab; [|reflexivity].
    exfalso. apply Hne. apply array_equal_grid_equal.
    rewrite (np_array_complete _ _ Hr), (np_array_complete _ _ He). eauto.
Qed.

Lemma run_example_hang program ex :
  run_example program ex = ExHang <-> example_hangs program ex.
Proof.
  unfold run_example, example_hangs. split.
  - destruct (ex !! "input") as [i|]; [|discriminate].
    destruct (ex !! "output") as [e|] eqn:He; [|discriminate].
    destruct (call program i) as [r|msg|msg|] eqn:Hp.
    + destruct (Numpy.np_array r); [|discriminate].
      destruct (Numpy.np_array e); [|discriminate].
      destruct (Numpy.array_equal _ _); discriminate.
    + discriminate.
    + discriminate.
    + intros _. exists i. split; [reflexivity|]. split; [eauto|exact Hp].
  - intros (i & -> & [e ->] & ->). reflexivity.
Qed.

Lemma run_example_escape program ex :
  (exists msg, run_example program ex = ExEscape msg)
  <-> example_escapes program ex.
Proof.
  unfold run_example, example_escapes. split.
  - intros [m Hm].
    destruct (ex !! "input") as [i|]; [|discriminate].
    destruct (ex !! "output") as [e|] eqn:He; [|discriminate].
    destruct (call program i) as [r|msg|msg|] eqn:Hp.
    + destruct (Numpy.np_array r); [|discriminate].
      destruct (Numpy.np_array e); [|discriminate].
      destruct (Numpy.array_equal _ _); discriminate.
    + discriminate.
    + exists i, msg. split; [reflexivity|]. split; [eauto|exact Hp].
    + discriminate.
  - intros (i & msg & -> & [e ->] & ->). eauto.
Qed.

(** An example is scored in one of five ways. *)
Lemma run_example_cases program ex :
  example_passes program ex \/ example_fails program ex
  \/ scoring_raises program ex \/ example_hangs program ex
  \/ example_escapes program ex.
Proof.
  destruct (run_example program ex) as [| |msg|msg|] eqn:H.
  - left. now apply run_example_pass.
  - right; left. now apply run_example_mismatch.
  - right; right; left. apply run_example_caught. eauto.
  - right; right; right; right. apply run_example_escape. eauto.
  - right; right; right; left. now apply run_example_hang.
Qed.

(** Scoring in turn: the first example, and the later ones. *)
Lemma entry_after_cons program ex l :
  entry_after program (ex :: l) = entry_after (after_example program ex) l.
Proof. reflexivity. Qed.

Lemma entry_after_app program l1 l2 :
  entry_after program (l1 ++ l2) = entry_after (entry_after program l1) l2.
Proof. unfold entry_after. apply foldl_app. Qed.

Lemma in_turn_0 P program ex l : in_turn P program (ex :: l) 0 <-> P program ex.
Proof.
  unfold in_turn. cbn. split.
  - intros (ex' & H & HP). now injection H as <-.
  - intros HP. eauto.
Qed.

Lemma in_turn_S P program ex l i :
  in_turn P program (ex :: l) (S i)
  <-> in_turn P (after_example program ex) l i.
Proof. reflexivity. Qed.

Lemma in_turn_app P program l1 l2 i :
  in_turn P program (l1 ++ l2) (length l1 + i)
  <-> in_turn P (entry_after program l1) l2 i.
Proof.
  revert program. induction l1 as [|ex l1 IH]; intros program; [reflexivity|].
  cbn [length app Nat.add]. rewrite in_turn_S, IH. reflexivity.
Qed.

Lemma all_pass_cons program ex l :
  all_pass program (ex :: l)
  <-> example_passes program ex /\ all_pass (after_example program ex) l.
Proof.
  unfold all_pass. split.
  - intros H. split.
    + apply (in_turn_0 example_passes program ex l). apply H. simpl. lia.
    + intros i Hi. apply (H (S i)). simpl. lia.
  - intros [H0 H] [|i] Hi.
    + now apply in_turn_0.
    + apply (H i). simpl in Hi. lia.
Qed.

Lemma in_turn_lt P program l i : in_turn P program l i -> i < length l.
Proof. intros (ex & H & _). now apply lookup_lt_Some in H. Qed.

Lemma calls_finish_cons program ex l :
  calls_finish program (ex :: l)
  <-> (~ example_hangs program ex /\ ~ example_escapes program ex)
      /\ calls_finish (after_example program ex) l.
Proof.
  unfold calls_finish. split.
  - intros H. split.
    + destruct (H 0) as [Hh He]. rewrite !in_turn_0 in *. auto.
    + intros i. destruct (H (S i)) as [Hh He]. rewrite !in_turn_S in *. auto.
  - intros [[Hh He] H] [|i].
    + now rewrite !in_turn_0.
    + rewrite !in_turn_S. apply H.
Qed.

(** A stateless entry point is the same at every turn. *)
Lemma entry_after_stateless l :
  forall program,
    stateless program ->
    forall earlier input_grid,
      entry_after program l earlier input_grid = program [] input_grid.
Proof.
  induction l as [|ex l IH]; intros program Hp earlier input_grid.
  - apply Hp.
  - rewrite entry_after_cons.
    assert (Hstep : forall e i, after_example program ex e i = program [] i).
    { intros e i. unfold after_example, advance.
      destruct (ex !! "input"); [destruct (ex !! "output")|]; apply Hp. }
    rewrite IH; [apply Hstep|].
    intros e i. now rewrite !Hstep.
Qed.

Lemma call_after_stateless program l input_grid :
  stateless program ->
  call (entry_after program l) input_grid = call program input_grid.
Proof. intros Hp. unfold call. now apply entry_after_stateless. Qed.

(** The tally only grows, by at most one per example. *)
Lemma score_examples_bounds l :
  forall program n k, score_examples program l n = Some k ->
                      n <= k /\ k <= n + length l.
Proof.
  induction l as [|ex l IH]; intros program n k Hk; simpl in Hk.
  - injection Hk as <-. simpl. lia.
  - simpl. destruct (run_example program ex);
      try discriminate; apply IH in Hk; lia.
Qed.

(** The tally reaches the number of examples exactly when all pass. *)
Lemma score_examples_full l :
  forall program n, score_examples program l n = Some (n + length l)
                    <-> all_pass program l.
Proof.
  induction l as [|ex l IH]; intros program n.
  - simpl. rewrite Nat.add_0_r. split; [|reflexivity].
    intros _ i Hi. simpl in Hi. lia.
  - rewrite all_pass_cons. cbn [score_examples length].
    destruct (run_example program ex) eqn:Hex.
    + replace (n + S (length l)) with (S n + length l) by lia.
      rewrite IH. split.
      * intros Hl. split; [now apply run_example_pass | exact Hl].
      * now intros [_ Hl].
    + split.
      * intros Hk. apply score_examples_bounds in Hk. lia.
      * intros [Hp _]. apply run_example_pass in Hp. congruence.
    + split.
      * intros Hk. apply score_examples_bounds in Hk. lia.
      * intros [Hp _]. apply run_example_pass in Hp. congruence.
    + split; [discriminate|].
      intros [Hp _]. apply run_example_pass in Hp. congruence.
    + split; [discriminate|].
      intros [Hp _]. apply run_example_pass in Hp. congruence.
Qed.

(** The loop is left normally exactly when every call returns or raises
    an instance of [Exception]. *)
Lemma score_examples_returns l :
  forall program n, is_Some (score_examples program l n)
                    <-> calls_finish program l.
Proof.
  induction l as [|ex l IH]; intros program n.
  - simpl. split; [|eauto].
    intros _ i. split; intros H; apply in_turn_lt in H; simpl in H; lia.
  - rewrite calls_finish_cons. cbn [score_examples].
    rewrite <- run_example_hang, <- run_example_escape.
    destruct (run_example program ex) eqn:Hex; rewrite ?IH;
      try (split; [ intros H; split; [split; [discriminate|]|exact H];
                    intros [m Hm]; discriminate
                  | now intros [_ H] ]).
    + split; [intros [x Hx]; discriminate|].
      intros [[_ He] _]. exfalso. apply He. eauto.
    + split; [intros [x Hx]; discriminate|].
      intros [[Hh _] _]. now exfalso.
Qed.

(** The tally is the number of passing examples. *)
Lemma score_examples_count l :
  forall program n k, score_examples program l n = Some k ->
                      exists j, k = n + j /\ count_passing program l j.
Proof.
  induction l as [|ex l IH]; intros program n k Hk; simpl in Hk.
  - injection Hk as <-. exists 0. split; [lia | constructor].
  - destruct (run_example program ex) eqn:Hex; try discriminate;
      apply IH in Hk as (j & -> & Hj).
    + exists (S j). split; [lia|].
      apply count_pass; [now apply run_example_pass | exact Hj].
    + exists j. split; [lia|]. apply count_fail; [|exact Hj].
      intros Hp. apply run_example_pass in Hp. congruence.
    + exists j. split; [lia|]. apply count_fail; [|exact Hj].
      intros Hp. apply run_example_pass in Hp. congruence.
Qed.

Lemma count_passing_le program l k :
  count_passing program l k -> k <= length l.
Proof. induction 1; simpl; lia. Qed.

(** The number of passing examples is determined. *)
Lemma count_passing_fun l :
  forall program j k,
    count_passing program l j -> count_passing program l k -> j = k.
Proof.
  induction l as [|ex l IH]; intros program j k Hj Hk;
    inversion Hj as [|? ? j' Hp Hc|? ? j' Hp Hc]; subst;
    inversion Hk as [|? ? k' Hp' Hc'|? ? k' Hp' Hc']; subst;
    try reflexivity; try contradiction.
  - f_equal. eapply IH; eauto.
  - eapply IH; eauto.
Qed.

(** Counting over a concatenation: the second part is scored by the entry
    point that the first part leaves. *)
Lemma count_passing_app l1 :
  forall program l2 k,
    count_passing program (l1 ++ l2) k ->
    exists k1 k2,
      k = k1 + k2 /\ count_passing program l1 k1
      /\ count_passing (entry_after program l1) l2 k2.
Proof.
  induction l1 as [|ex l1 IH]; intros program l2 k H.
  - exists 0, k. split_and!; [reflexivity | constructor | exact H].
  - cbn [app] in H.
    inversion H as [|? ? j Hp Hc|? ? j Hp Hc]; subst;
      apply IH in Hc as (k1 & k2 & -> & H1 & H2).
    + exists (S k1), k2. split_and!; [reflexivity| |exact H2].
      now apply count_pass.
    + exists k1, k2. split_and!; [reflexivity| |exact H2].
      now apply count_fail.
Qed.

(** The verdict of a loaded candidate is [passed = true] exactly when all
    the training examples pass, each in its turn. *)
Lemma passed_iff_all_pass python_exec (task : task_data) code program :
  python_exec code = Loaded (Some (Callable program)) ->
  (exists message,
      passes_training_examples python_exec task code = Some (true, message))
  <-> all_pass program (default [] (task !! "train")).
Proof.
  intros Hload. unfold passes_training_examples. rewrite Hload.
  set (train := default [] (task !! "train")). split.
  - intros [message Hm].
    destruct (score_examples program train 0) as [k|] eqn:Hk; [|discriminate].
    injection Hm as Hp _. apply Nat.eqb_eq in Hp. subst k.
    now apply (score_examples_full train program 0).
  - intros Hall. apply (score_examples_full train program 0) in Hall.
    rewrite Hall. simpl. rewrite Nat.eqb_refl. eauto.
Qed.

(** The verdict of a loaded candidate whose calls all finish: the tally of
    the passing examples. *)
Lemma verdict_is_tally python_exec (task : task_data) code program :
  python_exec code = Loaded (Some (Callable program)) ->
  let train := default [] (task !! "train") in
  calls_finish program train ->
  exists k,
    count_passing program train k
    /\ passes_training_examples python_exec task code
       = Some (Nat.eqb k (length train), tally_message k (length train)).
Proof.
  intros Hload train Hfin. unfold passes_training_examples.
  rewrite Hload. fold train.
  apply (score_examples_returns train program 0) in Hfin as [k Hk].
  rewrite Hk. apply score_examples_count in Hk as (j & -> & Hj).
  exists j. split; [exact Hj | reflexivity].
Qed.

End ValidatorFacts.

(** ** Properties of the validator *)

Module ValidatorClaims.

Import CodeValidator Statements ValidatorFacts.

Section Claims.

Variable python_exec : string -> load_result.


(** An example on which an instance of [Exception] is raised does not
    pass. *)
Lemma raising_example_does_not_pass program ex :
  scoring_raises program ex -> ~ example_passes program ex.
Proof.
  intros Hr Hp. apply run_example_caught in Hr as [m Hr].
  apply run_example_pass in Hp. congruence.
Qed.

Lemma failing_example_does_not_pass program ex :
  example_fails program ex -> ~ example_passes program ex.
Proof.
  intros Hf Hp. apply run_example_mismatch in Hf.
  apply run_example_pass in Hp. congruence.
Qed.

Lemma count_passing_none l :
  forall program k,
    (forall i, i < length l -> in_turn scoring_raises program l i) ->
    count_passing program l k -> k = 0.
Proof.
  induction l as [|ex l IH]; intros program k Hall Hk;
    inversion Hk as [|? ? j Hp Hc|? ? j Hp Hc]; subst; [reflexivity| |].
  - exfalso. apply (raising_example_does_not_pass program ex); [|exact Hp].
    apply (in_turn_0 scoring_raises program ex l). apply Hall. simpl. lia.
  - apply (IH _ _ (fun i Hi => Hall (S i) ltac:(simpl; lia)) Hc).
Qed.




(** C10. When the training list of the task is empty, a candidate that
    loads with a callable entry point is accepted, with the message
    [Passed 0/0 train examples], whatever the entry point computes. *)
Theorem empty_training_list_accepted
    (task : task_data) (code : string) (program : entry) :
  python_exec code = Loaded (Some (Callable program)) ->
  default [] (task !! "train") = [] ->
  passes_training_examples python_exec task code
  = Some (true, "Passed 0/0 train examples").
Proof.
  intros Hload Hempty. unfold passes_training_examples.
  rewrite Hload, Hempty. reflexivity.
Qed.

End Claims.

End ValidatorClaims.

(** ** The validator on concrete candidates *)

Module ValidatorExamples.

Import CodeValidator Statements ValidatorFacts ValidatorClaims Demo.

Example flip_task_accepted :
  passes_training_examples demo_exec flip_task flip_source
  = Some (true, "Passed 1/1 train examples").
Proof. vm_compute. reflexivity. Qed.

Example picky_partial_credit :
  passes_training_examples demo_exec two_pair_task picky_source
  = Some (false, "Passed 1/2 train examples").
Proof. vm_compute. reflexivity. Qed.

(** A candidate that returns floats is accepted when the integers they
    are cut to are the expected ones. *)
Example float_candidate_accepted :
  Numpy.np_array (PList [PList [PFloat x_1_9; PFloat x_0_2];
                         PList [PFloat x_0_0; PFloat x_1_0]])
  = Some (Numpy.mk_ndarray [2; 2] [1; 0; 0; 1]%Z)
  /\ passes_training_examples demo_exec flip_task float_source
     = Some (true, "Passed 1/1 train examples").
Proof. split; vm_compute; reflexivity. Qed.

(** A candidate that returns an array passes the example when the array
    converts to the expected integers. *)
Example array_candidate_passes :
  run_example eye_program pair_0 = ExPass
  /\ example_passes eye_program pair_0.
Proof.
  assert (H : run_example eye_program pair_0 = ExPass)
    by (vm_compute; reflexivity).
  split; [exact H | now apply run_example_pass].
Qed.

(** A candidate that counts its calls: it solves the first example it is
    given and no later one, so the verdict depends on the order of the
    examples. *)
Example counting_candidate_depends_on_order :
  passes_training_examples demo_exec flip_task once_source
  = Some (true, "Passed 1/1 train examples")
  /\ passes_training_examples demo_exec two_pair_task once_source
     = Some (false, "Passed 1/2 train examples")
  /\ passes_training_examples demo_exec three_pair_task once_source
     = Some (false, "Passed 1/3 train examples").
Proof. split_and!; vm_compute; reflexivity. Qed.

Lemma pair_0_boom : scoring_raises boom_program pair_0.
Proof.
  apply raises_in_program
    with (grid [[0; 1]; [1; 0]]%Z) (grid [[1; 0]; [0; 1]]%Z) "boom";
    reflexivity.
Defined.

Lemma pair_0_picky : scoring_raises picky_program pair_0.
Proof.
  apply raises_in_program
    with (grid [[0; 1]; [1; 0]]%Z) (grid [[1; 0]; [0; 1]]%Z) "boom";
    reflexivity.
Defined.

Lemma picky_is_stateless : stateless picky_program.
Proof. intros earlier g. reflexivity. Defined.

Lemma picky_calls_finish l :
  is_Some (score_examples picky_program l 0) -> calls_finish picky_program l.
Proof. apply score_examples_returns. Defined.






Lemma empty_training_list_accepted_witness :
  demo_exec identity_source = Loaded (Some (Callable identity_program))
  /\ default [] (empty_task !! "train") = []
  /\ passes_training_examples demo_exec empty_task identity_source
     = Some (true, "Passed 0/0 train examples").
Proof.
  split; [reflexivity|]. split; [reflexivity|].
  exact (empty_training_list_accepted demo_exec empty_task identity_source
           identity_program eq_refl eq_refl).
Defined.



End ValidatorExamples.
(** ** Facts about the text operations *)

Module TextFacts.

Import Text.

Lemma app_cons c (a b : string) : String c a +:+ b = String c (a +:+ b).
Proof. reflexivity. Qed.

Lemma app_nil_l (b : string) : "" +:+ b = b.
Proof. reflexivity. Qed.

Ltac push_app := rewrite ?app_cons, ?app_nil_l.

Lemma app_assoc' (a b c : string) : (a +:+ b) +:+ c = a +:+ (b +:+ c).
Proof.
  induction a as [|x a IH]; push_app; [reflexivity | now rewrite IH].
Qed.

Lemma length_app' (a b : string) :
  String.length (a +:+ b) = String.length a + String.length b.
Proof.
  induction a as [|x a IH]; push_app; simpl; [reflexivity | now rewrite IH].
Qed.

Lemma skip_app (a b : string) : skip (String.length a) (a +:+ b) = b.
Proof.
  induction a as [|x a IH]; push_app; simpl; [now destruct b | exact IH].
Qed.

Lemma starts_with_split pat :
  forall s, starts_with pat s = true ->
            s = pat +:+ skip (String.length pat) s.
Proof.
  induction pat as [|a pat IH]; intros s H; simpl.
  - now destruct s.
  - destruct s as [|b s]; simpl in H; [discriminate|].
    apply andb_true_iff in H as [Hab Hs].
    apply Ascii.eqb_eq in Hab. subst b. push_app. f_equal. now apply IH.
Qed.

Lemma starts_with_app pat s : starts_with pat (pat +:+ s) = true.
Proof.
  induction pat as [|a pat IH]; push_app; simpl; [reflexivity|].
  now rewrite Ascii.eqb_refl, IH.
Qed.

(** [split_at_first] cuts the text at an occurrence of the pattern. *)
Lemma split_at_first_sound pat :
  forall s before after,
    split_at_first pat s = Some (before, after) ->
    s = before +:+ pat +:+ after.
Proof.
  induction s as [|c s IH]; intros before after H.
  - simpl in H. destruct (starts_with pat "") eqn:Hp; [|discriminate].
    injection H as <- <-. now apply starts_with_split.
  - cbn [split_at_first] in H.
    destruct (starts_with pat (String c s)) eqn:Hp.
    + injection H as <- <-. now apply starts_with_split.
    + destruct (split_at_first pat s) as [[b a]|] eqn:Hs; [|discriminate].
      injection H as <- <-. push_app. f_equal. now apply IH.
Qed.

(** [pat in s] holds as soon as [pat] occurs somewhere in [s]. *)
Lemma contains_occurrence pat before after :
  contains pat (before +:+ pat +:+ after) = true.
Proof.
  unfold contains. induction before as [|c before IH]; push_app.
  - destruct (pat +:+ after) eqn:He; cbn [split_at_first];
      rewrite <- He, starts_with_app; reflexivity.
  - cbn [split_at_first].
    destruct (starts_with pat _); [reflexivity|].
    destruct (split_at_first pat _) as [[b a]|]; [reflexivity|discriminate].
Qed.

(** A match of [opening(.*?)```] is an occurrence of the opening, the
    group and a closing fence. *)
Lemma first_group_sound opening :
  forall s body,
    first_group opening s = Some body ->
    exists before after,
      s = before +:+ opening +:+ body +:+ fence +:+ after.
Proof.
  assert (Hhere : forall s body after,
    starts_with opening s = true ->
    split_at_first fence (skip (String.length opening) s) = Some (body, after) ->
    s = "" +:+ opening +:+ body +:+ fence +:+ after).
  { intros s body after Hp Hs. apply split_at_first_sound in Hs.
    push_app. rewrite <- Hs. now apply starts_with_split. }
  induction s as [|c s IH]; intros body H; cbn [first_group] in H.
  - destruct (starts_with opening "") eqn:Hp.
    + destruct (split_at_first fence _) as [[b a]|] eqn:Hs; [|discriminate].
      injection H as <-. eauto.
    + discriminate.
  - destruct (starts_with opening (String c s)) eqn:Hp.
    + destruct (split_at_first fence _) as [[b a]|] eqn:Hs.
      * injection H as <-. eauto.
      * apply IH in H as (before & after & ->).
        exists (String c before), after. reflexivity.
    + apply IH in H as (before & after & ->).
      exists (String c before), after. reflexivity.
Qed.

Lemma first_group_no_fence opening s :
  contains fence s = false -> first_group opening s = None.
Proof.
  intros Hc. destruct (first_group opening s) as [body|] eqn:H; [|reflexivity].
  apply first_group_sound in H as (before & after & ->).
  rewrite <- (app_assoc' opening), <- (app_assoc' before) in Hc.
  now rewrite contains_occurrence in Hc.
Qed.

(** *** Trimming *)

Lemma lstrip_idem s : lstrip (lstrip s) = lstrip s.
Proof.
  induction s as [|c s IH]; simpl; [reflexivity|].
  destruct (is_space c) eqn:Hc; [exact IH|]. simpl. now rewrite Hc.
Qed.

Lemma rstrip_tail c s : rstrip (String c s) = String c s -> rstrip s = s.
Proof.
  simpl. destruct (rstrip s) as [|d r] eqn:Hr.
  - destruct (is_space c); [discriminate|]. intros H. now injection H as <-.
  - intros H. now injection H.
Qed.

Lemma rstrip_skip n : forall s, rstrip s = s -> rstrip (skip n s) = skip n s.
Proof.
  induction n as [|n IH]; intros s H; [exact H|].
  destruct s as [|c s]; [reflexivity|]. simpl. apply IH.
  now apply rstrip_tail in H.
Qed.

Lemma rstrip_lstrip s : rstrip s = s -> rstrip (lstrip s) = lstrip s.
Proof.
  induction s as [|c s IH]; intros H; [reflexivity|].
  cbn [lstrip]. destruct (is_space c); [|exact H].
  apply IH. now apply rstrip_tail in H.
Qed.

Lemma rstrip_idem s : rstrip (rstrip s) = rstrip s.
Proof.
  induction s as [|c s IH]; simpl; [reflexivity|].
  destruct (rstrip s) as [|d r] eqn:Hr.
  - destruct (is_space c) eqn:Hc; simpl; [reflexivity | now rewrite Hc].
  - cbn [rstrip] in *. now rewrite IH.
Qed.

(** Trimming on the right keeps a text free of leading whitespace so. *)
Lemma lstrip_rstrip s : lstrip s = s -> lstrip (rstrip s) = rstrip s.
Proof.
  destruct s as [|c s]; [reflexivity|]. cbn [lstrip].
  destruct (is_space c) eqn:Hc.
  - intros H. exfalso.
    assert (Hlen : forall t, String.length (lstrip t) <= String.length t).
    { induction t as [|d t IHt]; simpl; [lia|].
      destruct (is_space d); simpl; lia. }
    specialize (Hlen s). rewrite H in Hlen. simpl in Hlen. lia.
  - intros _. cbn [rstrip].
    destruct (rstrip s); rewrite ?Hc; cbn [lstrip]; now rewrite Hc.
Qed.

Lemma strip_trimmed s : trimmed (strip s).
Proof.
  unfold trimmed, strip. split.
  - apply lstrip_rstrip, lstrip_idem.
  - apply rstrip_idem.
Qed.

Lemma strip_of_trimmed s : trimmed s -> strip s = s.
Proof. intros [Hl Hr]. unfold strip. now rewrite Hl. Qed.

Lemma strip_idem s : strip (strip s) = strip s.
Proof. apply strip_of_trimmed, strip_trimmed. Qed.


Lemma suffix_is_skip (a lead b : string) :
  a = lead +:+ b -> b = skip (String.length a - String.length b) a.
Proof.
  intros ->. rewrite length_app'.
  replace (String.length lead + String.length b - String.length b)
    with (String.length lead) by lia.
  now rewrite skip_app.
Qed.

(** *** The substitution [re.sub(r'^python\s*', '', code, re.MULTILINE)] *)

Lemma is_newline_eq c : is_newline c = true -> String c "" = line_feed.
Proof.
  unfold is_newline, line_feed. intros H. apply Nat.eqb_eq in H.
  now rewrite <- H, ascii_nat_embedding.
Qed.

Lemma quiet_true_start s :
  quiet true s = true -> starts_with "python" s = false.
Proof.
  destruct s as [|c s]; [reflexivity|]. cbn [quiet andb].
  intros H. apply andb_true_iff in H as [H _]. now apply negb_true_iff in H.
Qed.

Lemma quiet_weaken s : starts_with "python" s = false ->
  quiet false s = true -> quiet true s = true.
Proof.
  destruct s as [|c s]; [reflexivity|]. cbn [quiet andb negb].
  intros ->. trivial.
Qed.

Lemma later_lines_quiet_iff s :
  later_lines_quiet s <-> quiet false s = true.
Proof.
  unfold later_lines_quiet. split.
  - assert (G : forall s bol,
      (forall before after, s = before +:+ line_feed +:+ after ->
                            starts_with "python" after = false) ->
      (bol = true -> starts_with "python" s = false) ->
      quiet bol s = true).
    { clear s. induction s as [|c s IH]; intros bol Hs Hb; [reflexivity|].
      cbn [quiet]. apply andb_true_iff. split.
      - destruct bol; [|reflexivity]. cbn [andb]. now rewrite Hb.
      - apply IH.
        + intros before after ->. now apply (Hs (String c before) after).
        + intros Hc. apply is_newline_eq in Hc. apply (Hs "" s).
          push_app. now rewrite <- Hc. }
    intros H. apply G; [exact H | discriminate].
  - assert (G : forall before bol t, quiet bol t = true ->
                forall after, t = before +:+ line_feed +:+ after ->
                              starts_with "python" after = false).
    { clear s. induction before as [|c before IH]; intros bol t H after ->.
      - apply quiet_true_start.
        unfold line_feed in H. rewrite app_nil_l, app_cons, app_nil_l in H.
        cbn [quiet] in H. apply andb_true_iff in H as [_ H]. exact H.
      - rewrite app_cons in H. cbn [quiet] in H.
        apply andb_true_iff in H as [_ H]. now apply (IH _ _ H after). }
    intros H before after Hs. exact (G before false s H after Hs).
Qed.

Lemma re_sub_quiet s :
  forall bol, quiet bol s = true -> re_sub (Plain bol) s = s.
Proof.
  induction s as [|c s IH]; intros bol H; [reflexivity|].
  cbn [quiet] in H. apply andb_true_iff in H as [Hn Hq].
  apply negb_true_iff in Hn. cbn [re_sub]. rewrite Hn.
  f_equal. now apply IH.
Qed.

Lemma re_sub_spaces s :
  forall nl, quiet nl s = true -> re_sub (Spaces nl) s = lstrip s.
Proof.
  induction s as [|c s IH]; intros nl H; [reflexivity|].
  cbn [quiet] in H. apply andb_true_iff in H as [Hn Hq].
  apply negb_true_iff in Hn. cbn [re_sub lstrip].
  destruct (is_space c); [now apply IH|].
  rewrite Hn. f_equal. now apply re_sub_quiet.
Qed.

Lemma re_sub_word rest :
  re_sub (Plain true) ("python" +:+ rest) = re_sub (Spaces false) rest.
Proof.
  change ("python" +:+ rest)
    with (String "p" (String "y" (String "t" (String "h"
            (String "o" (String "n" rest)))))).
  cbn. destruct rest; reflexivity.
Qed.

Lemma quiet_word rest : quiet false ("python" +:+ rest) = quiet false rest.
Proof. reflexivity. Qed.

(** On a text whose later lines do not begin with [python], the
    substitution removes the leading tag and nothing else. *)
Lemma re_sub_python_quiet s :
  later_lines_quiet s -> re_sub_python s = without_python_tag s.
Proof.
  intros H. apply later_lines_quiet_iff in H.
  unfold re_sub_python, without_python_tag.
  destruct (starts_with "python" s) eqn:Hp.
  - apply starts_with_split in Hp. cbn [String.length] in Hp.
    remember (skip 6 s) as rest eqn:Hr. clear Hr. subst s.
    rewrite quiet_word in H. rewrite re_sub_word. now apply re_sub_spaces.
  - apply re_sub_quiet. now apply quiet_weaken.
Qed.

Lemma trimmed_without_python_tag s :
  trimmed s -> trimmed (without_python_tag s).
Proof.
  intros [Hl Hr]. unfold without_python_tag.
  destruct (starts_with "python" s); [|now split]. split.
  - apply lstrip_idem.
  - apply rstrip_lstrip, rstrip_skip, Hr.
Qed.

End TextFacts.

(** ** Properties of the extractor *)

Module ExtractorClaims.

Import Text OutputParser Statements TextFacts.

Lemma extract_code_strip raw_output :
  extract_code raw_output =
  strip match first_group "```python" raw_output with
        | Some body => strip body
        | None =>
            match first_group "```" raw_output with
            | Some body => re_sub_python (strip body)
            | None => strip raw_output
            end
        end.
Proof.
  unfold extract_code.
  destruct (negb _ && negb _); [apply strip_idem | reflexivity].
Qed.

(** The order of preference on ASCII text, away from the case in which
    the substitution reaches into the block.  [extract_code] returns
    (a) the trimmed content of the first block opened by a fence with the
        tag [python], when there is one; else
    (b) the trimmed content of the first fenced block, without a leading
        [python] and the whitespace after it (no other tag is removed),
        when no later line of that content begins with [python]; else
    (c) the trimmed raw text, in particular when the raw text has no
        fence. *)
Theorem extract_code_preference_order (raw_output : string) :
  isascii raw_output = true ->
  (forall body,
      first_group "```python" raw_output = Some body ->
      extract_code raw_output = strip body)
  /\ (forall body,
        first_group "```python" raw_output = None ->
        first_group "```" raw_output = Some body ->
        later_lines_quiet (strip body) ->
        extract_code raw_output = without_python_tag (strip body))
  /\ (first_group "```python" raw_output = None ->
      first_group "```" raw_output = None ->
      extract_code raw_output = strip raw_output)
  /\ (contains fence raw_output = false ->
      extract_code raw_output = strip raw_output).
Proof.
  intros _. rewrite extract_code_strip. repeat split.
  - intros body ->. apply strip_idem.
  - intros body -> -> Hq. rewrite (re_sub_python_quiet _ Hq).
    apply strip_of_trimmed, trimmed_without_python_tag, strip_trimmed.
  - intros -> ->. apply strip_idem.
  - intros Hc.
    rewrite !(first_group_no_fence _ _ Hc). apply strip_idem.
Qed.

End ExtractorClaims.

(** ** The extractor on concrete texts *)

Module ExtractorExamples.

Import Text OutputParser Statements TextFacts ExtractorClaims Demo.

Example tagged_block :
  extract_code (fence +:+ "python" +:+ nl +:+ "def p(g):" +:+ nl
                  +:+ "    return g" +:+ nl +:+ fence)
  = "def p(g):" +:+ nl +:+ "    return g".
Proof. vm_compute. reflexivity. Qed.

Example other_tag_is_kept :
  extract_code (fence +:+ "js" +:+ nl +:+ "x = 1" +:+ nl +:+ fence)
  = "js" +:+ nl +:+ "x = 1".
Proof. vm_compute. reflexivity. Qed.

(** C6, at the failing input: a generic block whose second line is
    [python_ok = 2].  The substitution that is to remove the language
    identifier is made with [re.MULTILINE], so it also matches at the
    start of that line, which comes out as [_ok = 2]: the lines after the
    tag are not left unchanged. *)
Lemma inner_line_loses_its_word :
  extract_code inner_line_raw = "x = 1" +:+ nl +:+ "_ok = 2"
  /\ ~ generic_block_keeps_lines inner_line_raw.
Proof.
  split; [vm_compute; reflexivity|].
  intros H.
  destruct (H (nl +:+ "x = 1" +:+ nl +:+ "python_ok = 2" +:+ nl)) as [lead Hl];
    [vm_compute; reflexivity | vm_compute; reflexivity |].
  apply suffix_is_skip in Hl. vm_compute in Hl. discriminate.
Qed.

Lemma extract_code_preference_order_witness :
  isascii spaced_tag_raw = true
  /\ first_group "```python" spaced_tag_raw = None
  /\ first_group "```" spaced_tag_raw
     = Some (" python" +:+ nl +:+ "def p(g):return g" +:+ nl)
  /\ later_lines_quiet (strip (" python" +:+ nl +:+ "def p(g):return g" +:+ nl))
  /\ extract_code spaced_tag_raw = "def p(g):return g".
Proof.
  assert (Hq : later_lines_quiet
                 (strip (" python" +:+ nl +:+ "def p(g):return g" +:+ nl))).
  { apply later_lines_quiet_iff. vm_compute. reflexivity. }
  split; [vm_compute; reflexivity|].
  split; [vm_compute; reflexivity|].
  split; [vm_compute; reflexivity|].
  split; [exact Hq|].
  exact (proj1 (proj2 (extract_code_preference_order spaced_tag_raw eq_refl))
           (" python" +:+ nl +:+ "def p(g):return g" +:+ nl)
           eq_refl eq_refl Hq).
Defined.

End ExtractorExamples.

(** ** Facts about the orchestrator *)

Module PipelineFacts.

Import CodeValidator OutputParser PromptBuilder Pipeline Statements.

Section Facts.

Variable ast_parse : string -> parse_result.
Variable python_exec : string -> load_result.
Variable json_dumps : list example -> string.
Variable llm : nat -> string -> res string.
Variable max_api_calls : nat.
Variable retry_on_failure : bool.
Variable max_retries : nat.

Abbreviation attempt_body :=
  (attempt_body ast_parse python_exec json_dumps llm retry_on_failure
     max_retries).
Abbreviation attempt_loop :=
  (attempt_loop ast_parse python_exec json_dumps llm retry_on_failure
     max_retries).
Abbreviation attempt_prompt := (attempt_prompt json_dumps).
Abbreviation retry_or_break := (retry_or_break retry_on_failure max_retries).
Abbreviation failed_attempt := (failed_attempt ast_parse python_exec llm).

(** What one attempt does to the world and the locals. *)
Lemma attempt_body_inv task_id task train test attempt v w w' v' c :
  attempt_body task_id task train test attempt v w = Some (w', v', c) ->
  let prompt := attempt_prompt task_id attempt train test v in
  requests w' = requests w ++ [prompt] /\
  exists row,
    progress w' = progress w ++ [row] /\
    ((c = Break /\ succeeded v' = true /\ row_status row = accepted_status /\
      exists raw message,
        llm (length (requests w)) prompt = Ret raw /\
        ast_parse (extract_code raw) = ParseOk /\
        passes_training_examples python_exec task (extract_code raw)
        = Some (true, message) /\
        solutions w' !! task_id = Some (extract_code raw))
     \/ (c = retry_or_break attempt /\ succeeded v' = succeeded v /\
         row_status row <> accepted_status /\
         solutions w' = solutions w /\
         failed_attempt task prompt w v v')).
Proof.
  intros H prompt.
  unfold Pipeline.attempt_body, generate, on_exception, is_syntax_valid in H.
  fold prompt in H.
  destruct (llm (length (requests w)) prompt) as [raw|msg] eqn:Hllm.
  - destruct (ast_parse (extract_code raw)) as [|m|m] eqn:Hparse.
    + destruct (passes_training_examples python_exec task (extract_code raw))
        as [[[|] message]|] eqn:Hpass; [| |discriminate].
      * injection H as <- <- <-. split; [reflexivity|].
        eexists. split; [reflexivity|]. left.
        repeat split. exists raw, message. repeat split; auto.
        simpl. apply lookup_insert_eq.
      * injection H as <- <- <-. split; [reflexivity|].
        eexists. split; [reflexivity|]. right.
        repeat split; [discriminate|].
        now apply failed_examples with raw message.
    + injection H as <- <- <-. split; [reflexivity|].
      eexists. split; [reflexivity|]. right.
      repeat split; [discriminate|].
      now apply failed_syntax with raw m.
    + injection H as <- <- <-. split; [reflexivity|].
      eexists. split; [reflexivity|]. right.
      repeat split; [discriminate|].
      now apply failed_parser with raw m.
  - injection H as <- <- <-. split; [reflexivity|].
    eexists. split; [reflexivity|]. right.
    repeat split; [discriminate|].
    now apply failed_generation with msg.
Qed.

Abbreviation accepted_at := (accepted_at ast_parse python_exec llm).
Abbreviation candidates_get_verdicts :=
  (candidates_get_verdicts ast_parse python_exec llm).

(** An attempt produces a result as soon as validation returns. *)
Lemma attempt_body_total task_id task train test attempt v w :
  candidates_get_verdicts task ->
  is_Some (attempt_body task_id task train test attempt v w).
Proof.
  intros Hval. unfold Pipeline.attempt_body, generate.
  destruct (llm _ _) as [raw|msg] eqn:Hllm; [|eauto].
  unfold is_syntax_valid.
  destruct (ast_parse (extract_code raw)) eqn:Hparse; eauto.
  destruct (Hval _ _ raw Hllm Hparse) as [[[|] message] ->]; eauto.
Qed.

(** A failed attempt is one whose answer was not accepted. *)
Lemma failed_attempt_not_accepted task prompt w v v' :
  failed_attempt task prompt w v v' ->
  ~ accepted_at task (length (requests w)) prompt.
Proof.
  intros Hf (raw & message & Hllm & Hparse & Hpass).
  destruct Hf as [msg Hl _ _|raw' msg Hl Hp _ _|raw' msg Hl Hp _ _
                 |raw' message' Hl Hp Hv _ _]; congruence.
Qed.


(** The loop only appends to the list of requests. *)
Lemma attempt_loop_requests task_id task train test attempts :
  forall v w w' v',
    attempt_loop task_id task train test attempts v w = Some (w', v') ->
    exists prompts, requests w' = requests w ++ prompts.
Proof.
  induction attempts as [|a later IH]; intros v w w' v' H; simpl in H.
  - injection H as <- <-. exists []. now rewrite app_nil_r.
  - destruct (attempt_body task_id task train test a v w)
      as [[[w1 v1] c]|] eqn:Hb; [|discriminate].
    apply attempt_body_inv in Hb as [Hreq _].
    destruct c.
    + apply IH in H as [more Hmore].
      exists ([attempt_prompt task_id a train test v] ++ more).
      now rewrite Hmore, Hreq, <- app_assoc.
    + injection H as <- <-. eauto.
Qed.

(** The attempt loop over [range(a, a + n)] with [a + n = max_retries + 1]:
    it returns as soon as validation does, after at most [n] attempts; a
    success is the last attempt made, the only one whose answer was
    accepted, and without a success all [n] attempts were made and no
    answer was accepted. *)
Lemma attempt_loop_bound task_id task train test :
  retry_on_failure = true ->
  candidates_get_verdicts task ->
  forall n a v w,
    a + n = max_retries + 1 ->
    succeeded v = false ->
    exists w' v' prompts,
      attempt_loop task_id task train test (seq a n) v w = Some (w', v') /\
      requests w' = requests w ++ prompts /\
      length prompts <= n /\
      (forall i prompt,
          prompts !! i = Some prompt -> S i < length prompts ->
          ~ accepted_at task (length (requests w) + i) prompt) /\
      (succeeded v' = true ->
       exists earlier last,
         prompts = earlier ++ [last] /\
         accepted_at task (length (requests w) + length earlier) last) /\
      (succeeded v' = false ->
       length prompts = n /\
       forall i prompt,
         prompts !! i = Some prompt ->
         ~ accepted_at task (length (requests w) + i) prompt).
Proof.
  intros Hretry Hval.
  induction n as [|n IH]; intros a v w Han Hv.
  - exists w, v, []. simpl. rewrite !app_nil_r.
    split_and!; auto.
    + intros i prompt Hi. discriminate.
    + congruence.
    + intros _. split; [reflexivity|]. intros i prompt Hi. discriminate.
  - cbn [seq Pipeline.attempt_loop].
    destruct (attempt_body_total task_id task train test a v w Hval)
      as [[[w1 v1] c] Hb].
    rewrite Hb.
    destruct (attempt_body_inv _ _ _ _ _ _ _ _ _ _ Hb)
      as (Hreq & row & Hrow & Hcase).
    set (prompt0 := attempt_prompt task_id a train test v) in *.
    destruct Hcase as [(-> & Hs & _ & raw & message & Hllm & Hparse & Hpass & _)
                      | (-> & Hs & _ & _ & Hfail)].
    + exists w1, v1, [prompt0].
      split; [reflexivity|]. split; [exact Hreq|].
      split; [simpl; lia|]. split; [|split].
      * intros i prompt Hi Hlt. simpl in Hlt. lia.
      * intros _. exists [], prompt0. split; [reflexivity|].
        rewrite Nat.add_0_r. exists raw, message. auto.
      * congruence.
    + apply failed_attempt_not_accepted in Hfail.
      unfold Pipeline.retry_or_break.
      replace (retry_on_failure && Nat.ltb a max_retries)
        with (Nat.ltb a max_retries) by now rewrite Hretry.
      destruct (Nat.ltb a max_retries) eqn:Hlt.
      * apply Nat.ltb_lt in Hlt.
        destruct (IH (S a) v1 w1) as (w' & v' & ps & Hl & Hq & Hle &
                                      Hearly & Hok & Hko);
          [lia | congruence |].
        assert (Hshift : forall i,
                   length (requests w1) + i = length (requests w) + S i).
        { intros i. rewrite Hreq, length_app. simpl. lia. }
        exists w', v', (prompt0 :: ps).
        split_and!;
          [ exact Hl
          | rewrite Hq, Hreq, <- app_assoc; reflexivity
          | simpl; lia
          | | | ].
        -- intros [|i] prompt Hi Hlen.
           ++ injection Hi as <-. now rewrite Nat.add_0_r.
           ++ rewrite <- Hshift. apply Hearly; [exact Hi|].
              simpl in Hlen. lia.
        -- intros Ht. destruct (Hok Ht) as (earlier & last & -> & Hlast).
           exists (prompt0 :: earlier), last. split; [reflexivity|].
           cbn [length]. now rewrite <- Hshift.
        -- intros Hf. destruct (Hko Hf) as [Hn Hall]. split; [simpl; lia|].
           intros [|i] prompt Hi.
           ++ injection Hi as <-. now rewrite Nat.add_0_r.
           ++ rewrite <- Hshift. now apply Hall.
      * apply Nat.ltb_ge in Hlt. assert (n = 0) as -> by lia.
        exists w1, v1, [prompt0].
        split; [reflexivity|]. split; [exact Hreq|].
        split; [simpl; lia|]. split; [|split].
        -- intros i prompt Hi Hlen. simpl in Hlen. lia.
        -- congruence.
        -- intros _. split; [reflexivity|].
           intros [|i] prompt Hi; [|discriminate].
           injection Hi as <-. now rewrite Nat.add_0_r.
Qed.

(** A validation that returns no verdict leaves the attempt, and the loop,
    without a result. *)
Lemma attempt_body_blocked task_id task train test attempt v w raw :
  llm (length (requests w)) (attempt_prompt task_id attempt train test v)
  = Ret raw ->
  ast_parse (extract_code raw) = ParseOk ->
  passes_training_examples python_exec task (extract_code raw) = None ->
  attempt_body task_id task train test attempt v w = None.
Proof.
  intros Hllm Hparse Hpass.
  unfold Pipeline.attempt_body, generate, is_syntax_valid.
  now rewrite Hllm, Hparse, Hpass.
Qed.

End Facts.

End PipelineFacts.

(** ** Facts about the prompts *)

Module PromptFacts.

Import Text TextFacts PromptBuilder.

Lemma truthy_Some code : code <> "" -> truthy (Some code) = true.
Proof. destruct code; [congruence | reflexivity]. Qed.

Lemma refinement_contains_code code feedback train test :
  contains code (refinement_prompt code feedback train test) = true.
Proof. unfold refinement_prompt. apply contains_occurrence. Qed.

Lemma refinement_contains_feedback code feedback train test :
  contains feedback (refinement_prompt code feedback train test) = true.
Proof.
  unfold refinement_prompt.
  rewrite <- (app_assoc' code refinement_after_code).
  rewrite <- (app_assoc' refinement_head).
  apply contains_occurrence.
Qed.

(** The two templates part ways at their character 70. *)
Lemma refinement_is_not_initial code feedback train test train' test' :
  refinement_prompt code feedback train test <> initial_prompt train' test'.
Proof.
  unfold refinement_prompt, initial_prompt. intros H.
  apply (f_equal (get 70)) in H.
  rewrite <- !append_correct1 in H
    by (apply Nat.ltb_lt; vm_compute; reflexivity).
  vm_compute in H. discriminate.
Qed.

End PromptFacts.

(** ** Properties of the orchestrator *)

Module PipelineClaims.

Import Text TextFacts CodeValidator OutputParser PromptBuilder Pipeline.
Import Statements PipelineFacts PromptFacts.

Section Claims.

Variable ast_parse : string -> parse_result.
Variable python_exec : string -> load_result.
Variable json_dumps : list example -> string.
Variable llm : nat -> string -> res string.
Variable max_api_calls : nat.
Variable retry_on_failure : bool.
Variable max_retries : nat.

Abbreviation attempt_body :=
  (attempt_body ast_parse python_exec json_dumps llm retry_on_failure
     max_retries).
Abbreviation attempt_loop :=
  (attempt_loop ast_parse python_exec json_dumps llm retry_on_failure
     max_retries).
Abbreviation solve_task :=
  (solve_task ast_parse python_exec json_dumps llm retry_on_failure
     max_retries).
Abbreviation process_task :=
  (process_task ast_parse python_exec json_dumps llm max_api_calls
     retry_on_failure max_retries).
Abbreviation attempt_prompt := (attempt_prompt json_dumps).
Abbreviation failed_attempt := (failed_attempt ast_parse python_exec llm).
Abbreviation accepted_at := (accepted_at ast_parse python_exec llm).
Abbreviation candidates_get_verdicts :=
  (candidates_get_verdicts ast_parse python_exec llm).


(** C3, as the code has it. The attempt does not call
    [validate_code_length]: a candidate that parses and passes every
    training example is accepted and saved, whatever its length. *)
Theorem length_is_not_checked_by_the_pipeline
    (task_id : nat) (task : task_data) (train test : list example)
    (attempt : nat) (v : locals) (w : world) (raw message : string) :
  llm (length (requests w))
    (attempt_prompt task_id attempt train test v) = Ret raw ->
  ast_parse (extract_code raw) = ParseOk ->
  passes_training_examples python_exec task (extract_code raw)
  = Some (true, message) ->
  exists w' v',
    attempt_body task_id task train test attempt v w
    = Some (w', v', Break) /\
    succeeded v' = true /\
    solutions w' !! task_id = Some (extract_code raw).
Proof.
  intros Hllm Hparse Hpass.
  unfold Pipeline.attempt_body, generate, is_syntax_valid.
  rewrite Hllm, Hparse, Hpass.
  eexists _, _. split; [reflexivity|]. split; [reflexivity|].
  simpl. apply lookup_insert_eq.
Qed.

(** C7, as the code has it. After a failed attempt that lets the loop
    continue, the prompt of the next attempt is [build_prompt] applied to
    the recorded candidate and feedback.  It is the refinement prompt,
    containing both, when a non-empty candidate source and a non-empty
    feedback are recorded; it is the initial prompt when no candidate has
    been recorded, or the recorded source or feedback is empty. *)
Theorem next_prompt_after_failed_attempt (task_id : nat) (task : task_data)
    (train test : list example) (attempt : nat) (v v' : locals)
    (w w' : world) :
  attempt_body task_id task train test attempt v w = Some (w', v', Continue) ->
  let next := attempt_prompt task_id (S attempt) train test v' in
  let train_formatted := json_dumps train in
  let test_formatted := format_tests json_dumps test in
  failed_attempt task (attempt_prompt task_id attempt train test v) w v v'
  /\ (forall code feedback,
        previous_code v' = Some code -> previous_error v' = Some feedback ->
        code <> "" -> feedback <> "" ->
        next = refinement_prompt code feedback train_formatted test_formatted
        /\ contains code next = true
        /\ contains feedback next = true
        /\ next <> initial_prompt train_formatted test_formatted)
  /\ (previous_code v' = None \/ previous_code v' = Some ""
      \/ previous_error v' = Some "" ->
      next = initial_prompt train_formatted test_formatted)
  /\ (forall later w'' v'',
        attempt_loop task_id task train test (attempt :: S attempt :: later)
          v w = Some (w'', v'') ->
        requests w'' !! S (length (requests w)) = Some next).
Proof.
  intros Hb next train_formatted test_formatted.
  pose proof Hb as Hinv.
  apply attempt_body_inv in Hinv as (Hreq & row & Hrow & Hcase).
  destruct Hcase as [(Hc & _) | (_ & _ & _ & _ & Hfail)]; [discriminate|].
  split; [exact Hfail|].
  unfold next, Pipeline.attempt_prompt, build_prompt.
  fold train_formatted test_formatted.
  split; [|split].
  - intros code feedback -> -> Hcode Hfb.
    rewrite !truthy_Some by assumption. cbn [andb default].
    split; [reflexivity|].
    split; [apply refinement_contains_code|].
    split; [apply refinement_contains_feedback|].
    apply refinement_is_not_initial.
  - intros [-> | [-> | ->]]; cbn [truthy andb]; try reflexivity.
    now rewrite andb_false_r.
  - intros later w'' v'' Hl. cbn [Pipeline.attempt_loop] in Hl.
    rewrite Hb in Hl.
    destruct (attempt_body task_id task train test (S attempt) v' w')
      as [[[w2 v2] c]|] eqn:Hb2; [|discriminate].
    apply attempt_body_inv in Hb2 as [Hreq2 _].
    assert (Hmore : exists more, requests w'' = requests w2 ++ more).
    { destruct c.
      - eapply attempt_loop_requests. exact Hl.
      - injection Hl as <- <-. exists []. now rewrite app_nil_r. }
    destruct Hmore as [more ->]. rewrite Hreq2, Hreq, <- !app_assoc.
    rewrite lookup_app_r by lia.
    replace (S (length (requests w)) - length (requests w)) with 1 by lia.
    reflexivity.
Qed.

(** C9. A task whose solution file exists when the runner reaches it
    causes no generation call: the list of requests and the call counter
    stay as they are, whether the budget is exhausted or not; and when the
    budget is not exhausted the task is counted as skipped and the runner
    goes on to the next task. *)
Theorem existing_solution_is_skipped (t : task_file) (w : world) :
  is_Some (solutions w !! file_task_id t) ->
  (exists w' c,
      process_task t w = Some (w', c) /\
      requests w' = requests w /\
      api_calls w' = api_calls w /\
      solutions w' = solutions w /\
      progress w' = progress w)
  /\ (api_calls w < max_api_calls ->
      process_task t w = Some (bump incr_skipped w, Continue) /\
      skipped (counters (bump incr_skipped w)) = S (skipped (counters w))).
Proof.
  intros Hex. unfold Pipeline.process_task, file_exists.
  rewrite (bool_decide_eq_true_2 _ Hex). split.
  - destruct (Nat.leb max_api_calls (api_calls w)); eauto 10.
  - intros Hlt. apply Nat.leb_gt in Hlt. rewrite Hlt. split; reflexivity.
Qed.

End Claims.

End PipelineClaims.

(** ** The orchestrator on concrete runs *)

Module PipelineExamples.

Import Text CodeValidator OutputParser PromptBuilder Pipeline.
Import Statements PipelineFacts PromptFacts PipelineClaims Demo.

(** Validation under [demo_exec] returns for every source. *)
Lemma demo_validation_returns (task : task_data) :
  task = flip_task \/ task = copy_task ->
  forall code, is_Some (passes_training_examples demo_exec task code).
Proof.
  intros Htask code. unfold passes_training_examples, demo_exec.
  repeat (destruct (String.eqb code _); [destruct Htask as [->| ->]; vm_compute; eauto|]).
  eauto.
Defined.

(** The example scenario: accepted at attempt 1, one generation call. *)
Example scenario_accepted_at_first_attempt :
  exists w' v',
    solve_task demo_parse demo_exec demo_json flip_llm true 2 1 flip_task
      fresh_world = Some (w', v')
    /\ succeeded v' = true
    /\ requests w' = [first_prompt]
    /\ solutions w' !! 1 = Some flip_source.
Proof. eexists _, _. split_and!; vm_compute; reflexivity. Qed.

(** A run over two task files, the first of which is already solved: it
    is skipped, and the second costs one generation call. *)
Example run_skips_the_solved_task :
  exists w,
    run_pipeline demo_parse demo_exec demo_json flip_llm 100 true 2
      [mk_task_file 1 (Ret flip_task); mk_task_file 2 (Ret flip_task)]
      (<[1 := flip_source]> ∅) = Some w
    /\ skipped (counters w) = 1
    /\ success (counters w) = 1
    /\ api_calls w = 1
    /\ requests w = [first_prompt]
    /\ solutions w !! 2 = Some flip_source.
Proof. eexists. split_and!; vm_compute; reflexivity. Qed.

(** Three failing candidates with [max_retries = 2]: the loop stops after
    the third attempt although the service would answer a fourth time. *)
Example exhausted_after_three_attempts :
  exists w' v',
    solve_task demo_parse demo_exec demo_json
      (scripted [Ret boom_source; Ret boom_source; Ret boom_source;
                 Ret flip_source])
      true 2 1 flip_task fresh_world = Some (w', v')
    /\ succeeded v' = false
    /\ length (requests w') = 3
    /\ api_calls w' = 3
    /\ map row_status (progress w')
       = ["failed_validation"; "failed_validation"; "failed_validation"]
    /\ solutions w' !! 1 = None.
Proof. eexists _, _. split_and!; vm_compute; reflexivity. Qed.

Lemma demo_candidates_get_verdicts llm :
  candidates_get_verdicts demo_parse demo_exec llm flip_task.
Proof.
  intros k prompt raw _ _.
  apply (demo_validation_returns flip_task (or_introl eq_refl)).
Defined.



(** C3 fails as stated: the overlong candidate parses and solves the task,
    and the run saves it as the solution. *)
Lemma long_source_is_saved :
  validate_code_length long_source default_max_length = false
  /\ ~ long_sources_are_rejected demo_parse demo_exec demo_json long_llm
         true 2 default_max_length 1 copy_task fresh_world.
Proof.
  split; [vm_compute; reflexivity|].
  intros H.
  assert (Hs : exists w' v',
             solve_task demo_parse demo_exec demo_json long_llm true 2 1
               copy_task fresh_world = Some (w', v')
             /\ solutions w' !! 1 = Some long_source).
  { eexists _, _. split; vm_compute; reflexivity. }
  destruct Hs as (w' & v' & Hs & Hl).
  pose proof (H w' v' long_source Hs eq_refl Hl) as Hlen.
  apply Nat.leb_le in Hlen. vm_compute in Hlen. discriminate.
Qed.

Lemma length_is_not_checked_by_the_pipeline_witness :
  long_llm 0 (attempt_prompt demo_json 1 0 copy_train []
                (mk_locals None None false)) = Ret long_source
  /\ demo_parse (extract_code long_source) = ParseOk
  /\ passes_training_examples demo_exec copy_task (extract_code long_source)
     = Some (true, "Passed 1/1 train examples")
  /\ exists w' v',
       attempt_body demo_parse demo_exec demo_json long_llm true 2 1
         copy_task copy_train [] 0 (mk_locals None None false) fresh_world
       = Some (w', v', Break)
       /\ succeeded v' = true
       /\ solutions w' !! 1 = Some (extract_code long_source).
Proof.
  assert (Hp : passes_training_examples demo_exec copy_task
                 (extract_code long_source)
               = Some (true, "Passed 1/1 train examples"))
    by (vm_compute; reflexivity).
  split; [reflexivity|]. split; [reflexivity|]. split; [exact Hp|].
  exact (length_is_not_checked_by_the_pipeline demo_parse demo_exec
           demo_json long_llm true 2
           1 copy_task copy_train [] 0 (mk_locals None None false) fresh_world
           long_source "Passed 1/1 train examples" eq_refl eq_refl Hp).
Defined.

(** C7 fails as stated: after a failed generation call, and again after an
    empty candidate, the next prompt is the initial prompt. *)
Lemma retry_after_service_failure_uses_initial_prompt :
  (exists w' v',
      solve_task demo_parse demo_exec demo_json flaky_llm true 2 1 flip_task
        fresh_world = Some (w', v')
      /\ requests w' = [first_prompt; first_prompt; first_prompt])
  /\ ~ later_prompts_are_refinements demo_parse demo_exec demo_json flaky_llm
         true 2 1 flip_task fresh_world.
Proof.
  assert (Hs : exists w' v',
             solve_task demo_parse demo_exec demo_json flaky_llm true 2 1
               flip_task fresh_world = Some (w', v')
             /\ requests w' = [first_prompt; first_prompt; first_prompt]).
  { eexists _, _. split; vm_compute; reflexivity. }
  split; [exact Hs|].
  destruct Hs as (w' & v' & Hs & Hr).
  intros H. destruct (H w' v' 0 first_prompt Hs) as (c & f & tr & te & Heq).
  - rewrite Hr. reflexivity.
  - symmetry in Heq. now apply refinement_is_not_initial in Heq.
Qed.

Lemma next_prompt_after_failed_attempt_witness :
  exists w' v',
    attempt_body demo_parse demo_exec demo_json boom_llm true 2 1 flip_task
      flip_train [] 0 (mk_locals None None false) fresh_world
    = Some (w', v', Continue)
    /\ previous_code v' = Some boom_source
    /\ previous_error v' = Some "Passed 0/1 train examples"
    /\ attempt_prompt demo_json 1 1 flip_train [] v'
       = refinement_prompt boom_source "Passed 0/1 train examples"
           (demo_json flip_train) "[]".
Proof.
  assert (Hb : exists w' v',
             attempt_body demo_parse demo_exec demo_json boom_llm true 2 1
               flip_task flip_train [] 0 (mk_locals None None false)
               fresh_world = Some (w', v', Continue)
             /\ previous_code v' = Some boom_source
             /\ previous_error v' = Some "Passed 0/1 train examples").
  { eexists _, _. split_and!; vm_compute; reflexivity. }
  destruct Hb as (w' & v' & Hb & Hc & He).
  exists w', v'. split; [exact Hb|]. split; [exact Hc|]. split; [exact He|].
  refine (proj1 (proj1 (proj2 (next_prompt_after_failed_attempt demo_parse
                  demo_exec demo_json boom_llm true 2 1 flip_task flip_train
                  [] 0 _ v' fresh_world w' Hb))
           boom_source "Passed 0/1 train examples" Hc He _ _));
    discriminate.
Defined.

Lemma existing_solution_is_skipped_witness :
  is_Some (solutions solved_world !! 1)
  /\ process_task demo_parse demo_exec demo_json flip_llm 100 true 2
       (mk_task_file 1 (Ret flip_task)) solved_world
     = Some (bump incr_skipped solved_world, Continue)
  /\ requests (bump incr_skipped solved_world) = []
  /\ api_calls (bump incr_skipped solved_world) = 0.
Proof.
  assert (Hex : is_Some (solutions solved_world !! 1))
    by (exists flip_source; reflexivity).
  split; [exact Hex|].
  split; [|split; reflexivity].
  refine (proj1 (proj2 (existing_solution_is_skipped demo_parse demo_exec
                  demo_json flip_llm 100 true 2
                  (mk_task_file 1 (Ret flip_task)) solved_world Hex) _)).
  vm_compute. lia.
Defined.

End PipelineExamples.

(** ** Further properties of the validator *)

Module ValidatorExtras.

Import CodeValidator Statements ValidatorFacts.

(** The tally over a concatenation is the tally over the first part carried
    into the second, which is scored by the entry point that the first
    part leaves. *)
Lemma score_examples_app l1 :
  forall program l2 n,
    score_examples program (l1 ++ l2) n
    = score_examples program l1 n
        ≫= score_examples (entry_after program l1) l2.
Proof.
  induction l1 as [|ex l1 IH]; intros program l2 n; [reflexivity|].
  cbn [app score_examples]. rewrite entry_after_cons.
  destruct (run_example program ex); auto.
Qed.

Lemma score_examples_shift l :
  forall program n, score_examples program l (S n)
                    = S <$> score_examples program l n.
Proof.
  induction l as [|ex l IH]; intros program n; simpl; [reflexivity|].
  destruct (run_example program ex); auto.
Qed.

(** Entry points that agree on every call are scored alike. *)
Lemma run_example_ext program program' ex :
  (forall earlier input_grid,
      program earlier input_grid = program' earlier input_grid) ->
  run_example program ex = run_example program' ex.
Proof.
  intros H. unfold run_example, call.
  destruct (ex !! "input"); [|reflexivity].
  destruct (ex !! "output"); [|reflexivity].
  now rewrite H.
Qed.

Lemma score_examples_ext l :
  forall program program' n,
    (forall earlier input_grid,
        program earlier input_grid = program' earlier input_grid) ->
    score_examples program l n = score_examples program' l n.
Proof.
  induction l as [|ex l IH]; intros program program' n H; [reflexivity|].
  cbn [score_examples]. rewrite (run_example_ext program program' ex H).
  assert (Hafter : forall earlier input_grid,
             after_example program ex earlier input_grid
             = after_example program' ex earlier input_grid).
  { intros e i. unfold after_example, advance.
    destruct (ex !! "input"); [destruct (ex !! "output")|]; apply H. }
  destruct (run_example program' ex); auto.
Qed.

(** A stateless entry point is left as it is by the call on an example. *)
Lemma after_example_stateless program ex :
  stateless program ->
  forall earlier input_grid,
    after_example program ex earlier input_grid = program earlier input_grid.
Proof.
  intros Hp e i. unfold after_example, advance.
  destruct (ex !! "input"); [destruct (ex !! "output")|]; try reflexivity.
  now rewrite (Hp e i), (Hp (_ :: e) i).
Qed.

Lemma score_examples_stateless program ex l n :
  stateless program ->
  score_examples (after_example program ex) l n = score_examples program l n.
Proof.
  intros Hp. apply score_examples_ext. now apply after_example_stateless.
Qed.

Lemma score_examples_perm program l l' :
  stateless program ->
  l ≡ₚ l' ->
  forall n, score_examples program l n = score_examples program l' n.
Proof.
  intros Hp.
  induction 1 as [|x l l' _ IH|x y l|l l' l'' _ IH1 _ IH2]; intros n.
  - reflexivity.
  - cbn [score_examples]. rewrite !score_examples_stateless by assumption.
    destruct (run_example program x); auto.
  - cbn [score_examples].
    assert (Hs : forall z, stateless (after_example program z)).
    { intros z e i. rewrite !after_example_stateless by assumption.
      apply Hp. }
    rewrite (run_example_ext _ program x (after_example_stateless _ y Hp)).
    rewrite (run_example_ext _ program y (after_example_stateless _ x Hp)).
    rewrite !score_examples_stateless by auto.
    destruct (run_example program x), (run_example program y); reflexivity.
  - now rewrite IH1.
Qed.

(** For a stateless entry point, passing in turn is passing. *)
Lemma all_pass_stateless program l :
  stateless program ->
  all_pass program l <-> Forall (example_passes program) l.
Proof.
  intros Hp.
  assert (Hsame : forall l' ex,
             example_passes (entry_after program l') ex
             <-> example_passes program ex).
  { intros l' ex. unfold example_passes.
    split; intros (i & e & r & Hi & He & Hc & Hg); exists i, e, r;
      split_and!; auto.
    - now rewrite call_after_stateless in Hc.
    - now rewrite call_after_stateless. }
  unfold all_pass, in_turn. rewrite Forall_lookup. split.
  - intros H i ex Hl. destruct (H i (lookup_lt_Some _ _ _ Hl))
      as (ex' & Hl' & Hpass).
    assert (ex' = ex) as -> by congruence. now apply Hsame in Hpass.
  - intros H i Hi. destruct (lookup_lt_is_Some_2 l i Hi) as [ex Hl].
    exists ex. split; [exact Hl|]. apply Hsame. now apply (H i).
Qed.

Section Extras.

Variable python_exec : string -> load_result.


Lemma accepted_candidate_passes (task : task_data) (code message : string) :
  passes_training_examples python_exec task code = Some (true, message) ->
  exists program,
    python_exec code = Loaded (Some (Callable program))
    /\ all_pass program (default [] (task !! "train")).
Proof.
  intros H. pose proof H as H'. unfold passes_training_examples in H.
  destruct (python_exec code) as [| | | |[[|program]|]] eqn:Hload;
    try discriminate.
  exists program. split; [reflexivity|].
  apply (passed_iff_all_pass python_exec task code program Hload). eauto.
Qed.

(** A verdict [passed = true] is only given to a candidate that loads with
    a callable entry point on which every training example passes in its
    turn, and its message is the full tally. *)
Theorem accepted_only_with_callable_entry_point (task : task_data)
    (code message : string) :
  passes_training_examples python_exec task code = Some (true, message) ->
  let train := default [] (task !! "train") in
  exists program,
    python_exec code = Loaded (Some (Callable program))
    /\ all_pass program train
    /\ message = tally_message (length train) (length train).
Proof.
  intros H train. pose proof H as H'. unfold passes_training_examples in H.
  destruct (python_exec code) as [| | | |[[|program]|]] eqn:Hload;
    try discriminate.
  exists program. split; [reflexivity|]. split.
  - apply (passed_iff_all_pass python_exec task code program Hload). eauto.
  - fold train in H.
    destruct (score_examples program train 0) as [k|]; [|discriminate].
    injection H as Hk <-. apply Nat.eqb_eq in Hk. now subst k.
Qed.

(** A candidate with a stateless entry point that is accepted on a list of
    training examples is accepted on every selection of them, in any
    order. *)
Theorem acceptance_survives_removing_examples (task task' : task_data)
    (code : string) :
  (forall program,
      python_exec code = Loaded (Some (Callable program)) ->
      stateless program) ->
  default [] (task' !! "train") ⊆+ default [] (task !! "train") ->
  (exists message,
      passes_training_examples python_exec task code = Some (true, message)) ->
  exists message',
    passes_training_examples python_exec task' code = Some (true, message').
Proof.
  intros Hpure Hsub [message H].
  apply accepted_candidate_passes in H as (program & Hload & Hall).
  pose proof (Hpure program Hload) as Hp.
  apply (passed_iff_all_pass python_exec task' code program Hload).
  apply all_pass_stateless; [exact Hp|].
  apply all_pass_stateless in Hall; [|exact Hp].
  rewrite Forall_forall in *. intros ex Hin. apply Hall.
  eapply elem_of_submseteq; eauto.
Qed.

End Extras.

(** Scoring a concatenation: the tally is the tally of the first part
    plus the tally of the second part, the second part being scored by
    the entry point that the first part leaves. *)
Theorem tally_of_concatenation (program : entry)
    (l1 l2 : list example) (k1 k2 : nat) :
  score_examples program l1 0 = Some k1 ->
  score_examples (entry_after program l1) l2 0 = Some k2 ->
  score_examples program (l1 ++ l2) 0 = Some (k1 + k2).
Proof.
  intros H1 H2. rewrite score_examples_app, H1. simpl.
  clear H1. induction k1 as [|k1 IH]; [exact H2|].
  rewrite score_examples_shift, IH. reflexivity.
Qed.

End ValidatorExtras.

(** ** Further facts about the text operations *)

Module TextMore.

Import Text TextFacts.

Lemma contains_nil pat : contains pat "" = starts_with pat "".
Proof. unfold contains. simpl. now destruct (starts_with pat ""). Qed.

Lemma contains_cons pat c t :
  contains pat (String c t) = starts_with pat (String c t) || contains pat t.
Proof.
  unfold contains. cbn [split_at_first].
  destruct (starts_with pat (String c t)); [reflexivity|].
  now destruct (split_at_first pat t) as [[b a]|].
Qed.

Lemma starts_with_app_r pat x y :
  starts_with pat x = true -> starts_with pat (x +:+ y) = true.
Proof.
  revert x. induction pat as [|a pat IH]; intros x H; [reflexivity|].
  destruct x as [|b x]; [discriminate|]. push_app. simpl in *.
  apply andb_true_iff in H as [-> H]. now rewrite IH.
Qed.

Lemma contains_app_l pat x y :
  contains pat (x +:+ y) = false -> contains pat x = false.
Proof.
  induction x as [|c x IH]; push_app.
  - intros H. rewrite contains_nil.
    destruct pat; [|reflexivity].
    destruct y; rewrite ?contains_nil, ?contains_cons in H; discriminate.
  - rewrite !contains_cons. intros H.
    apply orb_false_iff in H as [Hs Hc]. rewrite (IH Hc), orb_false_r.
    destruct (starts_with pat (String c x)) eqn:Hp; [|reflexivity].
    apply (starts_with_app_r _ _ y) in Hp. rewrite app_cons in Hp. congruence.
Qed.

Lemma contains_app_r pat x y :
  contains pat (x +:+ y) = false -> contains pat y = false.
Proof.
  induction x as [|c x IH]; push_app; [trivial|].
  rewrite contains_cons. intros H.
  apply orb_false_iff in H as [_ Hc]. now apply IH.
Qed.

Lemma lstrip_suffix s : exists w, s = w +:+ lstrip s.
Proof.
  induction s as [|c s [w IH]]; [now exists ""|]. cbn [lstrip].
  destruct (is_space c); [|now exists ""].
  exists (String c w). push_app. now rewrite <- IH.
Qed.

Lemma rstrip_prefix s : exists w, s = rstrip s +:+ w.
Proof.
  induction s as [|c s [w IH]]; [now exists ""|]. cbn [rstrip].
  destruct (rstrip s) as [|d r] eqn:Hr.
  - destruct (is_space c).
    + exists (String c s). reflexivity.
    + exists s. reflexivity.
  - exists w. rewrite app_cons. f_equal. exact IH.
Qed.

Lemma strip_inside s : exists w1 w2, s = w1 +:+ strip s +:+ w2.
Proof.
  destruct (lstrip_suffix s) as [w1 H1].
  destruct (rstrip_prefix (lstrip s)) as [w2 H2].
  exists w1, w2. unfold strip. now rewrite <- H2.
Qed.

Lemma contains_strip pat s :
  contains pat s = false -> contains pat (strip s) = false.
Proof.
  destruct (strip_inside s) as (w1 & w2 & Hs). intros H. rewrite Hs in H.
  apply contains_app_r in H. now apply contains_app_l in H.
Qed.

Lemma length_lstrip s : String.length (lstrip s) <= String.length s.
Proof.
  induction s as [|c s IH]; simpl; [lia|].
  destruct (is_space c); simpl; lia.
Qed.

Lemma length_rstrip s : String.length (rstrip s) <= String.length s.
Proof.
  induction s as [|c s IH]; simpl; [lia|].
  destruct (rstrip s); [destruct (is_space c)|]; simpl in *; lia.
Qed.

Lemma length_strip s : String.length (strip s) <= String.length s.
Proof.
  unfold strip. pose proof (length_rstrip (lstrip s)).
  pose proof (length_lstrip s). lia.
Qed.

Lemma length_re_sub s : forall m, String.length (re_sub m s) <= String.length s.
Proof.
  induction s as [|c s IH]; intros m; [simpl; lia|].
  cbn [re_sub String.length].
  pose proof (IH (Word 5)). pose proof (IH (Plain (is_newline c))).
  pose proof (IH (Spaces (is_newline c))).
  destruct m as [bol|[|k]|nl];
    repeat match goal with
           | |- context [if ?b then _ else _] => destruct b
           end; cbn [String.length]; try lia.
  pose proof (IH (Word k)). lia.
Qed.

Lemma length_first_group opening s body :
  first_group opening s = Some body -> String.length body <= String.length s.
Proof.
  intros H. apply first_group_sound in H as (before & after & ->).
  rewrite !length_app'. lia.
Qed.

(** The same bounds for the number of code points. *)
Lemma len_app (a b : string) : len (a +:+ b) = len a + len b.
Proof.
  induction a as [|c a IH]; [reflexivity|].
  rewrite app_cons. cbn [len]. rewrite IH. lia.
Qed.

Lemma len_strip s : len (strip s) <= len s.
Proof.
  destruct (strip_inside s) as (w1 & w2 & H).
  rewrite H at 2. rewrite !len_app. lia.
Qed.

Lemma len_re_sub s : forall m, len (re_sub m s) <= len s.
Proof.
  induction s as [|c s IH]; intros m; [simpl; lia|].
  cbn [re_sub len].
  pose proof (IH (Word 5)). pose proof (IH (Plain (is_newline c))).
  pose proof (IH (Spaces (is_newline c))).
  destruct (is_continuation c) eqn:Hc;
    destruct m as [bol|[|k]|nl];
    repeat match goal with
           | |- context [if ?b then _ else _] => destruct b
           end; cbn [len]; rewrite ?Hc; try lia.
  all: pose proof (IH (Word k)); lia.
Qed.

Lemma len_first_group opening s body :
  first_group opening s = Some body -> len body <= len s.
Proof.
  intros H. apply first_group_sound in H as (before & after & ->).
  rewrite !len_app. lia.
Qed.

Lemma first_group_eq opening s :
  first_group opening s =
  match (if starts_with opening s
         then split_at_first fence (skip (String.length opening) s)
         else None) with
  | Some (body, _) => Some body
  | None => match s with
            | "" => None
            | String _ s' => first_group opening s'
            end
  end.
Proof. destruct s; reflexivity. Qed.

(** A text that holds an opening, and a fence after it, has a match. *)
Lemma first_group_complete opening before body after :
  is_Some (first_group opening
             (before +:+ opening +:+ body +:+ fence +:+ after)).
Proof.
  induction before as [|c before IH]; push_app.
  - rewrite first_group_eq, starts_with_app, skip_app.
    pose proof (contains_occurrence fence body after) as Hc.
    unfold contains in Hc.
    destruct (split_at_first fence _) as [[b a]|]; [eauto|discriminate].
  - rewrite first_group_eq.
    destruct (if starts_with opening _ then _ else _) as [[b a]|]; eauto.
Qed.

(** No match in a text, no match in any part of it. *)
Lemma first_group_None_inside opening x s y :
  first_group opening (x +:+ s +:+ y) = None -> first_group opening s = None.
Proof.
  intros H. destruct (first_group opening s) as [body|] eqn:Hs; [|reflexivity].
  apply first_group_sound in Hs as (before & after & ->).
  pose proof (first_group_complete opening (x +:+ before) body (after +:+ y))
    as [r Hr].
  rewrite !app_assoc' in *. congruence.
Qed.

(** The text before the leftmost occurrence holds no occurrence. *)
Lemma split_at_first_before pat s :
  pat <> "" ->
  forall before after,
    split_at_first pat s = Some (before, after) ->
    contains pat before = false.
Proof.
  intros Hpat. induction s as [|c s IH]; intros before after H.
  - simpl in H. destruct (starts_with pat ""); [|discriminate].
    injection H as <- _. rewrite contains_nil. now destruct pat.
  - cbn [split_at_first] in H.
    destruct (starts_with pat (String c s)) eqn:Hp.
    + injection H as <- _. rewrite contains_nil. now destruct pat.
    + destruct (split_at_first pat s) as [[b a]|] eqn:Hs; [|discriminate].
      injection H as <- <-. rewrite contains_cons, (IH b a eq_refl), orb_false_r.
      destruct (starts_with pat (String c b)) eqn:Hb; [|reflexivity].
      apply split_at_first_sound in Hs. subst s.
      apply (starts_with_app_r _ _ (pat +:+ a)) in Hb.
      rewrite app_cons in Hb. congruence.
Qed.

(** The group of a match holds no fence. *)
Lemma first_group_body_clean opening :
  forall s body,
    first_group opening s = Some body -> contains fence body = false.
Proof.
  induction s as [|c s IH]; intros body H; rewrite first_group_eq in H.
  - destruct (starts_with opening ""); [|discriminate].
    destruct (split_at_first fence _) as [[b a]|] eqn:Hs; [|discriminate].
    injection H as <-. now apply (split_at_first_before fence _) in Hs.
  - destruct (starts_with opening (String c s)).
    + destruct (split_at_first fence _) as [[b a]|] eqn:Hs; [|now apply IH].
      injection H as <-. now apply (split_at_first_before fence _) in Hs.
    + now apply IH.
Qed.

(** *** The substitution does not create a fence *)

Lemma re_sub_plain_backticks s :
  starts_with "``" (re_sub (Plain false) s) = true ->
  starts_with "``" s = true.
Proof.
  destruct s as [|d [|e s]]; cbn -[Ascii.eqb is_newline]; try discriminate.
  - rewrite andb_false_r. discriminate.
  - destruct (Ascii.eqb_spec "`"%char d) as [<-|]; [|discriminate].
    change (is_newline "`"%char) with false. cbn -[Ascii.eqb is_newline].
    destruct (Ascii.eqb "`"%char e); [reflexivity|discriminate].
Qed.

Lemma starts_with_fence_cons c t :
  starts_with fence (String c t)
  = Ascii.eqb "`"%char c && starts_with "``" t.
Proof. reflexivity. Qed.

Lemma re_sub_clean s :
  forall m, contains fence s = false -> contains fence (re_sub m s) = false.
Proof.
  induction s as [|c s IH]; intros m H; [reflexivity|].
  rewrite contains_cons in H. apply orb_false_iff in H as [Hst Hs].
  assert (Hcopy : contains fence
                    (String c (re_sub (Plain (is_newline c)) s)) = false).
  { rewrite contains_cons, (IH _ Hs), orb_false_r.
    rewrite starts_with_fence_cons in *.
    destruct (Ascii.eqb_spec "`"%char c) as [<-|]; [|reflexivity].
    cbn [andb] in *. change (is_newline "`"%char) with false.
    destruct (starts_with "``" (re_sub (Plain false) s)) eqn:Hb; [|reflexivity].
    apply re_sub_plain_backticks in Hb. congruence. }
  cbn [re_sub].
  destruct m as [bol|[|k]|nl];
    repeat match goal with
           | |- context [if ?b then _ else _] => destruct b
           end; auto.
Qed.

End TextMore.

(** ** Further properties of the extractor *)

Module ExtractorExtras.

Import Text OutputParser Statements TextFacts TextMore ExtractorClaims.

Lemma length_extract_code (raw_output : string) :
  String.length (extract_code raw_output) <= String.length raw_output.
Proof.
  rewrite extract_code_strip.
  etransitivity; [apply length_strip|].
  destruct (first_group "```python" raw_output) as [body|] eqn:Hp.
  - pose proof (length_strip body). apply length_first_group in Hp. lia.
  - destruct (first_group "```" raw_output) as [body|] eqn:Hg.
    + unfold re_sub_python.
      pose proof (length_re_sub (strip body) (Plain true)).
      pose proof (length_strip body). apply length_first_group in Hg. lia.
    + apply length_strip.
Qed.

(** What [extract_code] returns has no whitespace at either end and is no
    longer than the raw text. *)
Theorem extracted_code_is_trimmed_and_no_longer (raw_output : string) :
  trimmed (extract_code raw_output)
  /\ String.length (extract_code raw_output) <= String.length raw_output.
Proof.
  split; [|apply length_extract_code].
  rewrite extract_code_strip. apply strip_trimmed.
Qed.

Lemma len_extract_code (raw_output : string) :
  len (extract_code raw_output) <= len raw_output.
Proof.
  rewrite extract_code_strip.
  etransitivity; [apply len_strip|].
  destruct (first_group "```python" raw_output) as [body|] eqn:Hp.
  - pose proof (len_strip body). apply len_first_group in Hp. lia.
  - destruct (first_group "```" raw_output) as [body|] eqn:Hg.
    + unfold re_sub_python.
      pose proof (len_re_sub (strip body) (Plain true)).
      pose proof (len_strip body). apply len_first_group in Hg. lia.
    + apply len_strip.
Qed.

(** A reply that [validate_code_length] accepts gives a candidate that it
    accepts. *)
Theorem candidate_of_short_reply_is_short (raw_output : string)
    (max_length : nat) :
  CodeValidator.validate_code_length raw_output max_length = true ->
  CodeValidator.validate_code_length (extract_code raw_output) max_length
  = true.
Proof.
  unfold CodeValidator.validate_code_length. intros H.
  apply Nat.leb_le in H. apply Nat.leb_le.
  pose proof (len_extract_code raw_output). lia.
Qed.

Lemma extract_code_clean s :
  contains fence s = false -> extract_code s = strip s.
Proof.
  intros Hc. rewrite extract_code_strip.
  rewrite !(first_group_no_fence _ _ Hc). apply strip_idem.
Qed.

(** Extracting from extracted code changes nothing. *)
Theorem extract_code_idempotent (raw_output : string) :
  extract_code (extract_code raw_output) = extract_code raw_output.
Proof.
  assert (Hclean : forall s, contains fence s = false ->
                             extract_code (strip s) = strip s).
  { intros s Hs. rewrite extract_code_clean by now apply contains_strip.
    apply strip_idem. }
  rewrite (extract_code_strip raw_output).
  destruct (first_group "```python" raw_output) as [body|] eqn:Hp.
  - apply Hclean, contains_strip. now apply first_group_body_clean in Hp.
  - destruct (first_group "```" raw_output) as [body|] eqn:Hg.
    + apply Hclean, re_sub_clean, contains_strip.
      now apply first_group_body_clean in Hg.
    + rewrite strip_idem. rewrite extract_code_strip.
      destruct (strip_inside raw_output) as (w1 & w2 & Hs).
      rewrite Hs in Hp, Hg.
      apply first_group_None_inside in Hp, Hg. rewrite Hp, Hg.
      now rewrite !strip_idem.
Qed.

(** *** Code wrapped in a fenced block *)

Lemma starts_with_app_pat p1 p2 :
  forall s, starts_with (p1 +:+ p2) s
            = starts_with p1 s && starts_with p2 (skip (String.length p1) s).
Proof.
  induction p1 as [|a p1 IH]; intros s; push_app; [reflexivity|].
  destruct s as [|b s]; [reflexivity|]. simpl.
  now rewrite IH, andb_assoc.
Qed.

Lemma backticks_before_line_feed x z :
  starts_with "``" ((x +:+ line_feed) +:+ z) = starts_with "``" (x +:+ line_feed).
Proof.
  destruct x as [|a [|b x]]; reflexivity.
Qed.

Lemma split_at_first_here pat s :
  starts_with pat s = true ->
  split_at_first pat s = Some ("", skip (String.length pat) s).
Proof. intros H. destruct s; simpl; now rewrite H. Qed.

Lemma split_at_first_later pat c s :
  starts_with pat (String c s) = false ->
  split_at_first pat (String c s)
  = match split_at_first pat s with
    | Some (before, after) => Some (String c before, after)
    | None => None
    end.
Proof. intros H. cbn [split_at_first]. now rewrite H. Qed.

Lemma split_at_first_exact x y :
  contains fence (x +:+ line_feed) = false ->
  split_at_first fence ((x +:+ line_feed) +:+ fence +:+ y)
  = Some (x +:+ line_feed, y).
Proof.
  induction x as [|c x IH]; intros H.
  - unfold line_feed. repeat (rewrite app_cons || rewrite app_nil_l).
    rewrite split_at_first_later by reflexivity.
    rewrite split_at_first_here by apply starts_with_app.
    now rewrite skip_app.
  - rewrite !app_cons in *. rewrite contains_cons in H.
    apply orb_false_iff in H as [Hs Hc].
    rewrite split_at_first_later, (IH Hc); [reflexivity|].
    rewrite starts_with_fence_cons in *.
    now rewrite backticks_before_line_feed.
Qed.

Lemma backticks_app_line_feed t :
  starts_with "``" (t +:+ line_feed) = starts_with "``" t.
Proof. destruct t as [|a [|b t]]; reflexivity. Qed.

Lemma contains_fence_line_feed code :
  contains fence code = false ->
  contains fence (line_feed +:+ code +:+ line_feed) = false.
Proof.
  intros H.
  assert (Hr : contains fence (code +:+ line_feed) = false).
  { induction code as [|c code IH]; [reflexivity|].
    rewrite app_cons, contains_cons in *.
    apply orb_false_iff in H as [Hs Hc]. rewrite (IH Hc), orb_false_r.
    rewrite starts_with_fence_cons in *.
    now rewrite backticks_app_line_feed. }
  unfold line_feed at 1. push_app. rewrite contains_cons, Hr. reflexivity.
Qed.


Lemma python_fence_not_before pre rest :
  contains fence pre = false ->
  first_group "```python" (pre +:+ "```python" +:+ rest)
  = first_group "```python" ("```python" +:+ rest).
Proof.
  induction pre as [|c pre IH]; intros H; [reflexivity|].
  rewrite app_cons, contains_cons in *.
  apply orb_false_iff in H as [Hs Hc].
  rewrite first_group_eq.
  assert (Hno : starts_with "```python"
                  (String c (pre +:+ "```python" +:+ rest)) = false).
  { change "```python" with (fence +:+ "python") at 1.
    rewrite starts_with_app_pat.
    destruct pre as [|d [|e pre]].
    - cbn. now rewrite !andb_false_r.
    - cbn. now rewrite !andb_false_r.
    - change (starts_with fence
                (String c (String d (String e pre) +:+ "```python" +:+ rest)))
        with (starts_with fence (String c (String d (String e pre)))).
      now rewrite Hs. }
  rewrite Hno. now apply IH.
Qed.

Lemma lstrip_app_nonempty s t :
  lstrip s = s -> s <> "" -> lstrip (s +:+ t) = s +:+ t.
Proof.
  destruct s as [|c s]; [congruence|]. intros H _.
  rewrite app_cons. cbn [lstrip] in *.
  destruct (is_space c); [|reflexivity].
  pose proof (length_lstrip s) as Hl. rewrite H in Hl. simpl in Hl. lia.
Qed.

Lemma rstrip_app_line_feed s : rstrip (s +:+ line_feed) = rstrip s.
Proof.
  induction s as [|c s IH]; [reflexivity|].
  rewrite app_cons. cbn [rstrip]. now rewrite IH.
Qed.

Lemma strip_between_line_feeds code :
  trimmed code -> strip (line_feed +:+ code +:+ line_feed) = code.
Proof.
  intros [Hl Hr]. unfold strip.
  change (lstrip (line_feed +:+ code +:+ line_feed))
    with (lstrip (code +:+ line_feed)).
  destruct code as [|c code]; [reflexivity|].
  rewrite lstrip_app_nonempty by (auto; discriminate).
  now rewrite rstrip_app_line_feed.
Qed.

(** ASCII code wrapped in a block with the tag [python] comes back as it
    was: the text before the block must hold no fence, and the code must
    be trimmed and hold no fence. *)
Theorem fenced_code_round_trip (pre code post : string) :
  isascii code = true ->
  contains fence pre = false ->
  contains fence code = false ->
  trimmed code ->
  extract_code (pre +:+ "```python" +:+ line_feed +:+ code +:+ line_feed
                  +:+ fence +:+ post)
  = code.
Proof.
  intros _ Hpre Hcode Htrim. rewrite extract_code_strip.
  rewrite python_fence_not_before by assumption.
  rewrite first_group_eq, starts_with_app, skip_app.
  pose proof (contains_fence_line_feed code Hcode) as Hbody.
  rewrite <- (app_assoc' line_feed code line_feed) in Hbody.
  replace (line_feed +:+ code +:+ line_feed +:+ fence +:+ post)
    with (((line_feed +:+ code) +:+ line_feed) +:+ fence +:+ post)
    by now rewrite !app_assoc'.
  rewrite (split_at_first_exact _ post Hbody).
  rewrite app_assoc', strip_idem. now apply strip_between_line_feeds.
Qed.

(** *** The function body *)

Lemma rstrip_cons_nonspace c s :
  is_space c = false -> rstrip (String c s) = String c (rstrip s).
Proof. intros H. cbn [rstrip]. rewrite H. now destruct (rstrip s). Qed.

Lemma rstrip_rest s : exists w, s = rstrip s +:+ w /\ lstrip w = "".
Proof.
  induction s as [|c s (w & IH & Hw)]; [now exists ""|]. cbn [rstrip].
  destruct (rstrip s) as [|d r] eqn:Hr.
  - rewrite app_nil_l in IH. subst w.
    destruct (is_space c) eqn:Hc.
    + exists (String c s). split; [reflexivity|]. cbn [lstrip]. now rewrite Hc.
    + exists s. split; [reflexivity | assumption].
  - exists w. split; [|assumption]. rewrite app_cons. f_equal. exact IH.
Qed.

Lemma search_def_sound s :
  forall group,
    search_def s = Some group ->
    def_header_at group = true /\ exists before, s = before +:+ group.
Proof.
  induction s as [|c s IH]; intros group H; cbn [search_def] in H.
  - destruct (def_header_at "") eqn:Hd; [|discriminate].
    injection H as <-. split; [assumption | now exists ""].
  - destruct (def_header_at (String c s)) eqn:Hd.
    + injection H as <-. split; [assumption | now exists ""].
    + apply IH in H as (Hg & before & ->).
      split; [assumption | now exists (String c before)].
Qed.

Lemma def_header_starts_with_def s :
  def_header_at s = true -> starts_with "def" s = true.
Proof. unfold def_header_at. now destruct (starts_with "def" s). Qed.

(** When [extract_function_body] finds a function in ASCII code, what it
    returns begins with [def], has no whitespace at either end, and is the
    text from some position of the code to its end, short of trailing
    whitespace; and it finds nothing in a text, ASCII or not, without the
    word [def]. *)
Theorem function_body_is_a_trimmed_suffix (code : string) :
  (isascii code = true ->
   forall body,
      extract_function_body code = Some body ->
      starts_with "def" body = true
      /\ trimmed body
      /\ exists before trailing,
           code = before +:+ body +:+ trailing /\ lstrip trailing = "")
  /\ (contains "def" code = false -> extract_function_body code = None).
Proof.
  unfold extract_function_body. split.
  - intros _ body H.
    destruct (search_def code) as [group|] eqn:Hs; [|discriminate].
    injection H as <-.
    apply search_def_sound in Hs as (Hd & before & ->).
    apply def_header_starts_with_def, starts_with_split in Hd.
    remember (skip (String.length "def") group) as rest eqn:Hr.
    clear Hr. subst group.
    assert (Hstrip : strip ("def" +:+ rest) = "def" +:+ rstrip rest).
    { unfold strip.
      change (lstrip ("def" +:+ rest))
        with (String "d" (String "e" (String "f" rest))).
      now rewrite !rstrip_cons_nonspace by reflexivity. }
    rewrite Hstrip.
    split; [reflexivity|].
    split; [rewrite <- Hstrip; apply strip_trimmed|].
    destruct (rstrip_rest rest) as (w & Hw & Hsp).
    exists before, w. split; [|assumption].
    f_equal. rewrite app_assoc'. f_equal. exact Hw.
  - intros Hc. destruct (search_def code) as [group|] eqn:Hs; [|reflexivity].
    apply search_def_sound in Hs as (Hd & before & ->).
    apply def_header_starts_with_def, starts_with_split in Hd.
    rewrite Hd in Hc. now rewrite contains_occurrence in Hc.
Qed.

End ExtractorExtras.

(** ** Further facts about the orchestrator *)

Module PipelineMore.

Import CodeValidator OutputParser PromptBuilder Pipeline.
Import Statements MoreStatements PipelineFacts.

Section Facts.

Variable ast_parse : string -> parse_result.
Variable python_exec : string -> load_result.
Variable json_dumps : list example -> string.
Variable llm : nat -> string -> res string.
Variable max_api_calls : nat.
Variable retry_on_failure : bool.
Variable max_retries : nat.

Abbreviation attempt_body :=
  (attempt_body ast_parse python_exec json_dumps llm retry_on_failure
     max_retries).
Abbreviation attempt_loop :=
  (attempt_loop ast_parse python_exec json_dumps llm retry_on_failure
     max_retries).
Abbreviation solve_task :=
  (solve_task ast_parse python_exec json_dumps llm retry_on_failure
     max_retries).
Abbreviation process_task :=
  (process_task ast_parse python_exec json_dumps llm max_api_calls
     retry_on_failure max_retries).
Abbreviation run_tasks :=
  (run_tasks ast_parse python_exec json_dumps llm max_api_calls
     retry_on_failure max_retries).
Abbreviation attempt_prompt := (attempt_prompt json_dumps).
Abbreviation retry_or_break := (retry_or_break retry_on_failure max_retries).

(** Everything one attempt changes. *)
Lemma attempt_body_effects task_id task train test attempt v w w' v' c :
  attempt_body task_id task train test attempt v w = Some (w', v', c) ->
  let prompt := attempt_prompt task_id attempt train test v in
  requests w' = requests w ++ [prompt] /\
  api_calls w' = api_calls w + answered llm (length (requests w)) [prompt] /\
  exists e row,
    progress w' = progress w ++ [row] /\
    row_task_id row = task_id /\
    row_status row = status_of e /\
    counters w' = counter_of e (counters w) /\
    ((e = EndSuccess /\ c = Break /\ succeeded v' = true /\
      exists raw message,
        llm (length (requests w)) prompt = Ret raw /\
        ast_parse (extract_code raw) = ParseOk /\
        passes_training_examples python_exec task (extract_code raw)
        = Some (true, message) /\
        solutions w' = <[task_id := extract_code raw]> (solutions w))
     \/ (e <> EndSuccess /\ c = retry_or_break attempt /\
         succeeded v' = succeeded v /\ solutions w' = solutions w)).
Proof.
  intros H prompt.
  unfold Pipeline.attempt_body, generate, on_exception, is_syntax_valid in H.
  fold prompt in H. cbn [answered].
  destruct (llm (length (requests w)) prompt) as [raw|msg] eqn:Hllm.
  - destruct (ast_parse (extract_code raw)) as [|m|m] eqn:Hparse.
    + destruct (passes_training_examples python_exec task (extract_code raw))
        as [[[|] message]|] eqn:Hpass; [| |discriminate].
      * injection H as <- <- <-.
        split; [reflexivity|]. split; [simpl; lia|].
        exists EndSuccess. eexists. split_and!; try reflexivity.
        left. split_and!; try reflexivity. exists raw, message. auto.
      * injection H as <- <- <-.
        split; [reflexivity|]. split; [simpl; lia|].
        exists EndFailedValidation. eexists. split_and!; try reflexivity.
        right. split_and!; try reflexivity. discriminate.
    + injection H as <- <- <-.
      split; [reflexivity|]. split; [simpl; lia|].
      exists EndSyntaxError. eexists. split_and!; try reflexivity.
      right. split_and!; try reflexivity. discriminate.
    + injection H as <- <- <-.
      split; [reflexivity|]. split; [simpl; lia|].
      exists EndException. eexists. split_and!; try reflexivity.
      right. split_and!; try reflexivity. discriminate.
  - injection H as <- <- <-.
    split; [reflexivity|]. split; [simpl; lia|].
    exists EndException. eexists. split_and!; try reflexivity.
    right. split_and!; try reflexivity. discriminate.
Qed.

(** A property of worlds kept by every attempt is kept by the loop. *)
Lemma attempt_loop_preserves (P : world -> Prop) task_id task train test :
  (forall attempt v w w' v' c,
      P w ->
      attempt_body task_id task train test attempt v w = Some (w', v', c) ->
      P w') ->
  forall attempts v w w' v',
    P w ->
    attempt_loop task_id task train test attempts v w = Some (w', v') ->
    P w'.
Proof.
  intros Hstep. induction attempts as [|a later IH]; intros v w w' v' HP H;
    simpl in H.
  - now injection H as <- <-.
  - destruct (attempt_body task_id task train test a v w)
      as [[[w1 v1] c]|] eqn:Hb; [|discriminate].
    pose proof (Hstep _ _ _ _ _ _ HP Hb) as HP1.
    destruct c; [eapply (IH v1 w1); eauto | now injection H as <- <-].
Qed.

(** A property of worlds kept by every attempt, and by counting a task as
    skipped or as failed, is kept by the run. *)
Lemma run_tasks_preserves (P : world -> Prop) :
  (forall task_id task train test attempt v w w' v' c,
      P w ->
      attempt_body task_id task train test attempt v w = Some (w', v', c) ->
      P w') ->
  (forall w, P w -> P (bump incr_skipped w)) ->
  (forall w, P w -> P (bump incr_exception w)) ->
  forall tasks w w', P w -> run_tasks tasks w = Some w' -> P w'.
Proof.
  intros Hstep Hskip Hexc.
  induction tasks as [|t later IH]; intros w w' HP H; simpl in H.
  - now injection H as <-.
  - destruct (process_task t w) as [[w1 c]|] eqn:Hp; [|discriminate].
    assert (HP1 : P w1).
    { unfold Pipeline.process_task in Hp.
      destruct (Nat.leb max_api_calls (api_calls w)).
      - now injection Hp as <- <-.
      - destruct (file_exists (file_task_id t) w).
        + injection Hp as <- <-. now apply Hskip.
        + destruct (file_contents t) as [task|msg].
          * destruct (solve_task (file_task_id t) task w)
              as [[w2 v2]|] eqn:Hs; [|discriminate].
            injection Hp as <- <-. unfold Pipeline.solve_task in Hs.
            eapply attempt_loop_preserves; [|exact HP|exact Hs].
            intros; eapply Hstep; eauto.
          * injection Hp as <- <-. now apply Hexc. }
    destruct c; [now apply (IH w1) | now injection H as <-].
Qed.

Lemma answered_app k l1 l2 :
  answered llm k (l1 ++ l2)
  = answered llm k l1 + answered llm (k + length l1) l2.
Proof.
  revert k. induction l1 as [|p l1 IH]; intros k; simpl.
  - now rewrite Nat.add_0_r.
  - rewrite IH. replace (S k + length l1) with (k + S (length l1)) by lia.
    lia.
Qed.

Lemma answered_le k l : answered llm k l <= length l.
Proof.
  revert k. induction l as [|p l IH]; intros k; simpl; [lia|].
  specialize (IH (S k)). destruct (llm k p); lia.
Qed.

(** The loop makes at most one request per attempt, and the call counter
    grows by the number of answered requests. *)
Lemma attempt_loop_calls task_id task train test attempts :
  forall v w w' v',
    attempt_loop task_id task train test attempts v w = Some (w', v') ->
    exists prompts,
      requests w' = requests w ++ prompts /\
      length prompts <= length attempts /\
      api_calls w' = api_calls w + answered llm (length (requests w)) prompts.
Proof.
  induction attempts as [|a later IH]; intros v w w' v' H; simpl in H.
  - injection H as <- <-. exists []. rewrite app_nil_r. simpl.
    split_and!; auto; lia.
  - destruct (attempt_body task_id task train test a v w)
      as [[[w1 v1] c]|] eqn:Hb; [|discriminate].
    apply attempt_body_effects in Hb as (Hreq & Hapi & _).
    destruct c.
    + apply IH in H as (ps & Hq & Hlen & Hcalls).
      exists (attempt_prompt task_id a train test v :: ps).
      rewrite Hq, Hreq, <- app_assoc. split; [reflexivity|].
      split; [simpl; lia|].
      rewrite Hcalls, Hapi, Hreq, length_app. simpl.
      replace (length (requests w) + 1) with (S (length (requests w))) by lia.
      lia.
    + injection H as <- <-.
      exists [attempt_prompt task_id a train test v].
      split_and!; auto; simpl; lia.
Qed.

(** The solutions after the loop: unchanged without a success; with a
    success, the accepted candidate is saved for the task. *)
Lemma attempt_loop_solutions task_id task train test attempts :
  forall v w w' v',
    succeeded v = false ->
    attempt_loop task_id task train test attempts v w = Some (w', v') ->
    (succeeded v' = false /\ solutions w' = solutions w)
    \/ (succeeded v' = true /\
        exists code message,
          ast_parse code = ParseOk /\
          passes_training_examples python_exec task code
          = Some (true, message) /\
          solutions w' = <[task_id := code]> (solutions w)).
Proof.
  induction attempts as [|a later IH]; intros v w w' v' Hv H; simpl in H.
  - injection H as <- <-. now left.
  - destruct (attempt_body task_id task train test a v w)
      as [[[w1 v1] c]|] eqn:Hb; [|discriminate].
    apply attempt_body_effects in Hb
      as (_ & _ & e & row & _ & _ & _ & _ & Hcase).
    destruct Hcase as [(_ & -> & Hs & raw & message & _ & Hp & Hpass & Hsol)
                      |(_ & -> & Hs & Hsol)].
    + injection H as <- <-. right. split; [assumption|]. eauto.
    + destruct (retry_or_break a).
      * rewrite <- Hsol. apply (IH v1 w1); congruence.
      * injection H as <- <-. left. split; congruence.
Qed.

End Facts.

End PipelineMore.

(** ** Further properties of the orchestrator *)

Module PipelineExtras.

Import CodeValidator OutputParser PromptBuilder Pipeline.
Import Statements MoreStatements PipelineFacts PipelineMore.

Section Extras.

Variable ast_parse : string -> parse_result.
Variable python_exec : string -> load_result.
Variable json_dumps : list example -> string.
Variable llm : nat -> string -> res string.
Variable max_api_calls : nat.
Variable retry_on_failure : bool.
Variable max_retries : nat.

Abbreviation attempt_body :=
  (attempt_body ast_parse python_exec json_dumps llm retry_on_failure
     max_retries).
Abbreviation attempt_loop :=
  (attempt_loop ast_parse python_exec json_dumps llm retry_on_failure
     max_retries).
Abbreviation solve_task :=
  (solve_task ast_parse python_exec json_dumps llm retry_on_failure
     max_retries).
Abbreviation process_task :=
  (process_task ast_parse python_exec json_dumps llm max_api_calls
     retry_on_failure max_retries).
Abbreviation run_tasks :=
  (run_tasks ast_parse python_exec json_dumps llm max_api_calls
     retry_on_failure max_retries).
Abbreviation run_pipeline :=
  (run_pipeline ast_parse python_exec json_dumps llm max_api_calls
     retry_on_failure max_retries).

(** What processing one task file does to the solutions and the calls. *)
Lemma process_task_effects t w w1 c :
  process_task t w = Some (w1, c) ->
  (requests w1 = requests w /\ api_calls w1 = api_calls w /\
   solutions w1 = solutions w)
  \/ (api_calls w < max_api_calls /\
      solutions w !! file_task_id t = None /\
      exists task v1, file_contents t = Ret task /\
        solve_task (file_task_id t) task w = Some (w1, v1)).
Proof.
  unfold Pipeline.process_task, file_exists. intros H.
  destruct (Nat.leb max_api_calls (api_calls w)) eqn:Hb.
  - injection H as <- <-. now left.
  - apply Nat.leb_gt in Hb.
    destruct (bool_decide (is_Some (solutions w !! file_task_id t))) eqn:Hex.
    + injection H as <- <-. now left.
    + apply bool_decide_eq_false in Hex.
      destruct (file_contents t) as [task|msg].
      * destruct (solve_task (file_task_id t) task w) as [[w2 v2]|] eqn:Hs;
          [|discriminate].
        injection H as <- <-. right. split; [assumption|]. split.
        -- destruct (solutions w !! file_task_id t) eqn:Hl; [|reflexivity].
           exfalso. apply Hex. eauto.
        -- eauto.
      * injection H as <- <-. now left.
Qed.

(** The call counter is the number of requests that the service answered,
    all along the run. *)
Theorem call_counter_counts_answered_requests
    (task_paths : list task_file) (existing : gmap nat string) (w : world) :
  run_pipeline task_paths existing = Some w ->
  api_calls w = answered llm 0 (requests w)
  /\ api_calls w <= length (requests w).
Proof.
  intros H. unfold Pipeline.run_pipeline in H.
  assert (Hinv : api_calls w = answered llm 0 (requests w)).
  { revert H. apply (run_tasks_preserves ast_parse python_exec json_dumps llm
                       max_api_calls retry_on_failure max_retries
                       (fun w => api_calls w = answered llm 0 (requests w)));
      [| auto | auto | reflexivity].
    intros task_id task train test attempt v w0 w' v' c HP Hb.
    apply attempt_body_effects in Hb as (Hreq & Hapi & _).
    rewrite Hapi, Hreq, answered_app, HP. reflexivity. }
  split; [assumption|]. rewrite Hinv. apply answered_le.
Qed.

Lemma solve_task_solutions (task_id : nat) (task : task_data)
    (w w' : world) (v' : locals) :
  solve_task task_id task w = Some (w', v') ->
  (succeeded v' = false /\ solutions w' = solutions w)
  \/ (succeeded v' = true /\
      exists code message,
        ast_parse code = ParseOk /\
        passes_training_examples python_exec task code
        = Some (true, message) /\
        solutions w' = <[task_id := code]> (solutions w)).
Proof.
  unfold Pipeline.solve_task. intros H.
  now apply attempt_loop_solutions in H.
Qed.

(** The solution of a task is written exactly when the loop succeeded, and
    what is written is a candidate that parsed and passed validation. *)
Theorem solution_saved_iff_accepted (task_id : nat) (task : task_data)
    (w w' : world) (v' : locals) :
  solve_task task_id task w = Some (w', v') ->
  (succeeded v' = true ->
   exists code message,
     ast_parse code = ParseOk /\
     passes_training_examples python_exec task code = Some (true, message) /\
     solutions w' = <[task_id := code]> (solutions w))
  /\ (succeeded v' = false -> solutions w' = solutions w).
Proof.
  intros H. apply solve_task_solutions in H.
  destruct H as [[Hf Hs]|[Ht Hs]]; split; intros Hv; try congruence.
Qed.

(** The run only adds to the solutions. *)
Lemma run_tasks_solutions_grow (tasks : list task_file) (w w' : world) :
  run_tasks tasks w = Some w' -> solutions w ⊆ solutions w'.
Proof.
  revert w. induction tasks as [|t later IH]; intros w H; simpl in H.
  - now injection H as <-.
  - destruct (process_task t w) as [[w1 c]|] eqn:Hp; [|discriminate].
    assert (Hl1 : solutions w ⊆ solutions w1).
    { apply process_task_effects in Hp
        as [(_ & _ & ->)|(_ & Hnone & task & v1 & _ & Hs)]; [reflexivity|].
      apply solve_task_solutions in Hs
        as [(_ & ->)|(_ & c1 & m1 & _ & _ & ->)]; [reflexivity|].
      now apply insert_subseteq. }
    destruct c.
    + etransitivity; [exact Hl1 | now apply IH].
    + now injection H as <-.
Qed.

(** The run never removes or replaces a solution file. *)
Theorem run_keeps_existing_solutions (tasks : list task_file)
    (w w' : world) (task_id : nat) (code : string) :
  run_tasks tasks w = Some w' ->
  solutions w !! task_id = Some code ->
  solutions w' !! task_id = Some code.
Proof.
  intros H Hl. apply run_tasks_solutions_grow in H.
  exact (lookup_weaken _ _ _ _ Hl H).
Qed.

(** Every solution file that the run adds belongs to one of the task files
    and holds a candidate that parsed and passed validation on that task. *)
Theorem run_saves_only_accepted_candidates (tasks : list task_file)
    (w w' : world) (task_id : nat) (code : string) :
  run_tasks tasks w = Some w' ->
  solutions w !! task_id = None ->
  solutions w' !! task_id = Some code ->
  exists t task message,
    In t tasks /\ file_task_id t = task_id /\
    file_contents t = Ret task /\
    ast_parse code = ParseOk /\
    passes_training_examples python_exec task code = Some (true, message).
Proof.
  revert w. induction tasks as [|t later IH]; intros w H Hnone Hl; simpl in H.
  - injection H as <-. congruence.
  - destruct (process_task t w) as [[w1 c]|] eqn:Hp; [|discriminate].
    assert (Hrest : run_tasks (match c with Continue => later | Break => [] end)
                      w1 = Some w') by now destruct c.
    destruct (solutions w1 !! task_id) as [code1|] eqn:Hl1.
    + assert (code1 = code) as ->.
      { destruct c.
        - apply run_tasks_solutions_grow in H.
          pose proof (lookup_weaken _ _ _ _ Hl1 H). congruence.
        - injection H as <-. congruence. }
      apply process_task_effects in Hp
        as [(_ & _ & Hsame)|(_ & _ & task & v1 & Ht & Hs)]; [congruence|].
      apply solve_task_solutions in Hs
        as [(_ & Hko)|(_ & c1 & m1 & Hparse & Hpass & Hsol)];
        [rewrite Hko in Hl1; congruence|].
      rewrite Hsol in Hl1.
      destruct (decide (file_task_id t = task_id)) as [Heq|Hne].
      * rewrite Heq, lookup_insert_eq in Hl1. injection Hl1 as ->.
        exists t, task, m1. split_and!; auto. now left.
      * rewrite lookup_insert_ne in Hl1 by assumption. congruence.
    + destruct c; [|injection H as <-; congruence].
      destruct (IH w1 H Hl1 Hl) as (t' & task & message & Hin & Hrest').
      exists t', task, message. split; [now right | assumption].
Qed.

(** With retries disabled, a task costs exactly one request. *)
Theorem one_request_without_retries (task_id : nat) (task : task_data)
    (w w' : world) (v' : locals) :
  retry_on_failure = false ->
  solve_task task_id task w = Some (w', v') ->
  exists prompt, requests w' = requests w ++ [prompt].
Proof.
  intros Hretry. unfold Pipeline.solve_task.
  rewrite Nat.add_1_r. cbn [seq Pipeline.attempt_loop].
  destruct (attempt_body _ _ _ _ _ _ _) as [[[w1 v1] c]|] eqn:Hb;
    [|discriminate].
  pose proof Hb as He.
  apply attempt_body_effects in He as (Hreq & _ & e & row & _ & _ & _ & _ & Hc).
  assert (c = Break) as ->.
  { destruct Hc as [(_ & -> & _)|(_ & -> & _)]; [reflexivity|].
    unfold Pipeline.retry_or_break. now rewrite Hretry. }
  intros H. injection H as <- <-. eauto.
Qed.

(** One task file costs at most [max_retries + 1] requests, and is started
    only below the budget. *)
Lemma process_task_calls t w w1 c :
  process_task t w = Some (w1, c) ->
  length (requests w1) <= length (requests w) + (max_retries + 1)
  /\ (api_calls w1 = api_calls w
      \/ (api_calls w < max_api_calls
          /\ api_calls w1 <= api_calls w + (max_retries + 1))).
Proof.
  intros H. apply process_task_effects in H
    as [(-> & -> & _)|(Hlt & _ & task & v1 & _ & Hs)].
  - split; [lia | now left].
  - unfold Pipeline.solve_task in Hs.
    apply attempt_loop_calls in Hs as (ps & -> & Hlen & ->).
    rewrite length_seq in Hlen. rewrite length_app.
    pose proof (answered_le llm (length (requests w)) ps).
    split; [lia | right; lia].
Qed.

Lemma run_tasks_calls tasks :
  forall w w',
    run_tasks tasks w = Some w' ->
    length (requests w')
    <= length (requests w) + length tasks * (max_retries + 1)
    /\ (api_calls w <= max_api_calls + max_retries ->
        api_calls w' <= max_api_calls + max_retries).
Proof.
  induction tasks as [|t later IH]; intros w w' H; simpl in H.
  - injection H as <-. simpl. lia.
  - destruct (process_task t w) as [[w1 c]|] eqn:Hp; [|discriminate].
    apply process_task_calls in Hp as [Hreq Hapi].
    destruct c.
    + apply IH in H as [Hr Ha]. simpl. split; [lia|].
      intros Hw. apply Ha. destruct Hapi as [->|[? ?]]; lia.
    + injection H as <-. simpl. split; [lia|].
      intros Hw. destruct Hapi as [->|[? ?]]; lia.
Qed.

(** The budget is checked between tasks only: the run ends with at most
    [max_api_calls + max_retries] answered calls, and with at most
    [max_api_calls * (max_retries + 1)] requests. *)
Theorem budget_overshoot_is_bounded
    (task_paths : list task_file) (existing : gmap nat string) (w : world) :
  run_pipeline task_paths existing = Some w ->
  api_calls w <= max_api_calls + max_retries
  /\ length (requests w) <= max_api_calls * (max_retries + 1).
Proof.
  unfold Pipeline.run_pipeline. intros H.
  apply run_tasks_calls in H as [Hr Ha]. simpl in *. split.
  - apply Ha. lia.
  - etransitivity; [exact Hr|]. apply Nat.mul_le_mono_r.
    rewrite length_take. lia.
Qed.

(** A run over task files that all have a solution makes no request and
    changes no file: it only counts the task files it looks at as
    skipped. *)
Theorem run_over_solved_tasks_makes_no_request
    (task_paths : list task_file) (existing : gmap nat string) :
  Forall (fun t => is_Some (existing !! file_task_id t)) task_paths ->
  exists w,
    run_pipeline task_paths existing = Some w
    /\ requests w = [] /\ api_calls w = 0
    /\ solutions w = existing /\ progress w = []
    /\ skipped (counters w) = Nat.min (length task_paths) max_api_calls
    /\ success (counters w) = 0 /\ exception (counters w) = 0.
Proof.
  intros Hall. unfold Pipeline.run_pipeline.
  assert (Hgen : forall l w0,
             Forall (fun t => is_Some (solutions w0 !! file_task_id t)) l ->
             api_calls w0 = 0 -> (l = [] \/ 0 < max_api_calls) ->
             exists w,
               run_tasks l w0 = Some w
               /\ requests w = requests w0 /\ api_calls w = 0
               /\ solutions w = solutions w0 /\ progress w = progress w0
               /\ skipped (counters w) = skipped (counters w0) + length l
               /\ success (counters w) = success (counters w0)
               /\ exception (counters w) = exception (counters w0)).
  { induction l as [|t l IH]; intros w0 Hl Hz Hmax.
    - exists w0. simpl. split_and!; auto.
    - destruct Hmax as [|Hmax]; [discriminate|].
      inversion Hl as [|? ? Ht Hl']; subst.
      cbn [Pipeline.run_tasks]. unfold Pipeline.process_task, file_exists.
      replace (Nat.leb max_api_calls (api_calls w0)) with false
        by (symmetry; apply Nat.leb_gt; lia).
      rewrite (bool_decide_eq_true_2 _ Ht).
      destruct (IH (bump incr_skipped w0)) as (w & Hrun & Hr & Ha & Hs & Hp
                                               & Hk & Hsu & Hex); auto.
      exists w. split; [exact Hrun|]. rewrite Hr, Ha, Hs, Hp, Hk, Hsu, Hex.
      simpl. split_and!; auto; lia. }
  destruct (Hgen (take max_api_calls task_paths)
              (mk_world 0 [] existing ∅ [] empty_stats)) as (w & Hrun & Hrest).
  - apply Forall_take. exact Hall.
  - reflexivity.
  - destruct max_api_calls; [left; apply take_0 | right; lia].
  - exists w. split; [exact Hrun|].
    destruct Hrest as (-> & -> & -> & -> & -> & -> & ->).
    simpl. rewrite length_take. split_and!; auto; lia.
Qed.

End Extras.

End PipelineExtras.

(** ** The progress log read back: facts *)

Module ProgressFacts.

Import Text Pipeline Statements MoreStatements PipelineMore.
Import ProgressTracker LogStatements.

Lemma count_status_total st status :
  total (count_status st status) = S (total st)
  /\ classified st <= classified (count_status st status)
  /\ classified (count_status st status) <= S (classified st).
Proof.
  unfold count_status, classified.
  repeat match goal with
         | |- context [if ?b then _ else _] => destruct b
         end; simpl; lia.
Qed.

(** Every row that [get_stats] reads is counted in [total] and in at most
    one of the four other counters. *)
Theorem get_stats_counts_each_row_once (rows : list (list string))
    (st : log_stats) :
  get_stats (Some rows) = Ret (Some st) ->
  total st = length (filter (fun row => row <> []) rows)
  /\ success st + failed_syntax st + failed_validation st
     + failed_exception st <= total st.
Proof.
  unfold get_stats.
  destruct (count_rows rows (mk_log_stats 0 0 0 0 0)) as [st'|] eqn:Hc;
    [|discriminate].
  intros H. injection H as <-.
  assert (Hgen : forall rows st0 st1,
             count_rows rows st0 = Ret st1 ->
             total st1 = total st0 + length (filter (fun row => row <> []) rows)
             /\ classified st1 + total st0 <= classified st0 + total st1).
  { clear. induction rows as [|row rows IH]; intros st0 st1 H.
    - injection H as <-. simpl. lia.
    - destruct row as [|f row].
      + apply IH in H. rewrite filter_cons_False by auto. exact H.
      + cbn [count_rows] in H.
        destruct (dict_reader header (f :: row) !! "status") as [[s|]|];
          try discriminate.
        apply IH in H as [Ht Hc].
        rewrite filter_cons_True by discriminate.
        pose proof (count_status_total st0 s) as (H1 & H2 & H3).
        simpl. lia. }
  apply Hgen in Hc as [Ht Hc]. fold (classified st'). simpl in *. lia.
Qed.

(** A row written by [log] and read back with the header of the file: the
    status comes back under [status], but the header names seven columns
    and the row has six fields, so the details come back under [api_calls]
    and the column [details] is empty. *)
Theorem logged_row_read_back (timestamp : string) (row : log_row) :
  let d := dict_reader header (fields timestamp row) in
  d !! "timestamp" = Some (Some timestamp)
  /\ d !! "task_id" = Some (Some (pretty (row_task_id row)))
  /\ d !! "status" = Some (Some (row_status row))
  /\ d !! "code_length" = Some (Some (pretty (row_code_length row)))
  /\ d !! "validation_passed"
     = Some (Some (py_bool (row_validation_passed row)))
  /\ d !! "api_calls" = Some (Some (row_details row))
  /\ d !! "details" = Some None.
Proof. split_and!; reflexivity. Qed.

Lemma foldl_insert_other (k : string) (l : list (string * option string)) :
  forall d : gmap string (option string),
    Forall (fun kv => fst kv <> k) l ->
    foldl (fun d kv => <[fst kv := snd kv]> d) d l !! k = d !! k.
Proof.
  induction l as [|kv l IH]; intros d Hl; [reflexivity|].
  inversion Hl as [|? ? Hkv Hrest]; subst. cbn [foldl].
  rewrite IH by assumption. now apply lookup_insert_ne.
Qed.

Lemma zip_keys_other (k : string) (names : list string)
    (values : list (option string)) :
  Forall (fun name => name <> k) names ->
  Forall (fun kv : string * option string => fst kv <> k) (zip names values).
Proof.
  intros Hn. revert values.
  induction Hn as [|name names Hname Hnames IH]; intros [|v values]; cbn;
    constructor; auto.
Qed.

(** A row whose third field is [status] has it under [status]. *)
Lemma dict_reader_status (row : list string) (status : string) :
  row !! 2 = Some status ->
  dict_reader header row !! "status" = Some (Some status).
Proof.
  destruct row as [|f1 [|f2 [|f3 rest]]]; try discriminate.
  intros H. injection H as ->.
  unfold dict_reader, header.
  remember (replicate _ None) as pad eqn:Hpad. clear Hpad. cbn [map app].
  change (zip _ (Some f1 :: Some f2 :: Some status :: ?values))
    with (("timestamp", Some f1) :: ("task_id", Some f2)
          :: ("status", Some status)
          :: zip ["code_length"; "validation_passed"; "api_calls"; "details"]
               (map Some rest ++ pad)).
  cbn [foldl fst snd].
  rewrite foldl_insert_other.
  - now rewrite lookup_insert.
  - apply zip_keys_other. repeat constructor; discriminate.
Qed.

Lemma csv_rows_read_with_status clock rows :
  forall k, Forall2 read_with_status (csv_rows clock k rows) rows.
Proof.
  induction rows as [|row rows IH]; intros k; constructor; auto.
  reflexivity.
Qed.

Lemma count_rows_of_log rows_read rows :
  Forall2 read_with_status rows_read rows ->
  forall st,
    count_rows rows_read st = Ret (count_statuses (map row_status rows) st).
Proof.
  induction 1 as [|read row rows_read rows Hread Hrest IH]; intros st;
    [reflexivity|].
  cbn [map count_statuses foldl].
  pose proof (dict_reader_status _ _ Hread) as Hd.
  destruct read as [|f read]; [discriminate|].
  cbn [count_rows]. rewrite Hd. apply IH.
Qed.

Lemma count_statuses_snoc statuses s st :
  count_statuses (statuses ++ [s]) st
  = count_status (count_statuses statuses st) s.
Proof. unfold count_statuses. now rewrite foldl_app. Qed.

Lemma count_status_of e st :
  count_status st (status_of e)
  = match e with
    | EndSuccess =>
        mk_log_stats (S (total st)) (S (ProgressTracker.success st))
          (failed_syntax st) (failed_validation st) (failed_exception st)
    | EndSyntaxError =>
        mk_log_stats (S (total st)) (ProgressTracker.success st)
          (S (failed_syntax st)) (failed_validation st) (failed_exception st)
    | EndFailedValidation =>
        mk_log_stats (S (total st)) (ProgressTracker.success st)
          (failed_syntax st) (S (failed_validation st)) (failed_exception st)
    | EndException =>
        mk_log_stats (S (total st)) (ProgressTracker.success st)
          (failed_syntax st) (failed_validation st) (S (failed_exception st))
    end.
Proof. destruct e; reflexivity. Qed.

Section Run.

Variable ast_parse : string -> parse_result.
Variable python_exec : string -> load_result.
Variable json_dumps : list example -> string.
Variable llm : nat -> string -> res string.
Variable max_api_calls : nat.
Variable retry_on_failure : bool.
Variable max_retries : nat.

Abbreviation run_pipeline :=
  (run_pipeline ast_parse python_exec json_dumps llm max_api_calls
     retry_on_failure max_retries).

(** When the rows logged by a run are read back with their statuses, the
    statistics of [get_stats] agree with the counters of the run's summary
    on successes, syntax errors and failed validations, and [total] is the
    number of requests; the exceptions of the log are at most those of the
    summary, which also counts the task files that could not be
    processed. *)
Theorem log_statistics_agree_with_summary
    (task_paths : list task_file) (existing : gmap nat string) (w : world)
    (rows_read : list (list string)) :
  run_pipeline task_paths existing = Some w ->
  Forall2 read_with_status rows_read (progress w) ->
  exists st,
    get_stats (Some rows_read) = Ret (Some st)
    /\ total st = length (requests w)
    /\ ProgressTracker.success st = Pipeline.success (counters w)
    /\ failed_syntax st = syntax_error (counters w)
    /\ failed_validation st = validation_failed (counters w)
    /\ failed_exception st <= exception (counters w).
Proof.
  intros H Hread. unfold Pipeline.run_pipeline in H.
  set (st_of := fun w : world =>
         count_statuses (map row_status (progress w)) (mk_log_stats 0 0 0 0 0)).
  assert (Hinv : total (st_of w) = length (requests w)
                 /\ ProgressTracker.success (st_of w)
                    = Pipeline.success (counters w)
                 /\ failed_syntax (st_of w) = syntax_error (counters w)
                 /\ failed_validation (st_of w)
                    = validation_failed (counters w)
                 /\ failed_exception (st_of w) <= exception (counters w)).
  { revert H.
    apply (run_tasks_preserves ast_parse python_exec json_dumps llm
             max_api_calls retry_on_failure max_retries
             (fun w => total (st_of w) = length (requests w)
                 /\ ProgressTracker.success (st_of w)
                    = Pipeline.success (counters w)
                 /\ failed_syntax (st_of w) = syntax_error (counters w)
                 /\ failed_validation (st_of w)
                    = validation_failed (counters w)
                 /\ failed_exception (st_of w) <= exception (counters w))).
    - intros task_id task train test attempt v w0 w' v' c HP Hb.
      apply attempt_body_effects in Hb
        as (Hreq & _ & e & row & Hprog & _ & Hstatus & Hcount & _).
      unfold st_of in *. rewrite Hprog, map_app. cbn [map].
      rewrite count_statuses_snoc, Hstatus, count_status_of, Hreq, Hcount,
        length_app.
      destruct HP as (H1 & H2 & H3 & H4 & H5).
      destruct e; cbn; split_and!; lia.
    - intros w0 HP. exact HP.
    - intros w0 (H1 & H2 & H3 & H4 & H5). unfold st_of in *. cbn.
      split_and!; auto.
    - cbn. split_and!; auto. }
  exists (st_of w). split; [|exact Hinv].
  unfold get_stats. now rewrite (count_rows_of_log _ _ Hread).
Qed.

End Run.

End ProgressFacts.

(** ** File names and paths: facts *)

Module PathFacts.

Import Text TextFacts Paths TaskManager FileWriter PathStatements.

Lemma app_nil_r' (a : string) : a +:+ "" = a.
Proof. induction a as [|c a IH]; [reflexivity|]. now rewrite app_cons, IH. Qed.

Lemma parse_from_app a b acc :
  parse_from acc (a +:+ b) = parse_from (parse_from acc a) b.
Proof.
  revert acc. induction a as [|c a IH]; intros acc; [reflexivity|].
  rewrite app_cons. cbn [parse_from]. apply IH.
Qed.

Lemma all_digits_app a b :
  all_digits (a +:+ b) = all_digits a && all_digits b.
Proof.
  induction a as [|c a IH]; [reflexivity|].
  rewrite app_cons. cbn [all_digits]. rewrite IH. apply andb_assoc.
Qed.

Lemma pretty_N_char_digit d :
  (d < 10)%N ->
  is_digit (pretty_N_char d) = true
  /\ (N.of_nat (nat_of_ascii (pretty_N_char d)) - 48)%N = d.
Proof.
  intros Hd.
  assert (d = 0 \/ d = 1 \/ d = 2 \/ d = 3 \/ d = 4 \/ d = 5 \/ d = 6
          \/ d = 7 \/ d = 8 \/ d = 9)%N as Hcases by lia.
  repeat (destruct Hcases as [->|Hcases]; [split; reflexivity|]).
  subst. split; reflexivity.
Qed.

(** The digits that [pretty] puts in front of its accumulator. *)
Lemma pretty_N_go_digits (x : N) :
  exists digits,
    (forall s, pretty_N_go x s = digits +:+ s)
    /\ all_digits digits = true
    /\ parse_from 0 digits = x
    /\ ((0 < x)%N -> digits <> "").
Proof.
  induction (N.lt_wf_0 x) as [x _ IH].
  destruct (N.eq_dec x 0%N) as [->|Hx].
  - exists "". split_and!; auto; lia.
  - assert (0 < x)%N as Hpos by lia.
    destruct (IH (x `div` 10)%N) as (ds & Hgo & Hall & Hval & _).
    { now apply N.div_lt. }
    pose proof (pretty_N_char_digit (x `mod` 10)%N) as [Hdig Hv].
    { now apply N.mod_lt. }
    exists (ds +:+ String (pretty_N_char (x `mod` 10)) "").
    split_and!.
    + intros s. rewrite pretty_N_go_step, Hgo, app_assoc' by assumption.
      now rewrite app_cons, app_nil_l.
    + rewrite all_digits_app, Hall. cbn [all_digits]. now rewrite Hdig.
    + rewrite parse_from_app, Hval. cbn [parse_from]. rewrite Hv.
      pose proof (N.div_mod x 10). lia.
    + intros _. destruct ds; discriminate.
Qed.

Lemma pretty_N_digits (x : N) :
  all_digits (pretty x) = true /\ parse_from 0 (pretty x) = x
  /\ pretty x <> "".
Proof.
  unfold pretty, pretty_N. destruct (decide (x = 0%N)) as [->|Hx].
  - split_and!; auto; discriminate.
  - destruct (pretty_N_go_digits x) as (ds & Hgo & Hall & Hval & Hne).
    rewrite Hgo, app_nil_r'. split_and!; auto. apply Hne. lia.
Qed.

Lemma all_digits_zeros k : all_digits (zeros k) = true.
Proof. induction k; [reflexivity|]. exact IHk. Qed.

Lemma parse_from_zeros k s : parse_from 0 (zeros k +:+ s) = parse_from 0 s.
Proof. induction k; [reflexivity|]. cbn [zeros]. now rewrite app_cons. Qed.

(** The digits before a character that is not one. *)
Lemma digits_prefix_app digits c rest :
  all_digits digits = true -> is_digit c = false ->
  digits_prefix (digits +:+ String c rest) = (digits, String c rest).
Proof.
  intros Hall Hc. induction digits as [|d digits IH].
  - rewrite app_nil_l. cbn [digits_prefix]. now rewrite Hc.
  - cbn [all_digits] in Hall. apply andb_prop in Hall as [Hd Hall].
    rewrite app_cons. cbn [digits_prefix]. now rewrite Hd, IH.
Qed.

Lemma digits_prefix_before c a b :
  is_digit c = false ->
  digits_prefix (a +:+ String c b)
  = (fst (digits_prefix a), snd (digits_prefix a) +:+ String c b).
Proof.
  intros Hc. induction a as [|d a IH].
  - rewrite app_nil_l. cbn [digits_prefix]. now rewrite Hc.
  - rewrite app_cons. cbn [digits_prefix]. destruct (is_digit d).
    + rewrite IH. now destruct (digits_prefix a).
    + reflexivity.
Qed.

Lemma starts_with_before pat c a b :
  has_char c pat = false ->
  starts_with pat (a +:+ String c b) = starts_with pat a.
Proof.
  revert a. induction pat as [|p pat IH]; intros a Hc; [now destruct a|].
  cbn [has_char] in Hc. apply orb_false_elim in Hc as [Hp Hc].
  destruct a as [|d a].
  - rewrite app_nil_l. cbn [starts_with]. rewrite Ascii.eqb_sym, Hp.
    reflexivity.
  - rewrite app_cons. cbn [starts_with]. now rewrite IH.
Qed.

Lemma skip_before n a b :
  n <= String.length a -> skip n (a +:+ b) = skip n a +:+ b.
Proof.
  revert a. induction n as [|n IH]; intros a Hn; [reflexivity|].
  destruct a as [|d a]; [simpl in Hn; lia|].
  rewrite app_cons. cbn [skip]. apply IH. simpl in Hn. lia.
Qed.

Lemma starts_with_length pat s :
  starts_with pat s = true -> String.length pat <= String.length s.
Proof.
  revert s. induction pat as [|p pat IH]; intros s H; [simpl; lia|].
  destruct s as [|c s]; [discriminate|].
  cbn [starts_with] in H. apply andb_prop in H as [_ H].
  apply IH in H. simpl. lia.
Qed.

(** A match never runs over a slash. *)
Lemma task_number_at_before a b :
  task_number_at (a +:+ String "/" b) = task_number_at a.
Proof.
  unfold task_number_at.
  rewrite (starts_with_before "task") by reflexivity.
  destruct (starts_with "task" a) eqn:Ht; [|reflexivity].
  apply starts_with_length in Ht.
  rewrite skip_before by exact Ht.
  rewrite digits_prefix_before by reflexivity.
  destruct (digits_prefix (skip 4 a)) as [digits rest]. cbn [fst snd].
  destruct digits; [reflexivity|].
  now rewrite (starts_with_before ".json") by reflexivity.
Qed.

Lemma search_task_before a b :
  search_task (a +:+ String "/" b)
  = match search_task a with
    | Some digits => Some digits
    | None => search_task b
    end.
Proof.
  induction a as [|c a IH].
  - rewrite app_nil_l. reflexivity.
  - rewrite app_cons.
    change (search_task (String c (a +:+ String "/" b)))
      with (match task_number_at (String c (a +:+ String "/" b)) with
            | Some digits => Some digits
            | None => search_task (a +:+ String "/" b)
            end).
    change (search_task (String c a))
      with (match task_number_at (String c a) with
            | Some digits => Some digits
            | None => search_task a
            end).
    rewrite <- app_cons, task_number_at_before.
    destruct (task_number_at (String c a)); [reflexivity|]. exact IH.
Qed.

Lemma ends_with_slash_inv a :
  ends_with_slash a = true -> exists a', a = a' +:+ "/".
Proof.
  induction a as [|c a IH]; [discriminate|].
  destruct a as [|d a].
  - cbn [ends_with_slash]. intros H. apply Ascii.eqb_eq in H as ->.
    now exists "".
  - intros H. destruct (IH H) as [a' ->]. exists (String c a').
    now rewrite app_cons.
Qed.

(** Searching a joined path: the directory first, then the name. *)
Lemma search_task_join dir name :
  starts_with "/" name = false ->
  search_task (path_join dir name)
  = match search_task dir with
    | Some digits => Some digits
    | None => search_task name
    end.
Proof.
  intros Hname. unfold path_join. rewrite Hname.
  destruct dir as [|c dir]; [reflexivity|].
  cbn [String.length Nat.eqb orb].
  destruct (ends_with_slash (String c dir)) eqn:Hslash.
  - apply ends_with_slash_inv in Hslash as [a ->].
    rewrite app_assoc'.
    change ("/" +:+ name) with (String "/" name).
    change (a +:+ "/") with (a +:+ String "/" "").
    rewrite !search_task_before.
    destruct (search_task a); reflexivity.
  - change ("/" +:+ name) with (String "/" name).
    rewrite search_task_before. reflexivity.
Qed.

Lemma search_task_no_t s : has_char "t" s = false -> search_task s = None.
Proof.
  induction s as [|c s IH]; intros H; [reflexivity|].
  cbn [has_char] in H. apply orb_false_elim in H as [Hc H].
  cbn [search_task]. unfold task_number_at. cbn [starts_with].
  rewrite Hc. cbn [andb]. now apply IH.
Qed.

Lemma has_char_app c a b :
  has_char c (a +:+ b) = has_char c a || has_char c b.
Proof.
  induction a as [|d a IH]; [reflexivity|].
  rewrite app_cons. cbn [has_char]. rewrite IH. apply orb_assoc.
Qed.

Lemma has_char_digits s : all_digits s = true -> has_char "t" s = false.
Proof.
  induction s as [|c s IH]; intros H; [reflexivity|].
  cbn [all_digits] in H. apply andb_prop in H as [Hc H].
  cbn [has_char]. rewrite IH by assumption.
  destruct (Ascii.eqb "t" c) eqn:Ht; [|reflexivity].
  apply Ascii.eqb_eq in Ht as <-. discriminate.
Qed.

(** The number in the name of a task file. *)
Lemma search_task_name (sign digits : string) :
  (sign = "" \/ sign = "-") ->
  all_digits digits = true -> digits <> "" ->
  search_task ("task" +:+ sign +:+ digits +:+ ".json")
  = if String.eqb sign "" then Some digits else None.
Proof.
  intros Hsign Hall Hne.
  assert (Hrest : search_task ("ask" +:+ sign +:+ digits +:+ ".json")
                  = None).
  { apply search_task_no_t. rewrite !has_char_app.
    rewrite (has_char_digits digits) by assumption.
    destruct Hsign as [-> | ->]; reflexivity. }
  change ("task" +:+ sign +:+ digits +:+ ".json")
    with (String "t" ("ask" +:+ sign +:+ digits +:+ ".json")).
  cbn [search_task]. rewrite Hrest.
  unfold task_number_at.
  change (starts_with "task"
            (String "t" ("ask" +:+ sign +:+ digits +:+ ".json")))
    with true.
  change (skip 4 (String "t" ("ask" +:+ sign +:+ digits +:+ ".json")))
    with (sign +:+ digits +:+ ".json").
  destruct Hsign as [-> | ->].
  - rewrite app_nil_l.
    change ".json" with (String "." "json") at 1.
    rewrite digits_prefix_app by auto.
    destruct digits; [congruence|]. reflexivity.
  - reflexivity.
Qed.

Lemma length_zeros k : String.length (zeros k) = k.
Proof. induction k; [reflexivity|]. simpl. now rewrite IHk. Qed.

(** What [format_03d] returns: an optional sign and at least one digit,
    the digits reading as the absolute value. *)
Lemma format_03d_shape (n : Z) (number : string) :
  format_03d n = Ret number ->
  exists digits,
    number = (if Z.ltb n 0 then "-" else "") +:+ digits
    /\ all_digits digits = true /\ digits <> ""
    /\ String.length digits <= max_str_digits
    /\ parse_from 0 digits = Z.abs_N n.
Proof.
  unfold format_03d.
  destruct (Nat.ltb max_str_digits (String.length (pretty (Z.abs_N n))))
    eqn:Hlimit; [discriminate|].
  apply Nat.ltb_ge in Hlimit. intros H. injection H as <-.
  destruct (pretty_N_digits (Z.abs_N n)) as (Hall & Hval & Hne).
  set (sign := if Z.ltb n 0 then "-" else "").
  exists (zeros (3 - String.length sign - String.length (pretty (Z.abs_N n)))
          +:+ pretty (Z.abs_N n)).
  split_and!.
  - reflexivity.
  - now rewrite all_digits_app, all_digits_zeros, Hall.
  - destruct (zeros _); [now rewrite app_nil_l | discriminate].
  - rewrite length_app', length_zeros. unfold max_str_digits in *. lia.
  - now rewrite parse_from_zeros.
Qed.

Lemma app_inv_head' (a x y : string) : a +:+ x = a +:+ y -> x = y.
Proof.
  induction a as [|c a IH]; [now rewrite !app_nil_l|].
  rewrite !app_cons. intros H. injection H as H. now apply IH.
Qed.

Lemma path_join_inj dir x y :
  starts_with "/" x = false -> starts_with "/" y = false ->
  path_join dir x = path_join dir y -> x = y.
Proof.
  unfold path_join. intros -> ->.
  destruct (Nat.eqb (String.length dir) 0 || ends_with_slash dir); intros H.
  - now apply app_inv_head' in H.
  - apply app_inv_head' in H. now apply app_inv_head' in H.
Qed.

(** The solution files of two tasks are different files. *)
Lemma solution_path_inj dir a b path :
  solution_path dir a = Ret path -> solution_path dir b = Ret path -> a = b.
Proof.
  unfold solution_path. intros Ha Hb.
  destruct (format_03d (Z.of_nat a)) as [na|] eqn:Hfa; [|discriminate].
  destruct (format_03d (Z.of_nat b)) as [nb|] eqn:Hfb; [|discriminate].
  injection Ha as <-. injection Hb as Hb.
  apply path_join_inj in Hb; [|reflexivity..].
  apply (app_inv_head' "task") in Hb.
  apply format_03d_shape in Hfa as (da & -> & Halla & _ & _ & Hva).
  apply format_03d_shape in Hfb as (db & -> & Hallb & _ & _ & Hvb).
  replace (Z.ltb (Z.of_nat a) 0) with false in Hb
    by (symmetry; apply Z.ltb_ge; lia).
  replace (Z.ltb (Z.of_nat b) 0) with false in Hb
    by (symmetry; apply Z.ltb_ge; lia).
  rewrite !app_nil_l in Hb.
  assert (Hd : digits_prefix (db +:+ ".py") = digits_prefix (da +:+ ".py"))
    by now rewrite Hb.
  change ".py" with (String "." "py") in Hd.
  rewrite !digits_prefix_app in Hd by auto. injection Hd as ->.
  rewrite Hva in Hvb. lia.
Qed.

End PathFacts.

Module PathExtras.

Import Text TextFacts Paths TaskManager FileWriter PathStatements PathFacts.

(** The match in a path built by [get_task_paths], when the name of the
    data directory matches nothing: the digits of the task number, and
    nothing for a negative task number. *)
Lemma search_task_built_path (data_dir : string) (tid : Z) (path : string) :
  search_task data_dir = None ->
  task_path data_dir tid = Ret path ->
  exists digits,
    search_task path = (if Z.ltb tid 0 then None else Some digits)
    /\ String.length digits <= max_str_digits
    /\ parse_from 0 digits = Z.abs_N tid.
Proof.
  intros Hdir. unfold task_path.
  destruct (format_03d tid) as [number|] eqn:Hf; [|discriminate].
  intros H. injection H as <-.
  apply format_03d_shape in Hf as (digits & -> & Hall & Hne & Hlen & Hval).
  exists digits. split; [|auto].
  rewrite search_task_join, Hdir by reflexivity.
  set (sign := if Z.ltb tid 0 then "-" else "").
  replace ("task" +:+ (sign +:+ digits) +:+ ".json")
    with ("task" +:+ sign +:+ digits +:+ ".json")
    by (now rewrite <- (app_assoc' sign digits ".json")).
  rewrite search_task_name by
    (auto; unfold sign; destruct (Z.ltb tid 0); auto).
  unfold sign. now destruct (Z.ltb tid 0).
Qed.

Lemma task_number_of_natural (data_dir : string) (tid : Z) (path : string) :
  (0 <= tid)%Z ->
  search_task data_dir = None ->
  task_path data_dir tid = Ret path ->
  get_task_num_from_path path = Ret (Z.to_nat tid).
Proof.
  intros Htid Hdir Hp.
  destruct (search_task_built_path _ _ _ Hdir Hp)
    as (digits & Hs & Hlen & Hval).
  unfold get_task_num_from_path. rewrite Hs.
  replace (Z.ltb tid 0) with false by (symmetry; apply Z.ltb_ge; lia).
  replace (Nat.ltb max_str_digits (String.length digits)) with false
    by (symmetry; now apply Nat.ltb_ge).
  unfold parse_int. rewrite Hval. f_equal. lia.
Qed.

(** The number read from a path built by [get_task_paths], when the name
    of the data directory is ASCII and matches no task number itself: the
    task number of the path, and an error for a negative task number,
    whose sign separates [task] from the digits. *)
Theorem task_number_of_built_path (data_dir : string) (tid : Z)
    (path : string) :
  isascii data_dir = true ->
  search_task data_dir = None ->
  task_path data_dir tid = Ret path ->
  get_task_num_from_path path
  = if Z.ltb tid 0
    then Exc ("Could not extract task number from path: " +:+ path)
    else Ret (Z.to_nat tid).
Proof.
  intros _ Hdir Hp. destruct (Z.ltb tid 0) eqn:Hneg.
  - destruct (search_task_built_path _ _ _ Hdir Hp) as (digits & Hs & _).
    unfold get_task_num_from_path. now rewrite Hs, Hneg.
  - apply Z.ltb_ge in Hneg.
    exact (task_number_of_natural data_dir tid path Hneg Hdir Hp).
Qed.

(** A data directory whose name matches [task(\d+)\.json] gives its own
    number to every path built in it. *)
Theorem directory_number_shadows_task_number (data_dir : string) (tid : Z)
    (path digits : string) :
  search_task data_dir = Some digits ->
  task_path data_dir tid = Ret path ->
  get_task_num_from_path path = get_task_num_from_path data_dir.
Proof.
  intros Hdir. unfold task_path.
  destruct (format_03d tid) as [number|]; [|discriminate].
  intros H. injection H as <-.
  unfold get_task_num_from_path.
  now rewrite search_task_join, Hdir by reflexivity.
Qed.

Lemma collect_paths_spec data_dir exists_ tids :
  forall paths result,
    collect_paths data_dir exists_ tids paths = Ret result ->
    exists found,
      result = paths ++ found
      /\ Forall2 (fun path tid => task_path data_dir tid = Ret path)
           found (filter (fun tid => task_found data_dir exists_ tid) tids).
Proof.
  induction tids as [|tid tids IH]; intros paths result H.
  - injection H as <-. exists []. now rewrite app_nil_r.
  - cbn [collect_paths] in H.
    destruct (task_path data_dir tid) as [path|] eqn:Hp; [|discriminate].
    apply IH in H as (found & -> & Hall).
    destruct (exists_ path) eqn:Hex.
    + exists (path :: found). rewrite <- app_assoc. split; [reflexivity|].
      rewrite filter_cons_True by (unfold task_found; now rewrite Hp, Hex).
      now constructor.
    + exists found. split; [reflexivity|].
      rewrite filter_cons_False; [assumption|].
      unfold task_found. rewrite Hp, Hex. auto.
Qed.

(** [get_task_paths] lists, in increasing order of task number, the paths
    of the tasks of the range whose file exists; and when the range starts
    at a natural number and the name of the data directory is ASCII and
    matches no task number, [get_task_num_from_path] gives back the number
    of each. *)
Theorem task_paths_are_the_existing_tasks (data_dir : string)
    (start end_ : Z) (exists_ : string -> bool) (paths : list string) :
  get_task_paths data_dir start end_ exists_ = Ret paths ->
  Forall2 (fun path tid =>
             task_path data_dir tid = Ret path /\ exists_ path = true)
    paths
    (filter (fun tid => task_found data_dir exists_ tid)
       (range start (end_ + 1)))
  /\ ((0 <= start)%Z ->
      isascii data_dir = true ->
      search_task data_dir = None ->
      Forall2 (fun path tid =>
                 get_task_num_from_path path = Ret (Z.to_nat tid))
        paths
        (filter (fun tid => task_found data_dir exists_ tid)
           (range start (end_ + 1)))).
Proof.
  intros H. unfold get_task_paths in H.
  apply collect_paths_spec in H as (found & -> & Hall). cbn [app].
  split.
  - assert (Hfound : Forall
                       (fun tid => task_found data_dir exists_ tid = true)
                       (filter (fun tid => task_found data_dir exists_ tid)
                          (range start (end_ + 1)))).
    { apply Forall_forall. intros tid Hin.
      apply list_elem_of_filter in Hin as [Hfound _].
      now destruct (task_found data_dir exists_ tid). }
    revert Hfound.
    induction Hall as [|path tid found tids Hp Hrest IH]; intros Hfound;
      [constructor|].
    inversion Hfound as [|? ? Hf Hfound']; subst.
    constructor; [|now apply IH].
    split; [assumption|].
    unfold task_found in Hf. now rewrite Hp in Hf.
  - intros Hstart _ Hdir.
    assert (Hrange : Forall (fun tid => (0 <= tid)%Z)
                       (filter (fun tid => task_found data_dir exists_ tid)
                          (range start (end_ + 1)))).
    { apply Forall_forall. intros tid Hin.
      apply list_elem_of_filter in Hin as [Hfound Hin].
      unfold range in Hin. apply list_elem_of_fmap in Hin as (k & -> & _).
      lia. }
    revert Hrange.
    induction Hall as [|path tid found tids Hp Hrest IH]; intros Hrange;
      [constructor|].
    inversion Hrange as [|? ? Htid Hrange']; subst.
    constructor; [|now apply IH].
    exact (task_number_of_natural data_dir tid path Htid Hdir Hp).
Qed.

(** [save_code] and [file_exists] on paths do what the orchestrator's
    map of solutions by task number does: saving the code of a task
    changes the file of no other task, and a solution is found exactly
    when the map has one. *)
Theorem file_writer_acts_on_solution_map (output_dir : string)
    (fs : files) (w : Pipeline.world) (task_id : nat) :
  holds_solutions output_dir fs (Pipeline.solutions w) ->
  (forall found,
      file_exists output_dir task_id fs = Ret found ->
      found = Pipeline.file_exists task_id w)
  /\ (forall code fs' path,
         save_code output_dir task_id code fs = Ret (fs', path) ->
         holds_solutions output_dir fs'
           (Pipeline.solutions (Pipeline.save_code task_id code w))).
Proof.
  intros Hfs. split.
  - intros found. unfold file_exists, Pipeline.file_exists.
    destruct (solution_path output_dir task_id) as [path|] eqn:Hp;
      [|discriminate].
    intros H. injection H as <-. now rewrite (Hfs _ _ Hp).
  - intros code fs' path. unfold save_code.
    destruct (solution_path output_dir task_id) as [file_path|] eqn:Hp;
      [|discriminate].
    intros H. injection H as <- <-.
    intros other path' Hother. cbn.
    destruct (decide (other = task_id)) as [->|Hne].
    + rewrite Hp in Hother. injection Hother as <-.
      unfold files in *.
      rewrite (lookup_insert_eq fs), (lookup_insert_eq (Pipeline.solutions w)).
      reflexivity.
    + unfold files in *.
      rewrite (lookup_insert_ne (Pipeline.solutions w)) by congruence.
      rewrite (lookup_insert_ne fs); [now apply Hfs|].
      intros <-. apply Hne.
      exact (solution_path_inj _ _ _ _ Hother Hp).
Qed.

End PathExtras.

(** ** Further properties of the prompts *)

Module PromptExtras.

Import Text TextFacts PromptBuilder Statements PromptFacts.

Section Extras.

Variable json_dumps : list example -> string.

Abbreviation format_tests := (format_tests json_dumps).
Abbreviation build_prompt := (build_prompt json_dumps).

Lemma format_tests_take (test_examples : list example) :
  format_tests (take 3 test_examples) = format_tests test_examples.
Proof.
  destruct test_examples as [|e1 later]; [reflexivity|].
  unfold PromptBuilder.format_tests.
  change (take 3 (e1 :: later)) with (e1 :: take 2 later).
  change (take 3 (e1 :: take 2 later)) with (e1 :: take 2 (take 2 later)).
  now rewrite take_take.
Qed.

(** The prompt does not depend on the task number, and of the test
    examples only the first three count. *)
Theorem prompt_ignores_task_number_and_later_tests
    (task_id task_id' : nat) (train_examples test_examples : list example)
    (previous_code error_message : option string) :
  build_prompt task_id train_examples test_examples previous_code
    error_message
  = build_prompt task_id' train_examples (take 3 test_examples)
      previous_code error_message.
Proof.
  unfold PromptBuilder.build_prompt. now rewrite format_tests_take.
Qed.

(** Every prompt, initial or refinement, carries the formatted training
    examples and the formatted test examples. *)
Theorem prompt_carries_the_examples
    (task_id : nat) (train_examples test_examples : list example)
    (previous_code error_message : option string) :
  let prompt :=
    build_prompt task_id train_examples test_examples previous_code
      error_message in
  contains (json_dumps train_examples) prompt = true
  /\ contains (format_tests test_examples) prompt = true.
Proof.
  intros prompt. unfold prompt, PromptBuilder.build_prompt.
  destruct (truthy previous_code && truthy error_message).
  - unfold refinement_prompt. split.
    + rewrite <- (app_assoc' (default "" error_message)).
      rewrite <- (app_assoc' refinement_after_code).
      rewrite <- (app_assoc' (default "" previous_code)).
      rewrite <- (app_assoc' refinement_head).
      apply contains_occurrence.
    + rewrite <- (app_assoc' (json_dumps train_examples)).
      rewrite <- (app_assoc' refinement_after_error).
      rewrite <- (app_assoc' (default "" error_message)).
      rewrite <- (app_assoc' refinement_after_code).
      rewrite <- (app_assoc' (default "" previous_code)).
      rewrite <- (app_assoc' refinement_head).
      apply contains_occurrence.
  - unfold initial_prompt. split.
    + apply contains_occurrence.
    + rewrite <- (app_assoc' (json_dumps train_examples)).
      rewrite <- (app_assoc' initial_head).
      apply contains_occurrence.
Qed.

(** The refinement template is used exactly when both a previous code and
    an error message are given and neither is empty. *)
Theorem refinement_template_iff_code_and_error
    (task_id : nat) (train_examples test_examples : list example)
    (previous_code error_message : option string) :
  is_refinement
    (build_prompt task_id train_examples test_examples previous_code
       error_message)
  <-> (exists code error,
          previous_code = Some code /\ code <> ""
          /\ error_message = Some error /\ error <> "").
Proof.
  unfold PromptBuilder.build_prompt. split.
  - intros (code & feedback & train & test & H).
    destruct previous_code as [[|c code']|]; cbn [truthy andb] in H;
      try (symmetry in H; now apply refinement_is_not_initial in H).
    destruct error_message as [[|d error']|]; cbn [truthy andb] in H;
      try (symmetry in H; now apply refinement_is_not_initial in H).
    eexists _, _. split_and!; try reflexivity; discriminate.
  - intros (code & error & -> & Hcode & -> & Herror).
    destruct code; [congruence|]. destruct error; [congruence|].
    cbn [truthy andb default]. eexists _, _, _, _. reflexivity.
Qed.

End Extras.

End PromptExtras.

(** ** The further properties on concrete inputs *)

Module ExtrasExamples.

Import Text CodeValidator OutputParser PromptBuilder Pipeline.
Import Statements MoreStatements Demo MoreDemo.

Lemma demo_entry_points_stateless code program :
  demo_exec code = Loaded (Some (Callable program)) ->
  code <> once_source ->
  stateless program.
Proof.
  unfold demo_exec. intros H Hne.
  repeat match type of H with
         | (if ?b then _ else _) = _ => destruct b eqn:?
         end;
    try discriminate;
    try (injection H as <-; intros e g; reflexivity).
  match goal with
  | E : String.eqb code once_source = true |- _ =>
      apply String.eqb_eq in E; contradiction
  end.
Qed.


Lemma accepted_only_with_callable_entry_point_witness :
  passes_training_examples demo_exec flip_task flip_source
  = Some (true, "Passed 1/1 train examples")
  /\ exists program,
       demo_exec flip_source = Loaded (Some (Callable program))
       /\ all_pass program flip_train
       /\ "Passed 1/1 train examples"
          = tally_message (length flip_train) (length flip_train).
Proof.
  assert (Hp : passes_training_examples demo_exec flip_task flip_source
               = Some (true, "Passed 1/1 train examples"))
    by (vm_compute; reflexivity).
  split; [exact Hp|].
  exact (ValidatorExtras.accepted_only_with_callable_entry_point demo_exec
           flip_task flip_source "Passed 1/1 train examples" Hp).
Defined.

Lemma acceptance_survives_removing_examples_witness :
  (forall program,
      demo_exec flip_source = Loaded (Some (Callable program)) ->
      stateless program)
  /\ default [] (flip_task !! "train")
       ⊆+ default [] (two_pair_task !! "train")
  /\ (exists message,
         passes_training_examples demo_exec two_pair_task flip_source
         = Some (true, message))
  /\ exists message',
       passes_training_examples demo_exec flip_task flip_source
       = Some (true, message').
Proof.
  assert (Hpure : forall program,
             demo_exec flip_source = Loaded (Some (Callable program)) ->
             stateless program).
  { intros program H. apply (demo_entry_points_stateless _ _ H).
    discriminate. }
  assert (Hsub : default [] (flip_task !! "train")
                   ⊆+ default [] (two_pair_task !! "train")).
  { vm_compute. apply submseteq_skip, submseteq_cons, submseteq_nil. }
  assert (Hp : exists message,
             passes_training_examples demo_exec two_pair_task flip_source
             = Some (true, message))
    by (eexists; vm_compute; reflexivity).
  split; [exact Hpure|]. split; [exact Hsub|]. split; [exact Hp|].
  exact (ValidatorExtras.acceptance_survives_removing_examples demo_exec
           two_pair_task flip_task flip_source Hpure Hsub Hp).
Defined.

(** The counting candidate on the first pair twice: the second call is
    made in the state that the first call leaves, and fails. *)
Lemma tally_of_concatenation_witness :
  score_examples once_program [pair_0] 0 = Some 1
  /\ score_examples (entry_after once_program [pair_0]) [pair_0] 0 = Some 0
  /\ score_examples once_program ([pair_0] ++ [pair_0]) 0 = Some (1 + 0).
Proof.
  assert (H0 : score_examples once_program [pair_0] 0 = Some 1)
    by (vm_compute; reflexivity).
  assert (H1 : score_examples (entry_after once_program [pair_0]) [pair_0] 0
               = Some 0)
    by (vm_compute; reflexivity).
  split; [exact H0|]. split; [exact H1|].
  exact (ValidatorExtras.tally_of_concatenation once_program [pair_0]
           [pair_0] 1 0 H0 H1).
Defined.

Lemma fenced_code_round_trip_witness :
  isascii flip_source = true
  /\ contains fence prose_before = false
  /\ contains fence flip_source = false
  /\ trimmed flip_source
  /\ extract_code (prose_before +:+ "```python" +:+ line_feed +:+ flip_source
                     +:+ line_feed +:+ fence +:+ prose_after)
     = flip_source.
Proof.
  assert (Hascii : isascii flip_source = true) by reflexivity.
  assert (Hpre : contains fence prose_before = false) by reflexivity.
  assert (Hcode : contains fence flip_source = false) by reflexivity.
  assert (Htrim : trimmed flip_source) by (split; reflexivity).
  split; [exact Hascii|].
  split; [exact Hpre|]. split; [exact Hcode|]. split; [exact Htrim|].
  exact (ExtractorExtras.fenced_code_round_trip prose_before flip_source
           prose_after Hascii Hpre Hcode Htrim).
Defined.

Lemma function_body_is_a_trimmed_suffix_witness :
  isascii prose_def = true
  /\ extract_function_body prose_def = Some identity_source
  /\ starts_with "def" identity_source = true
  /\ trimmed identity_source
  /\ exists before trailing,
       prose_def = before +:+ identity_source +:+ trailing
       /\ lstrip trailing = "".
Proof.
  assert (Hascii : isascii prose_def = true) by reflexivity.
  assert (Hbody : extract_function_body prose_def = Some identity_source)
    by (vm_compute; reflexivity).
  split; [exact Hascii|]. split; [exact Hbody|].
  exact (proj1 (ExtractorExtras.function_body_is_a_trimmed_suffix prose_def)
           Hascii identity_source Hbody).
Defined.

Lemma candidate_of_short_reply_is_short_witness :
  validate_code_length spaced_tag_raw 40 = true
  /\ validate_code_length (extract_code spaced_tag_raw) 40 = true.
Proof.
  assert (H : validate_code_length spaced_tag_raw 40 = true) by reflexivity.
  split; [exact H|].
  exact (ExtractorExtras.candidate_of_short_reply_is_short spaced_tag_raw 40
           H).
Defined.

Lemma call_counter_counts_answered_requests_witness :
  exists w,
    run_pipeline demo_parse demo_exec demo_json flaky_llm 100 true 2
      one_file ∅ = Some w
    /\ api_calls w = answered flaky_llm 0 (requests w)
    /\ api_calls w <= length (requests w).
Proof.
  assert (Hr : exists w,
             run_pipeline demo_parse demo_exec demo_json flaky_llm 100 true 2
               one_file ∅ = Some w)
    by (eexists; vm_compute; reflexivity).
  destruct Hr as (w & Hr). exists w. split; [exact Hr|].
  exact (PipelineExtras.call_counter_counts_answered_requests demo_parse
           demo_exec demo_json flaky_llm 100 true 2 one_file ∅ w Hr).
Defined.

Lemma solution_saved_iff_accepted_witness :
  exists w' v',
    solve_task demo_parse demo_exec demo_json boom_llm true 2 1 flip_task
      fresh_world = Some (w', v')
    /\ (succeeded v' = true ->
        exists code message,
          demo_parse code = ParseOk /\
          passes_training_examples demo_exec flip_task code
          = Some (true, message) /\
          solutions w' = <[1 := code]> (solutions fresh_world))
    /\ (succeeded v' = false -> solutions w' = solutions fresh_world).
Proof.
  assert (Hs : exists w' v',
             solve_task demo_parse demo_exec demo_json boom_llm true 2 1
               flip_task fresh_world = Some (w', v'))
    by (eexists _, _; vm_compute; reflexivity).
  destruct Hs as (w' & v' & Hs). exists w', v'. split; [exact Hs|].
  exact (PipelineExtras.solution_saved_iff_accepted demo_parse demo_exec
           demo_json boom_llm true 2 1 flip_task fresh_world w' v' Hs).
Defined.

Lemma run_keeps_existing_solutions_witness :
  exists w',
    run_tasks demo_parse demo_exec demo_json flip_llm 100 true 2 two_files
      solved_world = Some w'
    /\ solutions solved_world !! 1 = Some flip_source
    /\ solutions w' !! 1 = Some flip_source.
Proof.
  assert (Hr : exists w',
             run_tasks demo_parse demo_exec demo_json flip_llm 100 true 2
               two_files solved_world = Some w')
    by (eexists; vm_compute; reflexivity).
  destruct Hr as (w' & Hr). exists w'. split; [exact Hr|].
  split; [reflexivity|].
  exact (PipelineExtras.run_keeps_existing_solutions demo_parse demo_exec
           demo_json flip_llm 100 true 2 two_files solved_world w' 1
           flip_source Hr eq_refl).
Defined.

Lemma run_saves_only_accepted_candidates_witness :
  exists w',
    run_tasks demo_parse demo_exec demo_json boom_llm 100 true 2 one_file
      fresh_world = Some w'
    /\ solutions fresh_world !! 1 = None
    /\ solutions w' !! 1 = Some flip_source
    /\ exists t task message,
         In t one_file /\ file_task_id t = 1 /\
         file_contents t = Ret task /\
         demo_parse flip_source = ParseOk /\
         passes_training_examples demo_exec task flip_source
         = Some (true, message).
Proof.
  assert (Hr : exists w',
             run_tasks demo_parse demo_exec demo_json boom_llm 100 true 2
               one_file fresh_world = Some w'
             /\ solutions w' !! 1 = Some flip_source)
    by (eexists; split; vm_compute; reflexivity).
  destruct Hr as (w' & Hr & Hl). exists w'. split; [exact Hr|].
  split; [reflexivity|]. split; [exact Hl|].
  exact (PipelineExtras.run_saves_only_accepted_candidates demo_parse
           demo_exec demo_json boom_llm 100 true 2 one_file fresh_world w' 1
           flip_source Hr eq_refl Hl).
Defined.

Lemma one_request_without_retries_witness :
  false = false
  /\ exists w' v',
       solve_task demo_parse demo_exec demo_json boom_llm false 2 1
         flip_task fresh_world = Some (w', v')
       /\ exists prompt, requests w' = requests fresh_world ++ [prompt].
Proof.
  split; [reflexivity|].
  assert (Hs : exists w' v',
             solve_task demo_parse demo_exec demo_json boom_llm false 2 1
               flip_task fresh_world = Some (w', v'))
    by (eexists _, _; vm_compute; reflexivity).
  destruct Hs as (w' & v' & Hs). exists w', v'. split; [exact Hs|].
  exact (PipelineExtras.one_request_without_retries demo_parse demo_exec
           demo_json boom_llm false 2 1 flip_task fresh_world w' v' eq_refl
           Hs).
Defined.

Lemma budget_overshoot_is_bounded_witness :
  exists w,
    run_pipeline demo_parse demo_exec demo_json boom_llm 1 true 2 two_files
      ∅ = Some w
    /\ api_calls w <= 1 + 2
    /\ length (requests w) <= 1 * (2 + 1).
Proof.
  assert (Hr : exists w,
             run_pipeline demo_parse demo_exec demo_json boom_llm 1 true 2
               two_files ∅ = Some w)
    by (eexists; vm_compute; reflexivity).
  destruct Hr as (w & Hr). exists w. split; [exact Hr|].
  exact (PipelineExtras.budget_overshoot_is_bounded demo_parse demo_exec
           demo_json boom_llm 1 true 2 two_files ∅ w Hr).
Defined.

Lemma run_over_solved_tasks_makes_no_request_witness :
  Forall (fun t => is_Some ((<[1 := flip_source]> ∅ : gmap nat string)
                              !! file_task_id t)) one_file
  /\ exists w,
       run_pipeline demo_parse demo_exec demo_json flip_llm 100 true 2
         one_file (<[1 := flip_source]> ∅) = Some w
       /\ requests w = [] /\ api_calls w = 0
       /\ solutions w = <[1 := flip_source]> ∅ /\ progress w = []
       /\ skipped (counters w) = Nat.min (length one_file) 100
       /\ success (counters w) = 0 /\ exception (counters w) = 0.
Proof.
  assert (Hall : Forall (fun t => is_Some ((<[1 := flip_source]> ∅
                                             : gmap nat string)
                                            !! file_task_id t)) one_file).
  { constructor; [|constructor]. exists flip_source. reflexivity. }
  split; [exact Hall|].
  exact (PipelineExtras.run_over_solved_tasks_makes_no_request demo_parse
           demo_exec demo_json flip_llm 100 true 2 one_file
           (<[1 := flip_source]> ∅) Hall).
Defined.

Lemma get_stats_counts_each_row_once_witness :
  exists st,
    ProgressTracker.get_stats (Some demo_rows) = Ret (Some st)
    /\ ProgressTracker.total st
       = length (filter (fun row => row <> []) demo_rows)
    /\ ProgressTracker.success st + ProgressTracker.failed_syntax st
       + ProgressTracker.failed_validation st
       + ProgressTracker.failed_exception st <= ProgressTracker.total st.
Proof.
  assert (Hs : exists st,
             ProgressTracker.get_stats (Some demo_rows) = Ret (Some st))
    by (eexists; vm_compute; reflexivity).
  destruct Hs as (st & Hs). exists st. split; [exact Hs|].
  exact (ProgressFacts.get_stats_counts_each_row_once demo_rows st Hs).
Defined.

Lemma log_statistics_agree_with_summary_witness :
  exists w,
    run_pipeline demo_parse demo_exec demo_json boom_llm 100 true 2
      one_file ∅ = Some w
    /\ Forall2 LogStatements.read_with_status
         (ProgressTracker.csv_rows demo_clock 0 (progress w)) (progress w)
    /\ exists st,
         ProgressTracker.get_stats
           (Some (ProgressTracker.csv_rows demo_clock 0 (progress w)))
         = Ret (Some st)
         /\ ProgressTracker.total st = length (requests w)
         /\ ProgressTracker.success st = success (counters w)
         /\ ProgressTracker.failed_syntax st = syntax_error (counters w)
         /\ ProgressTracker.failed_validation st
            = validation_failed (counters w)
         /\ ProgressTracker.failed_exception st <= exception (counters w).
Proof.
  assert (Hr : exists w,
             run_pipeline demo_parse demo_exec demo_json boom_llm 100 true 2
               one_file ∅ = Some w)
    by (eexists; vm_compute; reflexivity).
  destruct Hr as (w & Hr). exists w. split; [exact Hr|].
  pose proof (ProgressFacts.csv_rows_read_with_status demo_clock
                (progress w) 0) as Hread.
  split; [exact Hread|].
  exact (ProgressFacts.log_statistics_agree_with_summary demo_parse demo_exec
           demo_json boom_llm 100 true 2 one_file ∅ w _ Hr Hread).
Defined.

Lemma task_number_of_built_path_witness :
  isascii "data" = true
  /\ TaskManager.search_task "data" = None
  /\ TaskManager.task_path "data" 7 = Ret "data/task007.json"
  /\ TaskManager.get_task_num_from_path "data/task007.json"
     = (if Z.ltb 7 0
        then Exc ("Could not extract task number from path: "
                  +:+ "data/task007.json")
        else Ret (Z.to_nat 7)).
Proof.
  assert (Hdir : TaskManager.search_task "data" = None) by reflexivity.
  assert (Hp : TaskManager.task_path "data" 7 = Ret "data/task007.json")
    by (vm_compute; reflexivity).
  split; [reflexivity|]. split; [exact Hdir|]. split; [exact Hp|].
  exact (PathExtras.task_number_of_built_path "data" 7 "data/task007.json"
           eq_refl Hdir Hp).
Defined.

Lemma directory_number_shadows_task_number_witness :
  TaskManager.search_task misleading_dir = Some "12"
  /\ TaskManager.task_path misleading_dir 7
     = Ret "runs/task12.json.d/task007.json"
  /\ TaskManager.get_task_num_from_path "runs/task12.json.d/task007.json"
     = TaskManager.get_task_num_from_path misleading_dir.
Proof.
  assert (Hdir : TaskManager.search_task misleading_dir = Some "12")
    by (vm_compute; reflexivity).
  assert (Hp : TaskManager.task_path misleading_dir 7
               = Ret "runs/task12.json.d/task007.json")
    by (vm_compute; reflexivity).
  split; [exact Hdir|]. split; [exact Hp|].
  exact (PathExtras.directory_number_shadows_task_number misleading_dir 7
           "runs/task12.json.d/task007.json" "12" Hdir Hp).
Defined.

Lemma task_paths_are_the_existing_tasks_witness :
  TaskManager.get_task_paths "data" 1 3 demo_exists
  = Ret ["data/task002.json"; "data/task003.json"]
  /\ Forall2 (fun path tid =>
                TaskManager.task_path "data" tid = Ret path
                /\ demo_exists path = true)
       ["data/task002.json"; "data/task003.json"]
       (filter (fun tid => PathStatements.task_found "data" demo_exists tid)
          (TaskManager.range 1 (3 + 1)))
  /\ (0 <= 1)%Z
  /\ isascii "data" = true
  /\ TaskManager.search_task "data" = None
  /\ Forall2 (fun path tid =>
                TaskManager.get_task_num_from_path path = Ret (Z.to_nat tid))
       ["data/task002.json"; "data/task003.json"]
       (filter (fun tid => PathStatements.task_found "data" demo_exists tid)
          (TaskManager.range 1 (3 + 1))).
Proof.
  assert (Hstart : (0 <= 1)%Z) by lia.
  assert (Hascii : isascii "data" = true) by reflexivity.
  assert (Hdir : TaskManager.search_task "data" = None) by reflexivity.
  assert (Hp : TaskManager.get_task_paths "data" 1 3 demo_exists
               = Ret ["data/task002.json"; "data/task003.json"])
    by (vm_compute; reflexivity).
  split; [exact Hp|].
  split;
    [exact (proj1 (PathExtras.task_paths_are_the_existing_tasks "data" 1 3
                     demo_exists _ Hp))|].
  split; [exact Hstart|]. split; [exact Hascii|]. split; [exact Hdir|].
  exact (proj2 (PathExtras.task_paths_are_the_existing_tasks "data" 1 3
                  demo_exists _ Hp) Hstart Hascii Hdir).
Defined.

Lemma file_writer_acts_on_solution_map_witness :
  PathStatements.holds_solutions "out" ∅ (solutions fresh_world)
  /\ (forall found,
         FileWriter.file_exists "out" 1 ∅ = Ret found ->
         found = Pipeline.file_exists 1 fresh_world)
  /\ (forall code fs' path,
         FileWriter.save_code "out" 1 code ∅ = Ret (fs', path) ->
         PathStatements.holds_solutions "out" fs'
           (solutions (Pipeline.save_code 1 code fresh_world))).
Proof.
  assert (Hfs : PathStatements.holds_solutions "out" ∅
                  (solutions fresh_world)).
  { intros task_id path _. reflexivity. }
  split; [exact Hfs|].
  exact (PathExtras.file_writer_acts_on_solution_map "out" ∅ fresh_world 1
           Hfs).
Defined.

End ExtrasExamples.
